(** * Session coordinator and request monitoring: a shallow embedding

    The development follows the layout of the TypeScript sources:

    - [Identity]        [generateSessionId] and [parseModelPreference]
                        of utils/sessionManager;
    - [PortAllocator]   [findAvailablePort] / [isPortAvailable];
    - [SessionRegistry] pid files, reference-count files, liveness and
                        the two stop paths (command line and HTTP);
    - [Monitoring]      the [MonitoringService] class of utils/monitoring;
    - [SessionFiles]    session descriptors, the environment of a worker
                        and [main] of cli.ts for the command [stop];
    - [Startup]         the constructor of [MonitoringService] and what
                        its states keep;
    - [Delivery]        the frames the listeners of [streamLogs] send;
    - [Auth]            [apiKeyAuth] of middleware/auth;
    - [ServerLogs]      the log file endpoints of server.ts.

    Conventions.  A JavaScript string is a Rocq [string] whose characters
    are the code units below 256.  Integer valued JavaScript numbers are
    [Z].  The running mean, the only fractional number of the program,
    is a double there and the exact rational [Q] here: the two agree
    where the sums and quotients are representable, and nothing below
    speaks of a rounded value.  Every function that reads the clock receives
    the reading as an argument, one reading per call, and a call runs to
    its end before the next one starts.  What the sources import and do
    not define (the network, the process table, signals, the calendar)
    is a parameter of the functions that use it; a thrown exception is
    [None], or the error constructor of the result type. *)

From Stdlib Require Import ZArith QArith String Ascii List Bool Lia.
From stdpp Require Import gmap strings list sorting.
Close Scope Q_scope.
Import ListNotations.
Open Scope string_scope.

(** ** Strings the way the JavaScript runtime sees them *)

Module JsString.

Definition code (c : ascii) : Z := Z.of_N (N_of_ascii c).

(** [WhiteSpace] and [LineTerminator] code units below 256, the ones
    [String.prototype.trim] strips. *)
Definition isWhite (c : ascii) : bool :=
  let n := code c in
  ((9 <=? n) && (n <=? 13) || (n =? 32) || (n =? 160))%Z.

Fixpoint trimStart (s : string) : string :=
  match s with
  | EmptyString => EmptyString
  | String c s' => if isWhite c then trimStart s' else s
  end.

(** Strips trailing white space: a character is kept when something
    that is not white follows it or it is not white itself. *)
Fixpoint trimEnd (s : string) : string :=
  match s with
  | EmptyString => EmptyString
  | String c s' =>
      match trimEnd s' with
      | EmptyString => if isWhite c then EmptyString else String c EmptyString
      | t => String c t
      end
  end.

Definition trim (s : string) : string := trimEnd (trimStart s).

(** [s.split(sep)] for a one character separator: never the empty
    list, [""] splits to [[""]]. *)
Fixpoint split (sep : ascii) (s : string) : list string :=
  match s with
  | EmptyString => [EmptyString]
  | String c s' =>
      if Ascii.eqb c sep then EmptyString :: split sep s'
      else match split sep s' with
           | [] => [String c EmptyString]
           | h :: t => String c h :: t
           end
  end.

(** [s.substring(0, n)]. *)
Definition prefix (n : nat) (s : string) : string := String.substring 0 n s.

(** Truthiness of a string: only the empty string is falsy. *)
Definition truthy (s : string) : bool :=
  match s with EmptyString => false | _ => true end.

Fixpoint count (c : ascii) (s : string) : nat :=
  match s with
  | EmptyString => 0
  | String d s' => (if Ascii.eqb d c then 1 else 0) + count c s'
  end.

Fixpoint allWhite (s : string) : bool :=
  match s with
  | EmptyString => true
  | String c s' => isWhite c && allWhite s'
  end.

(** The text before the first [c], and the text after it. *)
Fixpoint before (c : ascii) (s : string) : string :=
  match s with
  | EmptyString => EmptyString
  | String d s' => if Ascii.eqb d c then EmptyString else String d (before c s')
  end.

Fixpoint after (c : ascii) (s : string) : string :=
  match s with
  | EmptyString => EmptyString
  | String d s' => if Ascii.eqb d c then s' else after c s'
  end.

End JsString.

(** ** MD5 (RFC 1321), what [createHash('md5').update(s).digest('hex')]
    computes on the UTF-8 encoding of [s] *)

Module Md5.
Import JsString.
Local Open Scope Z_scope.

Definition w32 (x : Z) : Z := x mod 2 ^ 32.
Definition add32 (a b : Z) : Z := w32 (a + b).
Definition not32 (x : Z) : Z := Z.lxor x 0xffffffff.
Definition rotl32 (x c : Z) : Z :=
  w32 (Z.lor (Z.shiftl x c) (Z.shiftr x (32 - c))).

Definition shifts : list Z :=
  [7; 12; 17; 22; 7; 12; 17; 22; 7; 12; 17; 22; 7; 12; 17; 22;
   5; 9; 14; 20; 5; 9; 14; 20; 5; 9; 14; 20; 5; 9; 14; 20;
   4; 11; 16; 23; 4; 11; 16; 23; 4; 11; 16; 23; 4; 11; 16; 23;
   6; 10; 15; 21; 6; 10; 15; 21; 6; 10; 15; 21; 6; 10; 15; 21].

Definition sines : list Z :=
  [0xd76aa478; 0xe8c7b756; 0x242070db; 0xc1bdceee;
   0xf57c0faf; 0x4787c62a; 0xa8304613; 0xfd469501;
   0x698098d8; 0x8b44f7af; 0xffff5bb1; 0x895cd7be;
   0x6b901122; 0xfd987193; 0xa679438e; 0x49b40821;
   0xf61e2562; 0xc040b340; 0x265e5a51; 0xe9b6c7aa;
   0xd62f105d; 0x02441453; 0xd8a1e681; 0xe7d3fbc8;
   0x21e1cde6; 0xc33707d6; 0xf4d50d87; 0x455a14ed;
   0xa9e3e905; 0xfcefa3f8; 0x676f02d9; 0x8d2a4c8a;
   0xfffa3942; 0x8771f681; 0x6d9d6122; 0xfde5380c;
   0xa4beea44; 0x4bdecfa9; 0xf6bb4b60; 0xbebfbc70;
   0x289b7ec6; 0xeaa127fa; 0xd4ef3085; 0x04881d05;
   0xd9d4d039; 0xe6db99e5; 0x1fa27cf8; 0xc4ac5665;
   0xf4292244; 0x432aff97; 0xab9423a7; 0xfc93a039;
   0x655b59c3; 0x8f0ccc92; 0xffeff47d; 0x85845dd1;
   0x6fa87e4f; 0xfe2ce6e0; 0xa3014314; 0x4e0811a1;
   0xf7537e82; 0xbd3af235; 0x2ad7d2bb; 0xeb86d391].

Definition at_ (l : list Z) (i : Z) : Z := nth (Z.to_nat i) l 0.

(** UTF-8 bytes of a string of code units below 256. *)
Definition utf8 (c : ascii) : list Z :=
  let n := code c in
  if n <? 128 then [n] else [192 + n / 64; 128 + n mod 64].

Fixpoint encode (s : string) : list Z :=
  match s with
  | EmptyString => []
  | String c s' => utf8 c ++ encode s'
  end.

Definition le_bytes (n : nat) (x : Z) : list Z :=
  map (fun i => (x / 2 ^ (8 * Z.of_nat i)) mod 256) (seq 0 n).

Definition padded (msg : list Z) : list Z :=
  let len := Z.of_nat (length msg) in
  msg ++ [128] ++ repeat 0 (Z.to_nat ((55 - len) mod 64))
      ++ le_bytes 8 ((8 * len) mod 2 ^ 64).

Definition le_word (b : list Z) : Z :=
  at_ b 0 + 256 * at_ b 1 + 65536 * at_ b 2 + 16777216 * at_ b 3.

Definition block_words (b : list Z) : list Z :=
  map (fun i => le_word (skipn (4 * i) b)) (seq 0 16).

Definition State : Type := Z * Z * Z * Z.

Definition round (M : list Z) (st : State) (i : nat) : State :=
  let '(A, B, C, D) := st in
  let iz := Z.of_nat i in
  let '(F, g) :=
    if iz <? 16 then (Z.lor (Z.land B C) (Z.land (not32 B) D), iz)
    else if iz <? 32 then
      (Z.lor (Z.land D B) (Z.land (not32 D) C), (5 * iz + 1) mod 16)
    else if iz <? 48 then (Z.lxor (Z.lxor B C) D, (3 * iz + 5) mod 16)
    else (Z.lxor C (Z.lor B (not32 D)), (7 * iz) mod 16) in
  let F' := w32 (F + A + at_ sines iz + at_ M g) in
  (D, add32 B (rotl32 F' (at_ shifts iz)), B, C).

Definition compress (st : State) (block : list Z) : State :=
  let '(a0, b0, c0, d0) := st in
  let '(A, B, C, D) := fold_left (round (block_words block)) (seq 0 64) st in
  (add32 a0 A, add32 b0 B, add32 c0 C, add32 d0 D).

Fixpoint blocks (n : nat) (bytes : list Z) : list (list Z) :=
  match n with
  | O => []
  | S n' => firstn 64 bytes :: blocks n' (skipn 64 bytes)
  end.

Definition init : State := (0x67452301, 0xefcdab89, 0x98badcfe, 0x10325476).

Definition digest_words (s : string) : State :=
  let p := padded (encode s) in
  fold_left compress (blocks (length p / 64) p) init.

Definition hexdigit (n : Z) : ascii :=
  nth (Z.to_nat (n mod 16))
    (list_ascii_of_string "0123456789abcdef") "0"%char.

Definition hexbyte (b : Z) (rest : string) : string :=
  String (hexdigit (b / 16)) (String (hexdigit b) rest).

(** A 32-bit word printed as its four bytes, least significant first. *)
Definition hexword (w : Z) (rest : string) : string :=
  hexbyte w (hexbyte (w / 256) (hexbyte (w / 65536)
    (hexbyte (w / 16777216) rest))).

Definition hex (s : string) : string :=
  let '(a, b, c, d) := digest_words s in
  hexword a (hexword b (hexword c (hexword d EmptyString))).

Definition isHex (c : ascii) : bool :=
  let n := code c in
  ((48 <=? n) && (n <=? 57) || (97 <=? n) && (n <=? 102)).

End Md5.

(** ** Identity: utils/sessionManager, first half *)

Module Identity.
Import JsString.

Record ModelPreference := {
  provider : option string;
  model : option string;
  raw : string
}.

Definition parseModelPreference (preference : string) : ModelPreference :=
  if negb (truthy preference) || negb (truthy (trim preference)) then
    {| provider := None; model := None; raw := "" |}
  else
    let parts := map trim (split ","%char preference) in
    match parts with
    | [p0; p1] => {| provider := Some p0; model := Some p1; raw := preference |}
    | [p0] =>
        match split "/"%char p0 with
        | [s0; s1] =>
            {| provider := Some s0; model := Some s1; raw := preference |}
        | _ => {| provider := None; model := Some p0; raw := preference |}
        end
    | _ => {| provider := None; model := None; raw := preference |}
    end.

Definition generateSessionId (modelPreference : string) : string :=
  if negb (truthy modelPreference) then "default"
  else prefix 8 (Md5.hex modelPreference).

(** The parsing rule in words, to compare [parseModelPreference] with:
    a blank preference names nothing; exactly one comma separates
    provider and model, each trimmed; without a comma, exactly one
    slash in the trimmed text separates them and any other text is a
    bare model name; two commas or more name nothing. *)
Definition preferenceRule (preference : string) : ModelPreference :=
  if allWhite preference then {| provider := None; model := None; raw := "" |}
  else
    match count ","%char preference with
    | 0%nat =>
        let text := trim preference in
        match count "/"%char text with
        | 1%nat =>
            {| provider := Some (before "/"%char text);
               model := Some (after "/"%char text);
               raw := preference |}
        | _ => {| provider := None; model := Some text; raw := preference |}
        end
    | 1%nat =>
        {| provider := Some (trim (before ","%char preference));
           model := Some (trim (after ","%char preference));
           raw := preference |}
    | _ => {| provider := None; model := None; raw := preference |}
    end.

End Identity.

(** ** Numbers and their text, as [parseInt] and [toString] see them *)

Module JsNumber.
Import JsString.
Local Open Scope Z_scope.

Definition digitValue (radix : Z) (c : ascii) : option Z :=
  let n := code c in
  let v := if (48 <=? n) && (n <=? 57) then n - 48
           else if (97 <=? n) && (n <=? 122) then n - 87
           else if (65 <=? n) && (n <=? 90) then n - 55
           else radix in
  if v <? radix then Some v else None.

(** The longest prefix of digits; [None] while no digit was read. *)
Fixpoint parseDigits (radix : Z) (acc : option Z) (s : string) : option Z :=
  match s with
  | EmptyString => acc
  | String c s' =>
      match digitValue radix c with
      | Some d =>
          parseDigits radix
            (Some (radix * (match acc with Some a => a | None => 0 end) + d)) s'
      | None => acc
      end
  end.

(** [parseInt(s)] without a radix argument; [None] is [NaN]. *)
Definition parseInt (s : string) : option Z :=
  let s1 := trimStart s in
  let '(sign, s2) :=
    match s1 with
    | String c r =>
        if Ascii.eqb c "-" then (-1, r)
        else if Ascii.eqb c "+" then (1, r) else (1, s1)
    | EmptyString => (1, s1)
    end in
  let '(radix, s3) :=
    match s2 with
    | String c0 (String c1 r) =>
        if Ascii.eqb c0 "0" && (Ascii.eqb c1 "x" || Ascii.eqb c1 "X")
        then (16, r) else (10, s2)
    | _ => (10, s2)
    end in
  match parseDigits radix None s3 with
  | Some v => Some (sign * v)
  | None => None
  end.

(** [x || 0] on a number that may be [NaN]. *)
Definition orZero (x : option Z) : Z :=
  match x with Some v => v | None => 0 end.

Definition digitChar (d : Z) : ascii := ascii_of_N (Z.to_N (48 + d)).

Fixpoint digitsOf (fuel : nat) (n : Z) (acc : string) : string :=
  match fuel with
  | O => acc
  | S f =>
      let acc' := String (digitChar (n mod 10)) acc in
      if n <? 10 then acc' else digitsOf f (n / 10) acc'
  end.

(** [n.toString()] for an integer. *)
Definition toString (n : Z) : string :=
  if n <? 0 then String "-" (digitsOf (S (Z.to_nat (Z.log2 (- n)))) (- n) "")
  else digitsOf (S (Z.to_nat (Z.log2 n))) n "".

Definition isDigit (c : ascii) : bool :=
  (48 <=? code c) && (code c <=? 57).

Fixpoint allDigits (s : string) : bool :=
  match s with
  | EmptyString => true
  | String c s' => isDigit c && allDigits s'
  end.

(** Integers a double holds exactly. *)
Definition MAX_SAFE_INTEGER : Z := 2 ^ 53 - 1.

End JsNumber.

(** ** PortAllocator: [findAvailablePort] and [isPortAvailable] *)

Module PortAllocator.
Local Open Scope Z_scope.

Definition BASE_PORT : Z := 3456.
Definition MAX_PORT_RANGE : Z := 100.

(** What a [net.Server] answers to [listen(port, '127.0.0.1')]. *)
Inductive ListenEvent :=
| listening
| error (code : string).

(** Socket operations of the process, in order. *)
Inductive NetOp :=
| Listen (port : Z) (host : string)
| Close (port : Z).

(** How [findAvailablePort] settles: the port it resolves with, the
    [Error] it throws, with the two ends its message prints, or the
    [RangeError] (ERR_SOCKET_BAD_PORT) of [server.listen], with the
    port [listen] was given. *)
Inductive PortResult :=
| Port (port : Z)
| NoAvailablePorts (rangeStart rangeEnd : Z)
| BadPort (port : Z).

(** The port numbers [server.listen] accepts. *)
Definition isPort (port : Z) : bool := (0 <=? port) && (port <=? 65535).

Section Probing.
(** The network: the event the throw-away server receives for a port. *)
Variable net : Z -> ListenEvent.

(** [None]: [server.listen] threw inside the executor of the promise,
    before any socket was opened, and the promise is rejected. *)
Definition isPortAvailable (port : Z) : option bool * list NetOp :=
  if isPort port then
    match net port with
    | error code =>
        if String.eqb code "EADDRINUSE"
        then (Some false, [Listen port "127.0.0.1"])
        else (Some false, [Listen port "127.0.0.1"])
    | listening => (Some true, [Listen port "127.0.0.1"; Close port])
    end
  else (None, []).

(** The [for] loop from [port]; [fuel] bounds the iterations. *)
Fixpoint probeFrom (fuel : nat) (startPort port : Z)
  : PortResult * list NetOp :=
  match fuel with
  | O => (NoAvailablePorts startPort (startPort + MAX_PORT_RANGE), [])
  | S fuel' =>
      if port <? startPort + MAX_PORT_RANGE then
        let '(ok, ops) := isPortAvailable port in
        match ok with
        | Some true => (Port port, ops)
        | Some false =>
            let '(r, ops') := probeFrom fuel' startPort (port + 1) in
            (r, (ops ++ ops')%list)
        | None => (BadPort port, ops)
        end
      else (NoAvailablePorts startPort (startPort + MAX_PORT_RANGE), [])
  end.

Definition findAvailablePort (startPort : Z) : PortResult * list NetOp :=
  probeFrom (S (Z.to_nat MAX_PORT_RANGE)) startPort startPort.

End Probing.

(** [n] failed probes in a row, from [port] upwards. *)
Definition probes (port : Z) (n : nat) : list NetOp :=
  map (fun i => Listen (port + Z.of_nat i) "127.0.0.1") (seq 0 n).

(** A host on which every port is taken. *)
Definition allTaken : Z -> ListenEvent := fun _ => error "EADDRINUSE".

End PortAllocator.

(** ** SessionRegistry: utils/sessionManager, second half, and the stop
    paths of cli.ts and server.ts *)

Module SessionRegistry.
Import JsString JsNumber.
Local Open Scope Z_scope.

Record SessionConfig := {
  modelPreference : string;
  provider : option string;
  model : option string;
  sessionId : string;
  port : Z;
  pidFile : string;
  referenceCountFile : string
}.

(** A [session.json] as [JSON.parse] sees it. *)
Inductive SavedFile :=
| corrupt
| descriptor (saved : SessionConfig).

(** How a process reacts to signals sent by this user. *)
Inductive Proc := ours | stubborn | foreign.

(** The host: text files by path, the paths on which reading, writing
    and unlinking fail, whether the directory [SESSIONS_DIR] has been
    made, the session directories in it in [readdirSync] order with
    their [session.json], and the process table. *)
Record World := {
  files : gmap string string;
  faulty : gset string;
  sessionsDir : bool;
  sessionDirs : list string;
  descriptors : gmap string SavedFile;
  procs : gmap Z Proc
}.

Definition withFiles (f : gmap string string) (w : World) : World :=
  {| files := f; faulty := faulty w; sessionsDir := sessionsDir w;
     sessionDirs := sessionDirs w; descriptors := descriptors w;
     procs := procs w |}.

Definition withProcs (p : gmap Z Proc) (w : World) : World :=
  {| files := files w; faulty := faulty w; sessionsDir := sessionsDir w;
     sessionDirs := sessionDirs w; descriptors := descriptors w;
     procs := p |}.

Definition withSessionsDir (b : bool) (w : World) : World :=
  {| files := files w; faulty := faulty w; sessionsDir := b;
     sessionDirs := sessionDirs w; descriptors := descriptors w;
     procs := procs w |}.

(** *** [fs]: [None] is a thrown exception *)

Definition existsSync (path : string) (w : World) : bool :=
  match files w !! path with Some _ => true | None => false end.

Definition readFileSync (path : string) (w : World) : option string :=
  if decide (path ∈ faulty w) then None else files w !! path.

Definition writeFileSync (path text : string) (w : World) : option World :=
  if decide (path ∈ faulty w) then None
  else Some (withFiles (<[path := text]> (files w)) w).

Definition unlinkSync (path : string) (w : World) : option World :=
  if decide (path ∈ faulty w) then None
  else match files w !! path with
       | Some _ => Some (withFiles (delete path (files w)) w)
       | None => None
       end.

Definition join (a b : string) : string := a +:+ "/" +:+ b.

(** *** The platform: what the sources import and do not define *)

Inductive Outcome (A : Type) :=
| returned (a : A)
| thrown.
Arguments returned {A} a.
Arguments thrown {A}.

Inductive Signal := SIGTERM | SIGKILL | signal0.

Inductive KillError := ESRCH | EPERM | otherError.

(** [HOME_DIR] of constants.ts, [isProcessRunning] of
    utils/processCheck (its argument is [None] for [NaN]),
    [process.kill], and the host after a [setTimeout] delay. *)
Class Platform := {
  HOME_DIR : string;
  isProcessRunning : option Z -> World -> Outcome bool;
  processKill : Z -> Signal -> World -> KillError + World;
  afterDelay : Z -> World -> World
}.

(** Signals and the passing of time leave the file system alone. *)
Definition keepsFiles (P : Platform) : Prop :=
  (forall pid sig w w', processKill pid sig w = inr w' -> files w' = files w
     /\ faulty w' = faulty w) /\
  (forall ms w, files (afterDelay ms w) = files w
     /\ faulty (afterDelay ms w) = faulty w).

Section Operations.
Context {P : Platform}.

Definition SESSIONS_DIR : string := join HOME_DIR "sessions".

(** [existsSync(SESSIONS_DIR)]: the directory has been made, or it
    lists something. *)
Definition sessionsDirExists (w : World) : bool :=
  sessionsDir w || match sessionDirs w with [] => false | _ => true end.

Definition ensureSessionsDir (w : World) : World :=
  if negb (sessionsDirExists w) then withSessionsDir true w else w.

Definition cleanupSessionPid (sessionConfig : SessionConfig) (w : World)
  : World :=
  if existsSync (pidFile sessionConfig) w then
    match unlinkSync (pidFile sessionConfig) w with
    | Some w' => w'
    | None => w
    end
  else w.

Definition isSessionRunning (sessionConfig : SessionConfig) (w : World)
  : bool * World :=
  if negb (existsSync (pidFile sessionConfig) w) then (false, w)
  else
    match readFileSync (pidFile sessionConfig) w with
    | Some text =>
        match isProcessRunning (parseInt text) w with
        | returned alive => (alive, w)
        | thrown => (false, cleanupSessionPid sessionConfig w)
        end
    | None => (false, cleanupSessionPid sessionConfig w)
    end.

Definition saveSessionPid (sessionConfig : SessionConfig) (pid : Z)
  (w : World) : option World :=
  writeFileSync (pidFile sessionConfig) (toString pid) w.

(** [null] is [None]. *)
Definition getSessionPid (sessionConfig : SessionConfig) (w : World)
  : option Z :=
  if negb (existsSync (pidFile sessionConfig) w) then None
  else
    match readFileSync (pidFile sessionConfig) w with
    | Some text => parseInt text
    | None => None
    end.

(** The shared prefix of the three reference-count functions: the
    count in the file, 0 without one; [None] when reading throws. *)
Definition storedCount (sessionConfig : SessionConfig) (w : World)
  : option Z :=
  if existsSync (referenceCountFile sessionConfig) w then
    match readFileSync (referenceCountFile sessionConfig) w with
    | Some text => Some (orZero (parseInt text))
    | None => None
    end
  else Some 0.

Definition incrementSessionReferenceCount (sessionConfig : SessionConfig)
  (w : World) : option World :=
  match storedCount sessionConfig w with
  | Some count =>
      writeFileSync (referenceCountFile sessionConfig)
        (toString (count + 1)) w
  | None => None
  end.

Definition decrementSessionReferenceCount (sessionConfig : SessionConfig)
  (w : World) : option World :=
  match storedCount sessionConfig w with
  | Some count =>
      writeFileSync (referenceCountFile sessionConfig)
        (toString (Z.max 0 (count - 1))) w
  | None => None
  end.

Definition getSessionReferenceCount (sessionConfig : SessionConfig)
  (w : World) : option Z :=
  storedCount sessionConfig w.

(** The loop body of [getAllActiveSessions] for one directory. *)
Definition activeIn (dir : string) (w : World)
  : option SessionConfig * World :=
  let sessionDir := join SESSIONS_DIR dir in
  match descriptors w !! dir with
  | Some (descriptor saved) =>
      let sessionConfig :=
        {| modelPreference := modelPreference saved;
           provider := provider saved;
           model := model saved;
           sessionId := sessionId saved;
           port := port saved;
           pidFile := join sessionDir "router.pid";
           referenceCountFile := join sessionDir "reference-count.txt" |} in
      let '(alive, w') := isSessionRunning sessionConfig w in
      (if alive then Some sessionConfig else None, w')
  | Some corrupt => (None, w)
  | None => (None, w)
  end.

Fixpoint activeAmong (dirs : list string) (w : World)
  : list SessionConfig * World :=
  match dirs with
  | [] => ([], w)
  | dir :: rest =>
      let '(found, w1) := activeIn dir w in
      let '(more, w2) := activeAmong rest w1 in
      (match found with Some c => c :: more | None => more end, w2)
  end.

Definition getAllActiveSessions (w : World) : list SessionConfig * World :=
  let w0 := ensureSessionsDir w in
  if negb (sessionsDirExists w0) then ([], w0)
  else activeAmong (sessionDirs w0) w0.

(** The block both stop paths run after the pid file is gone:
    unlink the reference-count file when it exists, ignoring errors. *)
Definition unlinkReferenceCount (sessionConfig : SessionConfig) (w : World)
  : World :=
  if existsSync (referenceCountFile sessionConfig) w then
    match unlinkSync (referenceCountFile sessionConfig) w with
    | Some w' => w'
    | None => w
    end
  else w.

(** [if (pid)]: neither [null] nor 0. *)
Definition livePid (pid : option Z) : option Z :=
  match pid with
  | Some p => if p =? 0 then None else Some p
  | None => None
  end.

(** *** cli.ts, [case "stop"] with a session: what it prints *)

Inductive StopReport :=
| successfullyStopped
| isNotRunning
| failedMayHaveStopped.

Definition stopCommand (sessionConfig : SessionConfig) (w : World)
  : StopReport * World :=
  match livePid (getSessionPid sessionConfig w) with
  | Some pid =>
      match processKill pid SIGTERM w with
      | inr w1 =>
          let w2 := cleanupSessionPid sessionConfig w1 in
          (successfullyStopped, unlinkReferenceCount sessionConfig w2)
      | inl _ =>
          (failedMayHaveStopped, cleanupSessionPid sessionConfig w)
      end
  | None => (isNotRunning, w)
  end.

(** *** server.ts, [POST /api/sessions/:sessionId/stop] *)

Inductive StopMessage :=
| stoppedSuccessfully
| wasAlreadyStopped
| noPidFound.

Inductive Reply :=
| ok (success : bool) (message : StopMessage)
| status (httpCode : Z).

Definition escalate (pid : Z) (w : World) : World :=
  match processKill pid signal0 w with
  | inr w1 =>
      match processKill pid SIGKILL w1 with
      | inr w2 => w2
      | inl _ => w1
      end
  | inl _ => w
  end.

Definition stopSession (requested : string) (w : World) : Reply * World :=
  let '(sessions, w0) := getAllActiveSessions w in
  match List.find (fun s => String.eqb (sessionId s) requested) sessions with
  | None => (status 404, w0)
  | Some session =>
      match livePid (getSessionPid session w0) with
      | Some pid =>
          match processKill pid SIGTERM w0 with
          | inr w1 =>
              let w2 := escalate pid (afterDelay 500 w1) in
              let w3 := cleanupSessionPid session w2 in
              (ok true stoppedSuccessfully, unlinkReferenceCount session w3)
          | inl EPERM => (status 403, w0)
          | inl ESRCH =>
              (ok true wasAlreadyStopped, cleanupSessionPid session w0)
          | inl otherError => (status 500, w0)
          end
      | None => (ok false noPidFound, w0)
      end
  end.

End Operations.

(** *** A host to run the operations on *)

Definition posixKill (pid : Z) (sig : Signal) (w : World) : KillError + World :=
  match procs w !! pid with
  | None => inl ESRCH
  | Some foreign => inl EPERM
  | Some kind =>
      match sig, kind with
      | signal0, _ => inr w
      | SIGTERM, stubborn => inr w
      | _, _ => inr (withProcs (delete pid (procs w)) w)
      end
  end.

(** Modelled from the spec: [isProcessRunning] of utils/processCheck is
    not among the sources; the registry "asks the OS whether that PID
    exists", any live process with that PID counting as alive. *)
Definition pidExists (pid : option Z) (w : World) : Outcome bool :=
  match pid with
  | Some p =>
      returned (match procs w !! p with Some _ => true | None => false end)
  | None => returned false
  end.

Definition posix : Platform :=
  {| HOME_DIR := "/home/user/.claude-code-router";
     isProcessRunning := pidExists;
     processKill := posixKill;
     afterDelay := fun _ w => w |}.

(** A session, and hosts to try the operations on: one where its worker
    runs as process 4242, one holding a reference count of 3, and one
    left behind by a worker that died with pid file and reference-count
    file in place. *)
Definition sampleConfig : SessionConfig :=
  {| modelPreference := "openrouter,gpt-4";
     provider := Some "openrouter";
     model := Some "gpt-4";
     sessionId := "fc92274d";
     port := 3456;
     pidFile := "/home/user/.claude-code-router/sessions/fc92274d/router.pid";
     referenceCountFile :=
       "/home/user/.claude-code-router/sessions/fc92274d/reference-count.txt" |}.

Definition runningHost : World :=
  {| files := ∅; faulty := ∅;
     sessionsDir := true; sessionDirs := ["fc92274d"];
     descriptors := {[ "fc92274d" := descriptor sampleConfig ]};
     procs := {[ 4242 := ours ]} |}.

Definition countedHost : World :=
  withFiles {[ referenceCountFile sampleConfig := "3" ]} runningHost.

Definition staleHost : World :=
  {| files := {[ pidFile sampleConfig := "4242";
                 referenceCountFile sampleConfig := "1" ]};
     faulty := ∅; sessionsDir := true; sessionDirs := ["fc92274d"];
     descriptors := {[ "fc92274d" := descriptor sampleConfig ]};
     procs := ∅ |}.

(** [n] calls of a fallible operation in a row. *)
Fixpoint times (n : nat) (op : World -> option World) (w : World)
  : option World :=
  match n with
  | O => Some w
  | S n' => match op w with Some w' => times n' op w' | None => None end
  end.

End SessionRegistry.

(** ** Monitoring: the [MonitoringService] class *)

Module Status.
Inductive t := pending | success | error.

Definition eqb (a b : t) : bool :=
  match a, b with
  | pending, pending | success, success | error, error => true
  | _, _ => false
  end.
End Status.

Module RequestLog.
Record t := {
  id : string;
  timestamp : Z;
  sessionId : string;
  method : string;
  path : string;
  provider : option string;
  model : option string;
  inputTokens : option Z;
  outputTokens : option Z;
  duration : option Z;
  status : Status.t;
  error : option string;
  metadata : string * option string
}.
End RequestLog.

Module SessionMetrics.
Record t := {
  sessionId : string;
  startTime : Z;
  requestCount : Z;
  totalInputTokens : Z;
  totalOutputTokens : Z;
  averageResponseTime : Q;
  errors : Z;
  providers : gmap string Z;
  models : gmap string Z
}.
End SessionMetrics.

Module Monitoring.
Import JsString JsNumber.
Local Open Scope Z_scope.

(** *** [Map]: keys in insertion order; [set] on a present key keeps
    its place *)

Section JsMap.
Context {V : Type}.

Fixpoint mapGet (k : string) (m : list (string * V)) : option V :=
  match m with
  | [] => None
  | (k', v) :: m' => if String.eqb k' k then Some v else mapGet k m'
  end.

Fixpoint mapSet (k : string) (v : V) (m : list (string * V))
  : list (string * V) :=
  match m with
  | [] => [(k, v)]
  | (k', v') :: m' =>
      if String.eqb k' k then (k, v) :: m' else (k', v') :: mapSet k v m'
  end.

Fixpoint mapDelete (k : string) (m : list (string * V))
  : list (string * V) :=
  match m with
  | [] => []
  | (k', v') :: m' =>
      if String.eqb k' k then m' else (k', v') :: mapDelete k m'
  end.

Definition mapValues (m : list (string * V)) : list V := map snd m.
End JsMap.

(** *** [Array.prototype.sort] with a comparator: a stable sort *)

Section Sort.
Context {A : Type} (cmp : A -> A -> Z).

Fixpoint insertBy (x : A) (l : list A) : list A :=
  match l with
  | [] => [x]
  | y :: l' => if cmp x y <=? 0 then x :: l else y :: insertBy x l'
  end.

Definition sortBy (l : list A) : list A := fold_right insertBy [] l.
End Sort.

(** *** Requests, responses and partial updates *)

Record Request := {
  req_sessionId : option string;
  req_method : string;
  req_url : string;
  req_headers : string;
  req_bodyModel : option string
}.

(** [response.body]: the model string and the usage object. *)
Record ResponseBody := {
  body_model : option string;
  usage : option (option Z * option Z)
}.

(** [Partial<RequestLog>]: [None] is an absent key; an optional field
    that is present may still hold [undefined]. *)
Record Updates := {
  u_id : option string;
  u_timestamp : option Z;
  u_sessionId : option string;
  u_method : option string;
  u_path : option string;
  u_provider : option (option string);
  u_model : option (option string);
  u_inputTokens : option (option Z);
  u_outputTokens : option (option Z);
  u_duration : option (option Z);
  u_status : option Status.t;
  u_error : option (option string)
}.

Definition noUpdates : Updates :=
  {| u_id := None; u_timestamp := None; u_sessionId := None;
     u_method := None; u_path := None; u_provider := None; u_model := None;
     u_inputTokens := None; u_outputTokens := None; u_duration := None;
     u_status := None; u_error := None |}.

Definition pick {A : Type} (u : option A) (old : A) : A :=
  match u with Some v => v | None => old end.

(** [Object.assign(request, updates)]. *)
Definition assign (request : RequestLog.t) (updates : Updates)
  : RequestLog.t :=
  {| RequestLog.id := pick (u_id updates) (RequestLog.id request);
     RequestLog.timestamp :=
       pick (u_timestamp updates) (RequestLog.timestamp request);
     RequestLog.sessionId :=
       pick (u_sessionId updates) (RequestLog.sessionId request);
     RequestLog.method := pick (u_method updates) (RequestLog.method request);
     RequestLog.path := pick (u_path updates) (RequestLog.path request);
     RequestLog.provider :=
       pick (u_provider updates) (RequestLog.provider request);
     RequestLog.model := pick (u_model updates) (RequestLog.model request);
     RequestLog.inputTokens :=
       pick (u_inputTokens updates) (RequestLog.inputTokens request);
     RequestLog.outputTokens :=
       pick (u_outputTokens updates) (RequestLog.outputTokens request);
     RequestLog.duration :=
       pick (u_duration updates) (RequestLog.duration request);
     RequestLog.status := pick (u_status updates) (RequestLog.status request);
     RequestLog.error := pick (u_error updates) (RequestLog.error request);
     RequestLog.metadata := RequestLog.metadata request |}.

(** Truthiness of an optional string and of an optional number. *)
Definition someText (s : option string) : option string :=
  match s with
  | Some t => if truthy t then Some t else None
  | None => None
  end.

Definition someNumber (n : option Z) : option Z :=
  match n with
  | Some v => if v =? 0 then None else Some v
  | None => None
  end.

(** *** Events, frames and listeners *)

Inductive EventName :=
| request_start | request_update | request_end
| metrics_update | logs_cleared | metrics_reset.

Definition eventEqb (a b : EventName) : bool :=
  match a, b with
  | request_start, request_start | request_update, request_update
  | request_end, request_end | metrics_update, metrics_update
  | logs_cleared, logs_cleared | metrics_reset, metrics_reset => true
  | _, _ => false
  end.

Inductive Payload :=
| aLog (r : RequestLog.t)
| noLog
| aMetrics (m : SessionMetrics.t)
| aSession (sessionId : option string).

Inductive MetricsData :=
| one (m : SessionMetrics.t)
| all (ms : list SessionMetrics.t).

(** What [ws.send] is given, before [JSON.stringify]. *)
Inductive Frame :=
| initial (data : list RequestLog.t)
| log (data : RequestLog.t)
| metrics (data : MetricsData).

Inductive Handler := sendLog | sendMetrics.

(** A closure of [streamLogs]: the call that created it, which of the
    two functions it is, and what it captured. *)
Record Listener := {
  call : nat;
  handler : Handler;
  socket : nat;
  filter : option string
}.

Definition handlerEqb (a b : Handler) : bool :=
  match a, b with
  | sendLog, sendLog | sendMetrics, sendMetrics => true
  | _, _ => false
  end.

(** The arrow function given to [ws.on('close', ...)]: the socket it
    is registered on and the two closures it captured. *)
Record CloseHandler := {
  closing : nat;
  logger : Listener;
  meter : Listener
}.

(** Identity of function objects. *)
Definition sameFunction (a b : Listener) : bool :=
  Nat.eqb (call a) (call b) && handlerEqb (handler a) (handler b).

(** The service, and next to it what it has done to the outside:
    lines appended to the per-day files, the metrics file, the events
    emitted and the frames sent to each socket. *)
Record Service := {
  requests : list (string * RequestLog.t);
  sessionMetrics : list (string * SessionMetrics.t);
  listeners : list (EventName * Listener);
  closeHandlers : list CloseHandler;
  calls : nat;
  diskFull : bool;
  appended : list (string * RequestLog.t);
  metricsFile : option (list SessionMetrics.t * Z);
  emitted : list (EventName * Payload);
  sent : list (nat * Frame)
}.

Definition maxLogsInMemory : Z := 1000.

Definition emptyService : Service :=
  {| requests := []; sessionMetrics := []; listeners := [];
     closeHandlers := []; calls := 0%nat; diskFull := false;
     appended := []; metricsFile := None; emitted := []; sent := [] |}.

Definition withRequests (r : list (string * RequestLog.t)) (s : Service) :=
  {| requests := r; sessionMetrics := sessionMetrics s;
     listeners := listeners s; closeHandlers := closeHandlers s;
     calls := calls s; diskFull := diskFull s; appended := appended s;
     metricsFile := metricsFile s; emitted := emitted s; sent := sent s |}.

Definition withMetrics (m : list (string * SessionMetrics.t)) (s : Service) :=
  {| requests := requests s; sessionMetrics := m;
     listeners := listeners s; closeHandlers := closeHandlers s;
     calls := calls s; diskFull := diskFull s; appended := appended s;
     metricsFile := metricsFile s; emitted := emitted s; sent := sent s |}.

Definition withListeners (l : list (EventName * Listener)) (s : Service) :=
  {| requests := requests s; sessionMetrics := sessionMetrics s;
     listeners := l; closeHandlers := closeHandlers s;
     calls := calls s; diskFull := diskFull s; appended := appended s;
     metricsFile := metricsFile s; emitted := emitted s; sent := sent s |}.

Definition wsSend (ws : nat) (f : Frame) (s : Service) : Service :=
  {| requests := requests s; sessionMetrics := sessionMetrics s;
     listeners := listeners s; closeHandlers := closeHandlers s;
     calls := calls s; diskFull := diskFull s; appended := appended s;
     metricsFile := metricsFile s; emitted := emitted s;
     sent := (sent s ++ [(ws, f)])%list |}.

(** [!sessionId || x === sessionId]. *)
Definition passes (sessionFilter : option string) (x : string) : bool :=
  match someText sessionFilter with
  | Some wanted => String.eqb x wanted
  | None => true
  end.

Definition invoke (l : Listener) (p : Payload) (s : Service) : Service :=
  match handler l, p with
  | sendLog, aLog r =>
      if passes (filter l) (RequestLog.sessionId r)
      then wsSend (socket l) (log r) s else s
  | sendMetrics, aMetrics m =>
      if passes (filter l) (SessionMetrics.sessionId m)
      then wsSend (socket l) (metrics (one m)) s else s
  | _, _ => s
  end.

(** [emit]: every listener registered for the event, in registration
    order. *)
Definition emit (ev : EventName) (p : Payload) (s : Service) : Service :=
  let s1 :=
    {| requests := requests s; sessionMetrics := sessionMetrics s;
       listeners := listeners s; closeHandlers := closeHandlers s;
       calls := calls s; diskFull := diskFull s; appended := appended s;
       metricsFile := metricsFile s;
       emitted := (emitted s ++ [(ev, p)])%list; sent := sent s |} in
  fold_left
    (fun acc '(ev', l) => if eventEqb ev' ev then invoke l p acc else acc)
    (listeners s) s1.

Definition on (ev : EventName) (l : Listener) (s : Service) : Service :=
  withListeners (listeners s ++ [(ev, l)])%list s.

(** [removeListener] drops the most recently added registration of the
    function for the event: the last one in registration order. *)
Definition registers (ev : EventName) (l : Listener)
  (e : EventName * Listener) : bool :=
  eventEqb (fst e) ev && sameFunction (snd e) l.

Fixpoint removeLast (ev : EventName) (l : Listener)
  (ls : list (EventName * Listener)) : list (EventName * Listener) :=
  match ls with
  | [] => []
  | e :: rest =>
      if existsb (registers ev l) rest then e :: removeLast ev l rest
      else if registers ev l e then rest else e :: rest
  end.

Definition removeListener (ev : EventName) (l : Listener) (s : Service)
  : Service :=
  withListeners (removeLast ev l (listeners s)) s.

(** *** Persistence *)

(** The calendar date of a clock reading in the local time zone, as
    [persistRequestLog] formats it. *)
Class Calendar := dateStr : Z -> string.

Section Service.
Context {cal : Calendar}.

Definition persistMetrics (now : Z) (s : Service) : Service :=
  if diskFull s then s
  else
    {| requests := requests s; sessionMetrics := sessionMetrics s;
       listeners := listeners s; closeHandlers := closeHandlers s;
       calls := calls s; diskFull := diskFull s; appended := appended s;
       metricsFile := Some (mapValues (sessionMetrics s), now);
       emitted := emitted s; sent := sent s |}.

Definition persistRequestLog (request : RequestLog.t) (now : Z)
  (s : Service) : Service :=
  if diskFull s then s
  else
    {| requests := requests s; sessionMetrics := sessionMetrics s;
       listeners := listeners s; closeHandlers := closeHandlers s;
       calls := calls s; diskFull := diskFull s;
       appended :=
         (appended s ++ [(dateStr now +:+ ".jsonl", request)])%list;
       metricsFile := metricsFile s;
       emitted := emitted s; sent := sent s |}.

Definition byTimestamp (a b : string * RequestLog.t) : Z :=
  RequestLog.timestamp (snd a) - RequestLog.timestamp (snd b).

Definition archiveOldLogs (now : Z) (s : Service) : Service :=
  let oldestRequests := firstn 100 (sortBy byTimestamp (requests s)) in
  fold_left
    (fun acc '(id, request) =>
       let acc' := persistRequestLog request now acc in
       withRequests (mapDelete id (requests acc')) acc')
    oldestRequests s.

Definition generateRequestId (now : Z) (random : string) : string :=
  "req_" +:+ toString now +:+ "_" +:+ random.

(** *** The public operations *)

(** The [requestLog] object [startRequest] builds. *)
Definition newRequestLog (req : Request) (requestId : string) (now : Z)
  : RequestLog.t :=
  let sessionId :=
    match someText (req_sessionId req) with
    | Some sid => sid
    | None => "default"
    end in
  {| RequestLog.id := requestId;
     RequestLog.timestamp := now;
     RequestLog.sessionId := sessionId;
     RequestLog.method := req_method req;
     RequestLog.path := req_url req;
     RequestLog.provider := None;
     RequestLog.model := None;
     RequestLog.inputTokens := None;
     RequestLog.outputTokens := None;
     RequestLog.duration := None;
     RequestLog.status := Status.pending;
     RequestLog.error := None;
     RequestLog.metadata := (req_headers req, req_bodyModel req) |}.

Definition startRequest (req : Request) (random : string) (now : Z)
  (s : Service) : string * Service :=
  let requestId := generateRequestId now random in
  let requestLog := newRequestLog req requestId now in
  let s1 := withRequests (mapSet requestId requestLog (requests s)) s in
  let s2 := emit request_start (aLog requestLog) s1 in
  let s3 :=
    if Z.of_nat (length (requests s2)) >? maxLogsInMemory
    then archiveOldLogs now s2 else s2 in
  (requestId, s3).

Definition freshMetrics (sessionId : string) (now : Z) : SessionMetrics.t :=
  {| SessionMetrics.sessionId := sessionId;
     SessionMetrics.startTime := now;
     SessionMetrics.requestCount := 0;
     SessionMetrics.totalInputTokens := 0;
     SessionMetrics.totalOutputTokens := 0;
     SessionMetrics.averageResponseTime := 0%Q;
     SessionMetrics.errors := 0;
     SessionMetrics.providers := ∅;
     SessionMetrics.models := ∅ |}.

Definition bump (key : option string) (m : gmap string Z) : gmap string Z :=
  match someText key with
  | Some k => <[k := default 0 (m !! k) + 1]> m
  | None => m
  end.

(** The in-place mutations of [updateSessionMetrics] on the metrics
    object of the request's session. *)
Definition account (request : RequestLog.t) (m : SessionMetrics.t)
  : SessionMetrics.t :=
  let requestCount := SessionMetrics.requestCount m + 1 in
  {| SessionMetrics.sessionId := SessionMetrics.sessionId m;
     SessionMetrics.startTime := SessionMetrics.startTime m;
     SessionMetrics.requestCount := requestCount;
     SessionMetrics.totalInputTokens :=
       match someNumber (RequestLog.inputTokens request) with
       | Some n => SessionMetrics.totalInputTokens m + n
       | None => SessionMetrics.totalInputTokens m
       end;
     SessionMetrics.totalOutputTokens :=
       match someNumber (RequestLog.outputTokens request) with
       | Some n => SessionMetrics.totalOutputTokens m + n
       | None => SessionMetrics.totalOutputTokens m
       end;
     SessionMetrics.averageResponseTime :=
       match someNumber (RequestLog.duration request) with
       | Some d =>
           if Status.eqb (RequestLog.status request) Status.success then
             let totalTime :=
               (SessionMetrics.averageResponseTime m
                  * inject_Z (requestCount - 1) + inject_Z d)%Q in
             (totalTime / inject_Z requestCount)%Q
           else SessionMetrics.averageResponseTime m
       | None => SessionMetrics.averageResponseTime m
       end;
     SessionMetrics.errors :=
       if Status.eqb (RequestLog.status request) Status.error
       then SessionMetrics.errors m + 1 else SessionMetrics.errors m;
     SessionMetrics.providers :=
       bump (RequestLog.provider request) (SessionMetrics.providers m);
     SessionMetrics.models :=
       bump (RequestLog.model request) (SessionMetrics.models m) |}.

Definition updateSessionMetrics (request : RequestLog.t) (now : Z)
  (s : Service) : Service :=
  let sid := RequestLog.sessionId request in
  let m0 :=
    match mapGet sid (sessionMetrics s) with
    | Some m => m
    | None => freshMetrics sid now
    end in
  let m1 := account request m0 in
  let s1 := withMetrics (mapSet sid m1 (sessionMetrics s)) s in
  emit metrics_update (aMetrics m1) (persistMetrics now s1).

Definition terminal (st : option Status.t) : bool :=
  match st with
  | Some Status.success | Some Status.error => true
  | _ => false
  end.

Definition updateRequest (requestId : string) (updates : Updates)
  (now : Z) (s : Service) : Service :=
  match mapGet requestId (requests s) with
  | Some request =>
      let request' := assign request updates in
      let s1 := withRequests (mapSet requestId request' (requests s)) s in
      let s2 :=
        if truthy (RequestLog.sessionId request')
        then updateSessionMetrics request' now s1 else s1 in
      let s3 := emit request_update (aLog request') s2 in
      if terminal (u_status updates)
      then persistRequestLog request' now s3 else s3
  | None => s
  end.

(** The [error] argument: [None] when falsy, else its [message]. *)
Definition endUpdates (request : RequestLog.t)
  (response : option ResponseBody) (error : option (option string))
  (now : Z) : Updates :=
  let base :=
    {| u_id := None; u_timestamp := None; u_sessionId := None;
       u_method := None; u_path := None;
       u_provider := None; u_model := None;
       u_inputTokens := None; u_outputTokens := None;
       u_duration := Some (Some (now - RequestLog.timestamp request));
       u_status :=
         Some (match error with
               | Some _ => Status.error
               | None => Status.success
               end);
       u_error :=
         Some (match error with Some message => message | None => None end)
    |} in
  let named :=
    match someText (match response with
                    | Some body => body_model body
                    | None => None
                    end) with
    | Some text =>
        match split ","%char text with
        | [p0; p1] =>
            (Some (Some p0), Some (Some p1))
        | _ => (None, Some (Some text))
        end
    | None => (None, None)
    end in
  let tokens :=
    match response with
    | Some body =>
        match usage body with
        | Some (i, o) => (Some i, Some o)
        | None => (None, None)
        end
    | None => (None, None)
    end in
  {| u_id := u_id base; u_timestamp := u_timestamp base;
     u_sessionId := u_sessionId base; u_method := u_method base;
     u_path := u_path base;
     u_provider := fst named; u_model := snd named;
     u_inputTokens := fst tokens; u_outputTokens := snd tokens;
     u_duration := u_duration base; u_status := u_status base;
     u_error := u_error base |}.

Definition endRequest (requestId : string)
  (response : option ResponseBody) (error : option (option string))
  (now : Z) (s : Service) : Service :=
  match mapGet requestId (requests s) with
  | Some request =>
      let updates := endUpdates request response error now in
      let s1 := updateRequest requestId updates now s in
      emit request_end
        (match mapGet requestId (requests s1) with
         | Some r => aLog r
         | None => noLog
         end) s1
  | None => s
  end.

Definition byNewest (a b : RequestLog.t) : Z :=
  RequestLog.timestamp b - RequestLog.timestamp a.

Definition getRecentRequests (sessionId : option string) (limit : nat)
  (s : Service) : list RequestLog.t :=
  firstn limit
    (sortBy byNewest
       (List.filter (fun r => passes sessionId (RequestLog.sessionId r))
          (mapValues (requests s)))).

Definition getSessionMetrics (sessionId : string) (s : Service)
  : option SessionMetrics.t :=
  mapGet sessionId (sessionMetrics s).

Definition getAllSessionMetrics (s : Service) : list SessionMetrics.t :=
  mapValues (sessionMetrics s).

(** The two closures a call of [streamLogs] creates. *)
Definition logSender (c ws : nat) (sessionId : option string) : Listener :=
  {| call := c; handler := sendLog; socket := ws; filter := sessionId |}.

Definition metricsSender (c ws : nat) (sessionId : option string) : Listener :=
  {| call := c; handler := sendMetrics; socket := ws; filter := sessionId |}.

Definition streamLogs (ws : nat) (sessionId : option string) (s : Service)
  : Service :=
  let c := calls s in
  let sendLog := logSender c ws sessionId in
  let sendMetrics := metricsSender c ws sessionId in
  let s1 := wsSend ws (initial (getRecentRequests sessionId 50 s)) s in
  let s2 :=
    match someText sessionId with
    | Some sid =>
        match getSessionMetrics sid s1 with
        | Some m => wsSend ws (metrics (one m)) s1
        | None => s1
        end
    | None => wsSend ws (metrics (all (getAllSessionMetrics s1))) s1
    end in
  let s3 :=
    on metrics_update sendMetrics
      (on request_end sendLog
         (on request_update sendLog (on request_start sendLog s2))) in
  {| requests := requests s3; sessionMetrics := sessionMetrics s3;
     listeners := listeners s3;
     closeHandlers :=
       (closeHandlers s3
          ++ [{| closing := ws; logger := sendLog; meter := sendMetrics |}])%list;
     calls := S c; diskFull := diskFull s3; appended := appended s3;
     metricsFile := metricsFile s3; emitted := emitted s3;
     sent := sent s3 |}.

(** The body of the handler [streamLogs] gave to
    [ws.on('close', ...)]. *)
Definition onClose (h : CloseHandler) (s : Service) : Service :=
  removeListener metrics_update (meter h)
    (removeListener request_end (logger h)
       (removeListener request_update (logger h)
          (removeListener request_start (logger h) s))).

(** The socket's [close] event: its handlers, in registration order. *)
Definition close (ws : nat) (s : Service) : Service :=
  fold_left
    (fun acc h => if Nat.eqb (closing h) ws then onClose h acc else acc)
    (closeHandlers s) s.

Definition clearLogs (sessionId : option string) (s : Service) : Service :=
  let kept :=
    match someText sessionId with
    | Some sid =>
        List.filter
          (fun '(_, r) => negb (String.eqb (RequestLog.sessionId r) sid))
          (requests s)
    | None => []
    end in
  emit logs_cleared (aSession sessionId) (withRequests kept s).

Definition resetMetrics (sessionId : option string) (now : Z) (s : Service)
  : Service :=
  let kept :=
    match someText sessionId with
    | Some sid => mapDelete sid (sessionMetrics s)
    | None => []
    end in
  emit metrics_reset (aSession sessionId)
    (persistMetrics now (withMetrics kept s)).

(** *** Runs of the service *)

Inductive Op :=
| doStart (req : Request) (random : string) (now : Z)
| doUpdate (requestId : string) (updates : Updates) (now : Z)
| doEnd (requestId : string) (response : option ResponseBody)
    (error : option (option string)) (now : Z)
| doStream (ws : nat) (sessionId : option string)
| doClose (ws : nat)
| doClear (sessionId : option string)
| doReset (sessionId : option string) (now : Z).

Definition step (s : Service) (op : Op) : Service :=
  match op with
  | doStart req random now => snd (startRequest req random now s)
  | doUpdate requestId updates now => updateRequest requestId updates now s
  | doEnd requestId response error now =>
      endRequest requestId response error now s
  | doStream ws sessionId => streamLogs ws sessionId s
  | doClose ws => close ws s
  | doClear sessionId => clearLogs sessionId s
  | doReset sessionId now => resetMetrics sessionId now s
  end.

Definition run (ops : list Op) (s : Service) : Service :=
  fold_left step ops s.

Definition framesTo (ws : nat) (s : Service) : list Frame :=
  map snd (List.filter (fun '(ws', _) => Nat.eqb ws' ws) (sent s)).

(** The registrations a call of [streamLogs] makes, in order. *)
Definition registrations (c ws : nat) (sessionId : option string)
  : list (EventName * Listener) :=
  [(request_start, logSender c ws sessionId);
   (request_update, logSender c ws sessionId);
   (request_end, logSender c ws sessionId);
   (metrics_update, metricsSender c ws sessionId)].

(** The registrations made by call [c] of [streamLogs]. *)
Definition ofCall (c : nat) (e : EventName * Listener) : bool :=
  Nat.eqb (call (snd e)) c.

(** The close handler call [c] of [streamLogs] gives to the socket. *)
Definition closer (c ws : nat) (sessionId : option string) : CloseHandler :=
  {| closing := ws; logger := logSender c ws sessionId;
     meter := metricsSender c ws sessionId |}.

(** A subscription made by call [c] for socket [ws] is in place: what
    call [c] registered is still among the listeners at most once each,
    the socket has no listeners of another call, and its close handler
    is registered. *)
Definition subscribed (c ws : nat) (sessionId : option string) (s : Service)
  : Prop :=
  List.filter (ofCall c) (listeners s)
    `sublist_of` registrations c ws sessionId /\
  (forall ev l, In (ev, l) (listeners s) -> socket l = ws -> call l = c) /\
  (c < calls s)%nat /\
  In (closer c ws sessionId) (closeHandlers s).

(** No listener sends to socket [ws]. *)
Definition unsubscribed (ws : nat) (s : Service) : Prop :=
  forall ev l, In (ev, l) (listeners s) -> socket l <> ws.

(** The listeners, the close handlers and the closure counter. *)
Definition plumbing (s : Service) :=
  (listeners s, closeHandlers s, calls s).

(** [s'] differs from [s] by frames sent to sockets of registered
    listeners, and in nothing the subscriptions consist of. *)
Definition quiet (s s' : Service) : Prop :=
  plumbing s' = plumbing s /\
  exists more,
    sent s' = (sent s ++ more)%list /\
    forall ws fr, In (ws, fr) more ->
      exists ev l, In (ev, l) (listeners s) /\ socket l = ws.

(** Everything in a service but the record of events and frames. *)
Definition inside (s : Service) :=
  (requests s, sessionMetrics s, listeners s, closeHandlers s, calls s,
   diskFull s, appended s, metricsFile s).

(** The line [persistRequestLog] appends for an entry of the map, with
    the file it goes to. *)
Definition line (now : Z) (e : string * RequestLog.t)
  : string * RequestLog.t :=
  (dateStr now +:+ ".jsonl", snd e).

(** A call of [startRequest]: the request, the random suffix drawn for
    its id and the clock reading; the id it is given, and the entry it
    adds to the request map. *)
Definition Call : Type := Request * string * Z.

Definition callTime (c : Call) : Z := snd c.

Definition callId (c : Call) : string :=
  generateRequestId (callTime c) (snd (fst c)).

Definition entryOf (c : Call) : string * RequestLog.t :=
  (callId c, newRequestLog (fst (fst c)) (callId c) (callTime c)).

Definition starts (calls : list Call) : list Op :=
  map (fun c : Call => doStart (fst (fst c)) (snd (fst c)) (snd c)) calls.

End Service.

(** *** The batch recomputation the running mean is compared with: the
    arithmetic mean of the durations of the entries of a session that
    are recorded with status success *)

Definition successDurations (sessionId : string) (entries : list RequestLog.t)
  : list Z :=
  flat_map
    (fun r =>
       if String.eqb (RequestLog.sessionId r) sessionId
          && Status.eqb (RequestLog.status r) Status.success
       then match RequestLog.duration r with Some d => [d] | None => [] end
       else [])
    entries.

Definition mean (durations : list Z) : Q :=
  (inject_Z (fold_right Z.add 0%Z durations)
     / inject_Z (Z.of_nat (length durations)))%Q.

Definition batchMean (sessionId : string) (s : Service) : Q :=
  mean (successDurations sessionId (mapValues (requests s))).

(** *** Runs to try the service on *)

(** Days since the epoch, a calendar without a time zone. *)
Definition epochDay : Calendar := fun now => toString (now / 86400000).

Definition sampleRequest : Request :=
  {| req_sessionId := Some "fc92274d"; req_method := "POST";
     req_url := "/v1/messages"; req_headers := ""; req_bodyModel := None |}.

Definition failure : option (option string) := Some (Some "upstream failed").

(** 1100 calls, one per millisecond. *)
Definition sampleCalls : list Call :=
  map (fun i => (sampleRequest, toString (Z.of_nat i), 1000 + Z.of_nat i))
    (seq 0 1100).

(** 1100 calls on a host whose clock is set back by a second after the
    first 500 calls, and forward again after the 1001st. *)
Definition steppedTime (i : nat) : Z :=
  if (i <? 500)%nat then 2000 + Z.of_nat i
  else if (i <=? 1000)%nat then 999 + Z.of_nat i
       else 3000 + Z.of_nat i.

Definition steppedCalls : list Call :=
  map (fun i => (sampleRequest, toString (Z.of_nat i), steppedTime i))
    (seq 0 1100).

(** A request that fails after 100 ms, then one that succeeds after
    300 ms. *)
Definition failureThenSuccess : list Op :=
  [doStart sampleRequest "a" 1000; doStart sampleRequest "b" 1000;
   doEnd "req_1000_a" None failure 1100;
   doEnd "req_1000_b" None None 1300].

(** Three requests that succeed after 100, 200 and 300 ms. *)
Definition threeSuccesses : list Op :=
  [doStart sampleRequest "a" 1000; doStart sampleRequest "b" 1000;
   doStart sampleRequest "c" 1000;
   doEnd "req_1000_a" None None 1100;
   doEnd "req_1000_b" None None 1200;
   doEnd "req_1000_c" None None 1300].

End Monitoring.

(** ** utils/sessionManager, the rest: session descriptors, the
    environment of a worker, and the callers in cli.ts *)

Module SessionFiles.
Import JsString JsNumber SessionRegistry.
Local Open Scope Z_scope.

Definition withSessionDirs (d : list string) (w : World) : World :=
  {| files := files w; faulty := faulty w; sessionsDir := sessionsDir w;
     sessionDirs := d; descriptors := descriptors w; procs := procs w |}.

Definition withDescriptors (d : gmap string SavedFile) (w : World) : World :=
  {| files := files w; faulty := faulty w; sessionsDir := sessionsDir w;
     sessionDirs := sessionDirs w; descriptors := d; procs := procs w |}.

(** [config.port = port]. *)
Definition withPort (p : Z) (c : SessionConfig) : SessionConfig :=
  {| modelPreference := modelPreference c; provider := provider c;
     model := model c; sessionId := sessionId c; port := p;
     pidFile := pidFile c; referenceCountFile := referenceCountFile c |}.

(** The keys [saveSessionConfig] writes: the two paths are not among
    them. *)
Definition stored (c : SessionConfig) : SessionConfig :=
  {| modelPreference := modelPreference c; provider := provider c;
     model := model c; sessionId := sessionId c; port := port c;
     pidFile := ""; referenceCountFile := "" |}.

Section Operations.
Context {P : Platform}.

(** [existsSync] of the directory of a session, and [mkdirSync].  Where
    the file system lists a new directory is its own affair; here it is
    listed last. *)
Definition sessionDirExists (dir : string) (w : World) : bool :=
  existsb (String.eqb dir) (sessionDirs w).

Definition mkdirSync (dir : string) (w : World) : World :=
  withSessionDirs (sessionDirs w ++ [dir])%list w.

Definition sessionConfigFile (dir : string) : string :=
  join (join SESSIONS_DIR dir) "session.json".

(** [getSessionConfig].  The port is [savedConfig.port || BASE_PORT]; a
    [session.json] that cannot be read or does not parse is ignored. *)
Definition getSessionConfig (modelPreference : string) (w : World)
  : SessionConfig * World :=
  let sessionId := Identity.generateSessionId modelPreference in
  let parsed := Identity.parseModelPreference modelPreference in
  let sessionDir := join SESSIONS_DIR sessionId in
  let w0 := ensureSessionsDir w in
  let w1 :=
    if negb (sessionDirExists sessionId w0) then mkdirSync sessionId w0
    else w0 in
  let port :=
    match descriptors w1 !! sessionId with
    | Some (descriptor savedConfig) =>
        if port savedConfig =? 0 then PortAllocator.BASE_PORT
        else port savedConfig
    | Some corrupt => PortAllocator.BASE_PORT
    | None => PortAllocator.BASE_PORT
    end in
  ({| modelPreference := modelPreference;
      provider := Identity.provider parsed;
      model := Identity.model parsed;
      sessionId := sessionId;
      port := port;
      pidFile := join sessionDir "router.pid";
      referenceCountFile := join sessionDir "reference-count.txt" |}, w1).

(** [saveSessionConfig]: no [try] around [writeFileSync], which throws
    when the directory is missing or the path cannot be written.  The
    time stamp [createdAt] it adds is read by nobody. *)
Definition saveSessionConfig (config : SessionConfig) (w : World)
  : option World :=
  if sessionDirExists (sessionId config) w then
    if decide (sessionConfigFile (sessionId config) ∈ faulty w) then None
    else
      Some (withDescriptors
              (<[sessionId config := descriptor (stored config)]>
                 (descriptors w)) w)
  else None.

(** cli.ts, [main] for the command [stop]: the session of the model
    preference is looked up and probed, then stopped. *)
Definition stopMain (modelPreference : string) (w : World)
  : StopReport * World :=
  let '(sessionConfig, w1) := getSessionConfig modelPreference w in
  let '(_, w2) := isSessionRunning sessionConfig w1 in
  stopCommand sessionConfig w2.

End Operations.

(** The [overrides] object of [buildModelOverrideConfig]; a key that
    is not set is [None]. *)
Record Overrides := {
  OVERRIDE_MODEL : option string;
  CCR_MODEL_PREFERENCE : string;
  CCR_SESSION_ID : string;
  CCR_SESSION_PORT : Z
}.

(** Truthiness of an optional string, and its text in a template. *)
Definition present (x : option string) : bool :=
  match x with Some t => truthy t | None => false end.

Definition text (x : option string) : string :=
  match x with Some t => t | None => "undefined" end.

Definition buildModelOverrideConfig (sessionConfig : SessionConfig)
  : Overrides :=
  {| OVERRIDE_MODEL :=
       if present (provider sessionConfig) && present (model sessionConfig)
       then Some (text (provider sessionConfig) +:+ ","
                    +:+ text (model sessionConfig))
       else if present (model sessionConfig)
            then Some (text (model sessionConfig))
            else None;
     CCR_MODEL_PREFERENCE := modelPreference sessionConfig;
     CCR_SESSION_ID := sessionId sessionConfig;
     CCR_SESSION_PORT := port sessionConfig |}.

(** Uses of the reference count, in any order. *)
Inductive RefOp := retain | release.

Definition applyRef (sessionConfig : SessionConfig)
  (op : RefOp) (w : World) : option World :=
  match op with
  | retain => incrementSessionReferenceCount sessionConfig w
  | release => decrementSessionReferenceCount sessionConfig w
  end.

Fixpoint applyRefs (sessionConfig : SessionConfig)
  (ops : list RefOp) (w : World) : option World :=
  match ops with
  | [] => Some w
  | op :: rest =>
      match applyRef sessionConfig op w with
      | Some w' => applyRefs sessionConfig rest w'
      | None => None
      end
  end.

(** The counter the file is to hold: up by one, down by one but not
    below zero. *)
Definition counter (c : Z) (op : RefOp) : Z :=
  match op with
  | retain => c + 1
  | release => Z.max 0 (c - 1)
  end.

(** [w'] is [w] but for the file at [path], which may be gone. *)
Definition keptBut (path : string) (w w' : World) : Prop :=
  faulty w' = faulty w /\ sessionsDir w' = sessionsDir w /\
  sessionDirs w' = sessionDirs w /\
  descriptors w' = descriptors w /\ procs w' = procs w /\
  forall other, other <> path -> files w' !! other = files w !! other.

(** A host on which the worker of the sample session has written its
    pid file. *)
Definition announcedHost : World :=
  withFiles {[ pidFile sampleConfig := "4242" ]} runningHost.

(** A network on which the ports below [p] are taken. *)
Definition takenBelow (p : Z) (port : Z) : PortAllocator.ListenEvent :=
  if port <? p then PortAllocator.error "EADDRINUSE"
  else PortAllocator.listening.

End SessionFiles.

(** ** The monitoring service across restarts *)

Module Startup.
Import Monitoring.
Local Open Scope Z_scope.

(** [loadPersistedMetrics]: the sessions of the metrics file are put
    into the map in file order, each under its own [sessionId].  Without
    a file nothing is loaded. *)
Definition loadPersistedMetrics (file : option (list SessionMetrics.t * Z))
  (s : Service) : Service :=
  match file with
  | Some (sessions, _) =>
      fold_left
        (fun acc session =>
           withMetrics
             (mapSet (SessionMetrics.sessionId session) session
                (sessionMetrics acc)) acc)
        sessions s
  | None => s
  end.

(** [new MonitoringService()] in a process that starts on the files an
    earlier service left: empty maps, no listeners, then
    [loadPersistedMetrics].  What the earlier process emitted and sent
    is not the new one's. *)
Definition construct (disk : Service) : Service :=
  loadPersistedMetrics (metricsFile disk)
    {| requests := []; sessionMetrics := []; listeners := [];
       closeHandlers := []; calls := 0%nat; diskFull := diskFull disk;
       appended := appended disk; metricsFile := metricsFile disk;
       emitted := []; sent := [] |}.

(** What the states of a service that started empty keep.  The request
    map: distinct keys, at most [maxLogsInMemory] entries. *)
Definition bounded (s : Service) : Prop :=
  NoDup (map fst (requests s)) /\
  (length (requests s) <= Z.to_nat maxLogsInMemory)%nat.

(** The metrics: every object sits under its own session id, has counted
    at least one request and no more errors than requests, and the
    metrics file holds the values of the map. *)
Definition counted (m : SessionMetrics.t) : Prop :=
  1 <= SessionMetrics.requestCount m /\
  0 <= SessionMetrics.errors m <= SessionMetrics.requestCount m.

Definition keyed (ms : list (string * SessionMetrics.t)) : Prop :=
  NoDup (map fst ms) /\
  forall k m, In (k, m) ms -> SessionMetrics.sessionId m = k.

Definition synced (s : Service) : Prop :=
  match metricsFile s with
  | Some (sessions, _) => sessions = mapValues (sessionMetrics s)
  | None => sessionMetrics s = []
  end.

Definition ledger (s : Service) : Prop :=
  keyed (sessionMetrics s) /\
  (forall k m, In (k, m) (sessionMetrics s) -> counted m) /\
  diskFull s = false /\
  synced s.

(** The metrics map, its file and the state of the disk. *)
Definition books (s : Service) :=
  (sessionMetrics s, metricsFile s, diskFull s).

(** Deleting the keys of [old] one after the other. *)
Definition deleteAll (old m : list (string * RequestLog.t))
  : list (string * RequestLog.t) :=
  fold_left (fun m e => mapDelete (fst e) m) old m.

(** The lives of a service: each run of operations happens in a process
    that starts on the files the one before left. *)
Fixpoint lives {cal : Calendar} (runs : list (list Op)) (disk : Service)
  : Service :=
  match runs with
  | [] => disk
  | ops :: rest => lives rest (run ops (construct disk))
  end.

End Startup.

(** ** What a subscriber is sent *)

Module Delivery.
Import Monitoring.

(** The frame a closure of [streamLogs] sends when it is called with a
    payload: none when the payload is not for it or its filter does not
    pass. *)
Definition frameFor (l : Listener) (p : Payload) : list Frame :=
  match handler l, p with
  | sendLog, aLog r =>
      if passes (filter l) (RequestLog.sessionId r) then [log r] else []
  | sendMetrics, aMetrics m =>
      if passes (filter l) (SessionMetrics.sessionId m)
      then [metrics (one m)] else []
  | _, _ => []
  end.

Definition toSocket (ws : nat) (e : EventName * Listener) : bool :=
  Nat.eqb (socket (snd e)) ws.

(** The frames an [emit] makes the listeners [ls] send to socket [ws]. *)
Definition delivered (ev : EventName) (p : Payload) (ws : nat)
  (ls : list (EventName * Listener)) : list Frame :=
  flat_map
    (fun e =>
       if eventEqb (fst e) ev && toSocket ws e then frameFor (snd e) p
       else [])
    ls.

(** The frames for socket [ws] among frames sent. *)
Definition framesFor (ws : nat) (more : list (nat * Frame)) : list Frame :=
  map snd (List.filter (fun '(ws', _) => Nat.eqb ws' ws) more).

(** Closures are numbered below the counter, and the closures of one
    call of [streamLogs] send to the socket its close handler is
    registered on. *)
Definition wired (s : Service) : Prop :=
  (forall ev l, In (ev, l) (listeners s) -> (call l < calls s)%nat) /\
  (forall h, In h (closeHandlers s) ->
     (call (logger h) < calls s)%nat /\ (call (meter h) < calls s)%nat) /\
  (forall h ev l, In h (closeHandlers s) -> In (ev, l) (listeners s) ->
     call l = call (logger h) \/ call l = call (meter h) ->
     socket l = closing h).

(** The listeners that send to socket [ws] are the four that call [c]
    of [streamLogs] registered. *)
Definition attached (c ws : nat) (f : option string) (s : Service) : Prop :=
  List.filter (toSocket ws) (listeners s) = registrations c ws f.

End Delivery.

(** ** middleware/auth: [apiKeyAuth] *)

Module Auth.
Import JsString JsNumber.
Local Open Scope Z_scope.

(** A header as Node hands it over: one value, or several. *)
Inductive HeaderValue :=
| single (value : string)
| several (values : list string).

Record Headers := {
  origin : option string;
  authorization : option HeaderValue;
  x_api_key : option HeaderValue
}.

Record AuthRequest := {
  url : string;
  headers : Headers
}.

Record Config := {
  APIKEY : option string;
  PORT : option Z
}.

(** What the hook does with the request: it calls [done], after
    setting the response headers listed, or it replies itself. *)
Inductive Verdict :=
| done (responseHeaders : list (string * string))
| refused (statusCode : Z) (body : string).

(** [s.startsWith(p)]. *)
Definition startsWith (p s : string) : bool := String.prefix p s.

Definition publicUrl (url : string) : bool :=
  existsb (String.eqb url) ["/"; "/health"] || startsWith "/ui" url.

Definition isLocalOrigin (origin : string) : bool :=
  startsWith "http://127.0.0.1:" origin || startsWith "http://localhost:" origin.

(** [config.PORT || 3456]. *)
Definition portOf (config : Config) : Z :=
  match PORT config with
  | Some p => if p =? 0 then 3456 else p
  | None => 3456
  end.

Definition allowedOrigins (config : Config) : list string :=
  ["http://127.0.0.1:" +:+ toString (portOf config);
   "http://localhost:" +:+ toString (portOf config)].

Definition corsHeaders (origin : string) : list (string * string) :=
  [("Access-Control-Allow-Origin", origin);
   ("Access-Control-Allow-Methods", "GET, POST, PUT, DELETE, OPTIONS");
   ("Access-Control-Allow-Headers", "Content-Type, x-api-key")].

(** Truthiness of a header: an array is truthy even when empty. *)
Definition given (h : option HeaderValue) : bool :=
  match h with
  | Some (single v) => truthy v
  | Some (several _) => true
  | None => false
  end.

(** [authKey]: [None] is [undefined], the first element of an empty
    array. *)
Definition authKeyOf (h : Headers) : option string :=
  let authHeaderValue :=
    if given (authorization h) then authorization h else x_api_key h in
  match authHeaderValue with
  | Some (several values) => head values
  | Some (single v) => Some v
  | None => Some ""
  end.

(** [token]: the second word of a key that starts with [Bearer], else
    the key itself. *)
Definition tokenOf (authKey : string) : option string :=
  if startsWith "Bearer" authKey
  then nth_error (split " "%char authKey) 1
  else Some authKey.

Definition apiKeyAuth (config : Config) (req : AuthRequest) : Verdict :=
  if publicUrl (url req) then done []
  else
    match APIKEY config with
    | Some (String c k as apiKey) =>
        match authKeyOf (headers req) with
        | Some (String _ _ as authKey) =>
            match tokenOf authKey with
            | Some token =>
                if String.eqb token apiKey then done []
                else refused 401 "Invalid API key"
            | None => refused 401 "Invalid API key"
            end
        | _ => refused 401 "APIKEY is missing"
        end
    | _ =>
        match origin (headers req) with
        | Some (String _ _ as origin) =>
            if isLocalOrigin origin then done (corsHeaders origin)
            else if negb (existsb (String.eqb origin) (allowedOrigins config))
                 then refused 403 "CORS not allowed for this origin"
                 else done []
        | _ => done []
        end
    end.

End Auth.

(** ** server.ts: the endpoints that read and clear a log file *)

Module ServerLogs.
Import JsString SessionRegistry.
Local Open Scope Z_scope.

Inductive LogsReply :=
| logLines (lines : list string)
| clearedSuccessfully
| failed (statusCode : Z).

Section Handlers.
(** [join(homedir(), ".claude-code-router", "logs", "app.log")]. *)
Variable defaultLogFile : string.

(** The query parameter [file] when it is given and not empty. *)
Definition logFilePath (file : option string) : string :=
  match file with
  | Some (String _ _ as filePath) => filePath
  | _ => defaultLogFile
  end.

(** [GET /api/logs]: the lines of the file that are not blank. *)
Definition getLogs (file : option string) (w : World) : LogsReply :=
  let path := logFilePath file in
  if negb (existsSync path w) then logLines []
  else
    match readFileSync path w with
    | Some logContent =>
        logLines
          (List.filter (fun line => truthy (trim line))
             (split "010"%char logContent))
    | None => failed 500
    end.

(** [DELETE /api/logs]: an existing file is emptied. *)
Definition deleteLogs (file : option string) (w : World)
  : LogsReply * World :=
  let path := logFilePath file in
  if existsSync path w then
    match writeFileSync path "" w with
    | Some w' => (clearedSuccessfully, w')
    | None => (failed 500, w)
    end
  else (clearedSuccessfully, w).

End Handlers.
End ServerLogs.

(** * Properties *)

(** ** Strings *)

Section StringFacts.
Import JsString.

Lemma trimStart_blank s : truthy (trimStart s) = negb (allWhite s).
Proof.
  induction s as [|c s IH]; simpl; [reflexivity|].
  destruct (isWhite c) eqn:W; simpl; [exact IH | reflexivity].
Qed.

Lemma trimEnd_blank s : truthy (trimEnd s) = negb (allWhite s).
Proof.
  induction s as [|c s IH]; simpl; [reflexivity|].
  destruct (trimEnd s) eqn:E; simpl in *.
  - destruct (isWhite c); simpl; [|reflexivity].
    symmetry in IH. apply negb_false_iff in IH. now rewrite IH.
  - destruct (isWhite c); simpl; [exact IH | reflexivity].
Qed.

Lemma allWhite_trimStart s : allWhite (trimStart s) = allWhite s.
Proof.
  induction s as [|c s IH]; simpl; [reflexivity|].
  destruct (isWhite c) eqn:W; simpl; [exact IH | now rewrite W].
Qed.

Lemma trim_blank s : truthy (trim s) = negb (allWhite s).
Proof. unfold trim. now rewrite trimEnd_blank, allWhite_trimStart. Qed.

Lemma split_length c s : length (split c s) = S (count c s).
Proof.
  induction s as [|d s IH]; simpl; [reflexivity|].
  destruct (Ascii.eqb d c); simpl; [now rewrite IH|].
  destruct (split c s); simpl in *; congruence.
Qed.

Lemma split_none c s : count c s = 0%nat -> split c s = [s].
Proof.
  induction s as [|d s IH]; simpl; [reflexivity|].
  destruct (Ascii.eqb d c); simpl; [discriminate|].
  intros H. now rewrite (IH H).
Qed.

Lemma split_once c s :
  count c s = 1%nat -> split c s = [before c s; after c s].
Proof.
  induction s as [|d s IH]; simpl; [discriminate|].
  destruct (Ascii.eqb d c); simpl; intros H.
  - rewrite split_none by congruence. reflexivity.
  - now rewrite (IH H).
Qed.

Lemma split_many c s :
  (2 <= count c s)%nat ->
  exists a b d rest, split c s = a :: b :: d :: rest.
Proof.
  intros H. pose proof (split_length c s) as L.
  destruct (split c s) as [|a [|b [|d rest]]]; simpl in L; try lia.
  now exists a, b, d, rest.
Qed.

End StringFacts.

(** ** Identity *)

Section IdentityFacts.
Import JsString Identity.

(** The digest on test vectors of RFC 1321 and on a preference. *)
Example md5_empty : Md5.hex "" = "d41d8cd98f00b204e9800998ecf8427e".
Proof. vm_compute. reflexivity. Qed.

Example md5_abc : Md5.hex "abc" = "900150983cd24fb0d6963f7d28e17f72".
Proof. vm_compute. reflexivity. Qed.

Example md5_pref :
  Md5.hex "openrouter,gpt-4" = "fc92274d07b1660fe1f83c44973f1165".
Proof. vm_compute. reflexivity. Qed.

Lemma blank_test p :
  negb (truthy p) || negb (truthy (trim p)) = allWhite p.
Proof.
  rewrite trim_blank, negb_involutive.
  destruct p; simpl; [reflexivity|]. reflexivity.
Qed.

Lemma hexdigit_isHex n : Md5.isHex (Md5.hexdigit n) = true.
Proof.
  unfold Md5.hexdigit.
  assert (H : (Z.to_nat (n mod 16) < 16)%nat)
    by (pose proof (Z.mod_pos_bound n 16); lia).
  generalize dependent (Z.to_nat (n mod 16)). intros k H.
  do 16 (destruct k as [|k]; [reflexivity|]). lia.
Qed.

Lemma prefix_hexword w rest :
  prefix 8 (Md5.hexword w rest) = Md5.hexword w "".
Proof.
  unfold Md5.hexword, Md5.hexbyte, prefix. cbn [String.substring].
  destruct rest; reflexivity.
Qed.

(** The first eight characters of any digest are hexadecimal digits. *)
Lemma digest_prefix_hex p :
  String.length (prefix 8 (Md5.hex p)) = 8%nat /\
  forallb Md5.isHex (list_ascii_of_string (prefix 8 (Md5.hex p))) = true.
Proof.
  unfold Md5.hex. destruct (Md5.digest_words p) as [[[a b] c] d].
  rewrite prefix_hexword. unfold Md5.hexword, Md5.hexbyte.
  cbn [String.length list_ascii_of_string forallb].
  rewrite !hexdigit_isHex. split; reflexivity.
Qed.

Lemma generateSessionId_empty : generateSessionId "" = "default".
Proof. reflexivity. Qed.

(** Every preference other than the empty string gets the first eight
    hexadecimal digits of its MD5 digest. *)
Lemma generateSessionId_digest p :
  p <> "" ->
  generateSessionId p = prefix 8 (Md5.hex p) /\
  String.length (generateSessionId p) = 8%nat /\
  forallb Md5.isHex (list_ascii_of_string (generateSessionId p)) = true.
Proof.
  intros H. unfold generateSessionId.
  destruct p as [|c p]; [congruence|]. cbn [truthy negb].
  split; [reflexivity|]. apply digest_prefix_hex.
Qed.

(** C1, at the input that separates the code from the claim: a
    preference of three spaces is not given the id "default"; being a
    non-empty string it is hashed like any other, and its id is the
    first eight digits of the MD5 digest of the three spaces. *)
Theorem generateSessionId_blank_is_hashed :
  generateSessionId "   " = "628631f0" /\
  generateSessionId "   " <> "default" /\
  provider (parseModelPreference "   ") = None /\
  model (parseModelPreference "   ") = None.
Proof.
  assert (E : generateSessionId "   " = "628631f0") by (vm_compute; reflexivity).
  rewrite E. repeat split; discriminate.
Qed.

(** C3, as the code states it: [parseModelPreference] is a total
    function that agrees everywhere with the parsing rule
    [preferenceRule] (blank: nothing; one comma: trimmed provider and
    model; no comma and one slash in the trimmed text: provider and
    model; no comma otherwise: the trimmed text as model; two commas or
    more: nothing), and the three preferences of the specification
    parse as it says. *)
Theorem parseModelPreference_rule :
  (forall p, parseModelPreference p = preferenceRule p) /\
  parseModelPreference "openrouter,gpt-4"
    = {| provider := Some "openrouter"; model := Some "gpt-4";
         raw := "openrouter,gpt-4" |} /\
  parseModelPreference "openrouter/gpt-4"
    = {| provider := Some "openrouter"; model := Some "gpt-4";
         raw := "openrouter/gpt-4" |} /\
  parseModelPreference "gpt-4"
    = {| provider := None; model := Some "gpt-4"; raw := "gpt-4" |}.
Proof.
  split; [|repeat split; reflexivity].
  intros p. unfold parseModelPreference, preferenceRule.
  rewrite blank_test. destruct (allWhite p); [reflexivity|].
  destruct (count ","%char p) as [|[|n]] eqn:C.
  - rewrite (split_none _ _ C). cbn [map].
    destruct (count "/"%char (trim p)) as [|[|m]] eqn:D.
    + now rewrite (split_none _ _ D).
    + now rewrite (split_once _ _ D).
    + destruct (split_many "/"%char (trim p)) as (a & b & d & rest & E);
        [lia|]. now rewrite E.
  - now rewrite (split_once _ _ C).
  - destruct (split_many ","%char p) as (a & b & d & rest & E); [lia|].
    now rewrite E.
Qed.

(** C3 fails as stated: a preference with two commas is a non-empty
    string that is neither of the two recognised shapes, and it is not
    returned as a bare model name. *)
Lemma parseModelPreference_two_commas :
  model (parseModelPreference "a,b,c") <> Some "a,b,c".
Proof. vm_compute. discriminate. Qed.

End IdentityFacts.

(** ** Numbers and their decimal text *)

Section NumberFacts.
Import JsString JsNumber.
Local Open Scope Z_scope.

Lemma code_digitChar d : 0 <= d < 10 -> code (digitChar d) = 48 + d.
Proof.
  intros H. unfold code, digitChar.
  rewrite N_ascii_embedding by lia. lia.
Qed.

Lemma isDigit_digitChar d : 0 <= d < 10 -> isDigit (digitChar d) = true.
Proof.
  intros H. unfold isDigit. rewrite code_digitChar by exact H.
  apply andb_true_intro. split; apply Z.leb_le; lia.
Qed.

Lemma digitValue_digitChar d :
  0 <= d < 10 -> digitValue 10 (digitChar d) = Some d.
Proof.
  intros H. unfold digitValue. rewrite code_digitChar by exact H.
  replace ((48 <=? 48 + d) && (48 + d <=? 57)) with true
    by (symmetry; apply andb_true_intro; split; apply Z.leb_le; lia).
  replace (48 + d - 48) with d by lia.
  destruct (d <? 10) eqn:L; [reflexivity|]. apply Z.ltb_ge in L. lia.
Qed.

Lemma isDigit_range c : isDigit c = true -> 48 <= code c <= 57.
Proof.
  unfold isDigit. intros H. apply andb_prop in H as [A B].
  apply Z.leb_le in A, B. lia.
Qed.

Lemma isDigit_not c d : isDigit c = true -> ~ 48 <= code d <= 57 ->
  Ascii.eqb c d = false.
Proof.
  intros H N. destruct (Ascii.eqb c d) eqn:E; [|reflexivity].
  apply Ascii.eqb_eq in E. subst d. apply isDigit_range in H. contradiction.
Qed.

Lemma isDigit_not_white c : isDigit c = true -> isWhite c = false.
Proof.
  intros H. apply isDigit_range in H. unfold isWhite.
  repeat match goal with
  | |- context [?a <=? ?b] => destruct (Z.leb_spec a b)
  | |- context [?a =? ?b] => destruct (Z.eqb_spec a b)
  end; simpl; try reflexivity; lia.
Qed.

Ltac not_a_digit :=
  let A := fresh in let B := fresh in
  intros [A B]; vm_compute in A, B;
  first [now apply A | now apply B].

(** On a non-empty string of decimal digits [parseInt] reads no sign and
    no radix prefix. *)
Lemma parseInt_digits s :
  allDigits s = true -> truthy s = true ->
  parseInt s = parseDigits 10 None s.
Proof.
  destruct s as [|c r]; [discriminate|]. cbn [allDigits]. intros H _.
  apply andb_prop in H as [Hc Hr]. unfold parseInt. cbn [trimStart].
  rewrite (isDigit_not_white _ Hc).
  rewrite (isDigit_not c "-" Hc) by not_a_digit.
  rewrite (isDigit_not c "+" Hc) by not_a_digit.
  assert (R : match r with
              | String c1 r' =>
                  if Ascii.eqb c "0" && (Ascii.eqb c1 "x" || Ascii.eqb c1 "X")
                  then (16, r') else (10, String c r)
              | EmptyString => (10, String c r)
              end = (10, String c r)).
  { destruct r as [|c1 r']; [reflexivity|]. cbn [allDigits] in Hr.
    apply andb_prop in Hr as [Hc1 _].
    rewrite (isDigit_not c1 "x" Hc1) by not_a_digit.
    rewrite (isDigit_not c1 "X" Hc1) by not_a_digit.
    now rewrite andb_false_r. }
  rewrite R.
  destruct (parseDigits 10 None (String c r)) as [v|]; [|reflexivity].
  f_equal. lia.
Qed.

Lemma allDigits_digitsOf fuel : forall n rest,
  0 <= n -> allDigits (digitsOf fuel n rest) = allDigits rest.
Proof.
  induction fuel as [|fuel IH]; intros n rest Hn; [reflexivity|].
  cbn [digitsOf].
  assert (D : isDigit (digitChar (n mod 10)) = true)
    by (apply isDigit_digitChar, Z.mod_pos_bound; lia).
  destruct (n <? 10).
  - cbn [allDigits]. now rewrite D.
  - rewrite IH by (apply Z.div_pos; lia). cbn [allDigits]. now rewrite D.
Qed.

Lemma truthy_digitsOf fuel n rest : truthy (digitsOf (S fuel) n rest) = true.
Proof.
  revert n rest. induction fuel as [|fuel IH]; intros n rest.
  - cbn [digitsOf]. now destruct (n <? 10).
  - cbn [digitsOf] in *. destruct (n <? 10); [reflexivity|].
    specialize (IH (n / 10) (String (digitChar (n mod 10)) rest)).
    exact IH.
Qed.

Lemma parseDigits_digitsOf fuel : forall n rest,
  0 <= n < 2 ^ Z.of_nat (S fuel) ->
  parseDigits 10 None (digitsOf (S fuel) n rest)
  = parseDigits 10 (Some n) rest.
Proof.
  induction fuel as [|fuel IH]; intros n rest Hn.
  - change (2 ^ Z.of_nat 1) with 2 in Hn. cbn [digitsOf].
    replace (n <? 10) with true by (symmetry; apply Z.ltb_lt; lia).
    cbn [parseDigits]. rewrite Z.mod_small by lia.
    rewrite digitValue_digitChar by lia.
      now replace (10 * 0 + n) with n by lia.
  - remember (S fuel) as f eqn:Ef. cbn [digitsOf].
    destruct (Z.ltb_spec n 10) as [L|L].
    + cbn [parseDigits]. rewrite Z.mod_small by lia.
      rewrite digitValue_digitChar by lia.
      now replace (10 * 0 + n) with n by lia.
    + subst f. rewrite IH.
      * cbn [parseDigits].
        rewrite digitValue_digitChar by (apply Z.mod_pos_bound; lia).
        now replace (10 * (n / 10) + n mod 10) with n
          by (pose proof (Z.div_mod n 10); lia).
      * split; [apply Z.div_pos; lia|].
        rewrite Nat2Z.inj_succ, Z.pow_succ_r in Hn by lia.
        apply Z.div_lt_upper_bound; lia.
Qed.

(** Printing a natural number and parsing the text gives it back. *)
Lemma parseInt_toString n : 0 <= n -> parseInt (toString n) = Some n.
Proof.
  intros Hn. unfold toString.
  replace (n <? 0) with false by (symmetry; apply Z.ltb_ge; lia).
  rewrite parseInt_digits.
  - rewrite parseDigits_digitsOf; [reflexivity|].
    split; [exact Hn|].
    destruct (Z.eq_dec n 0) as [->|Hz]; [reflexivity|].
    rewrite Nat2Z.inj_succ, Z2Nat.id by apply Z.log2_nonneg.
    apply Z.log2_spec. lia.
  - now rewrite allDigits_digitsOf.
  - apply truthy_digitsOf.
Qed.

End NumberFacts.

(** ** PortAllocator *)

Section PortFacts.
Import PortAllocator.
Local Open Scope Z_scope.
Variable net : Z -> ListenEvent.

Lemma probes_step port n :
  probes port (S n) = Listen port "127.0.0.1" :: probes (port + 1) n.
Proof.
  unfold probes. cbn [seq map]. rewrite Z.add_0_r. f_equal.
  rewrite <- seq_shift, map_map. apply map_ext. intros i. f_equal. lia.
Qed.

Lemma isPort_range port : isPort port = true <-> 0 <= port <= 65535.
Proof. unfold isPort. rewrite andb_true_iff, Z.leb_le, Z.leb_le. tauto. Qed.

Lemma isPortAvailable_bad port :
  ~ 0 <= port <= 65535 -> isPortAvailable net port = (None, []).
Proof.
  intros B. unfold isPortAvailable.
  destruct (isPort port) eqn:P; [|reflexivity].
  apply isPort_range in P. contradiction.
Qed.

Lemma isPortAvailable_busy port :
  0 <= port <= 65535 -> net port <> listening ->
  isPortAvailable net port = (Some false, [Listen port "127.0.0.1"]).
Proof.
  intros P B. unfold isPortAvailable.
  apply isPort_range in P. rewrite P.
  destruct (net port) as [|code]; [contradiction|].
  now destruct (String.eqb code "EADDRINUSE").
Qed.

Lemma isPortAvailable_free port :
  0 <= port <= 65535 -> net port = listening ->
  isPortAvailable net port
  = (Some true, [Listen port "127.0.0.1"; Close port]).
Proof.
  intros P F. unfold isPortAvailable.
  apply isPort_range in P. now rewrite P, F.
Qed.

Lemma listening_dec port : {net port = listening} + {net port <> listening}.
Proof. destruct (net port); [now left|now right]. Qed.

Lemma probeFrom_scan s : forall fuel port,
  s <= port <= s + MAX_PORT_RANGE ->
  s + MAX_PORT_RANGE - port < Z.of_nat fuel ->
  match probeFrom net fuel s port with
  | (Port p, ops) =>
      port <= p < s + MAX_PORT_RANGE /\
      0 <= p <= 65535 /\ net p = listening /\
      (forall q, port <= q < p -> 0 <= q <= 65535 /\ net q <> listening) /\
      ops = (probes port (Z.to_nat (p - port))
               ++ [Listen p "127.0.0.1"; Close p])%list
  | (NoAvailablePorts a b, ops) =>
      a = s /\ b = s + MAX_PORT_RANGE /\
      (forall q, port <= q < s + MAX_PORT_RANGE ->
         0 <= q <= 65535 /\ net q <> listening) /\
      ops = probes port (Z.to_nat (s + MAX_PORT_RANGE - port))
  | (BadPort b, ops) =>
      port <= b < s + MAX_PORT_RANGE /\ ~ 0 <= b <= 65535 /\
      (forall q, port <= q < b -> 0 <= q <= 65535 /\ net q <> listening) /\
      ops = probes port (Z.to_nat (b - port))
  end.
Proof.
  induction fuel as [|fuel IH]; intros port Hp Hf; [lia|].
  cbn [probeFrom].
  destruct (port <? s + MAX_PORT_RANGE) eqn:L.
  - apply Z.ltb_lt in L.
    destruct (isPort port) eqn:P.
    + apply isPort_range in P.
      destruct (listening_dec port) as [F|F].
      * rewrite (isPortAvailable_free _ P F).
        split; [lia|]. split; [exact P|]. split; [exact F|].
        split; [intros q Hq; lia|].
        rewrite Z.sub_diag. reflexivity.
      * rewrite (isPortAvailable_busy _ P F).
        specialize (IH (port + 1) ltac:(lia) ltac:(lia)).
        destruct (probeFrom net fuel s (port + 1)) as [[p|a b|b] ops].
        -- destruct IH as (R & Pp & Fp & First & T).
           split; [lia|]. split; [exact Pp|]. split; [exact Fp|]. split.
           ++ intros q Hq. destruct (Z.eq_dec q port) as [->|]; [now split|].
              apply First. lia.
           ++ replace (Z.to_nat (p - port))
                with (S (Z.to_nat (p - (port + 1)))) by lia.
              rewrite (probes_step port), T. reflexivity.
        -- destruct IH as (-> & -> & All & T).
           split; [reflexivity|]. split; [reflexivity|]. split.
           ++ intros q Hq. destruct (Z.eq_dec q port) as [->|]; [now split|].
              apply All. lia.
           ++ replace (Z.to_nat (s + MAX_PORT_RANGE - port))
                with (S (Z.to_nat (s + MAX_PORT_RANGE - (port + 1)))) by lia.
              rewrite (probes_step port), T. reflexivity.
        -- destruct IH as (R & Bb & First & T).
           split; [lia|]. split; [exact Bb|]. split.
           ++ intros q Hq. destruct (Z.eq_dec q port) as [->|]; [now split|].
              apply First. lia.
           ++ replace (Z.to_nat (b - port))
                with (S (Z.to_nat (b - (port + 1)))) by lia.
              rewrite (probes_step port), T. reflexivity.
    + assert (~ 0 <= port <= 65535) as B.
      { intros R. apply isPort_range in R. congruence. }
      rewrite (isPortAvailable_bad _ B).
      split; [lia|]. split; [exact B|]. split; [intros q Hq; lia|].
      rewrite Z.sub_diag. reflexivity.
  - apply Z.ltb_ge in L. split; [reflexivity|]. split; [reflexivity|]. split.
    + intros q Hq. lia.
    + replace (s + MAX_PORT_RANGE - port) with 0 by lia. reflexivity.
Qed.

Lemma findAvailablePort_scan (s : Z) :
  match findAvailablePort net s with
  | (Port p, ops) =>
      s <= p < s + 100 /\ 0 <= p <= 65535 /\ net p = listening /\
      (forall q, s <= q < p -> 0 <= q <= 65535 /\ net q <> listening) /\
      ops = (probes s (Z.to_nat (p - s))
               ++ [Listen p "127.0.0.1"; Close p])%list
  | (NoAvailablePorts a b, ops) =>
      a = s /\ b = s + 100 /\
      (forall q, s <= q < s + 100 -> 0 <= q <= 65535 /\ net q <> listening) /\
      ops = probes s 100
  | (BadPort b, ops) =>
      s <= b < s + 100 /\ ~ 0 <= b <= 65535 /\
      (forall q, s <= q < b -> 0 <= q <= 65535 /\ net q <> listening) /\
      ops = probes s (Z.to_nat (b - s))
  end.
Proof.
  unfold findAvailablePort.
  pose proof (probeFrom_scan s (S (Z.to_nat MAX_PORT_RANGE)) s) as H.
  unfold MAX_PORT_RANGE in *.
  specialize (H ltac:(lia) ltac:(lia)).
  destruct (probeFrom net (S (Z.to_nat 100)) s s) as [[p|a b|b] ops].
  - exact H.
  - destruct H as (-> & -> & All & T). repeat split; try apply All; try lia.
    rewrite T. f_equal. lia.
  - exact H.
Qed.

(** C5, as the code has it, for every start port.
    [findAvailablePort s] probes the ports [s], [s+1], ... in turn, each
    by one [listen] on 127.0.0.1, and resolves with the first one the
    network lets it bind, a port of [[s, s+100)], closing the listener
    at once; the ports before it were all probed and none could be
    bound.  It throws the error for the range [s .. s+100], after
    exactly 100 failed probes, when none of the candidates can be
    bound.  A candidate that is not a port number (below 0 or above
    65535) ends the scan where it is reached, with the [RangeError] of
    [listen] and without a probe.  For [0 <= s <= 65436] that never
    happens, and the error for the range is thrown exactly when all 100
    candidates are occupied.  From 3456 the answer lies in
    [[3456, 3556)]. *)
Theorem findAvailablePort_first_free (s : Z) :
  match findAvailablePort net s with
  | (Port p, ops) =>
      s <= p < s + 100 /\ 0 <= p <= 65535 /\ net p = listening /\
      (forall q, s <= q < p -> 0 <= q <= 65535 /\ net q <> listening) /\
      ops = (probes s (Z.to_nat (p - s))
               ++ [Listen p "127.0.0.1"; Close p])%list /\
      (s = 3456 -> 3456 <= p < 3556)
  | (NoAvailablePorts a b, ops) =>
      a = s /\ b = s + 100 /\
      (forall q, s <= q < s + 100 -> 0 <= q <= 65535 /\ net q <> listening) /\
      ops = probes s 100
  | (BadPort b, ops) =>
      s <= b < s + 100 /\ ~ 0 <= b <= 65535 /\
      (forall q, s <= q < b -> 0 <= q <= 65535 /\ net q <> listening) /\
      ops = probes s (Z.to_nat (b - s))
  end /\
  (0 <= s <= 65436 ->
   (forall b, fst (findAvailablePort net s) <> BadPort b) /\
   ((forall q, s <= q < s + 100 -> net q <> listening) <->
    fst (findAvailablePort net s) = NoAvailablePorts s (s + 100))).
Proof.
  pose proof (findAvailablePort_scan s) as H.
  destruct (findAvailablePort net s) as [[p|a b|b] ops]; cbn [fst].
  - destruct H as (R & P & F & First & T).
    split; [repeat split; try lia; try assumption; apply First; lia|].
    intros _. split; [discriminate|]. split; [|discriminate].
    intros All. exfalso. exact (All p R F).
  - destruct H as (-> & -> & All & T).
    split; [repeat split; try apply All; try lia; assumption|].
    intros _. split; [discriminate|]. split; [reflexivity|].
    intros _ q Hq. apply All, Hq.
  - destruct H as (R & B & First & T).
    split; [repeat split; try apply First; try lia; assumption|].
    intros S. exfalso. lia.
Qed.

End PortFacts.

Section PortBoundary.
Import PortAllocator.
Local Open Scope Z_scope.

(** C5 fails as stated.  From the start port 65530, on a host where
    every port is taken, all 100 candidates are occupied, and the scan
    does not throw the error for the range [65530 .. 65630]: after the
    six ports up to 65535 it gives [listen] the number 65536, which
    throws a [RangeError]. *)
Lemma findAvailablePort_past_last_port :
  (forall q, 65530 <= q < 65630 -> allTaken q <> listening) /\
  findAvailablePort allTaken 65530 = (BadPort 65536, probes 65530 6) /\
  fst (findAvailablePort allTaken 65530) <> NoAvailablePorts 65530 65630.
Proof.
  split; [intros q _; discriminate|].
  split; [reflexivity|]. cbn. discriminate.
Qed.

End PortBoundary.

(** ** SessionRegistry *)

Section RegistryFacts.
Import JsString JsNumber SessionRegistry.
Local Open Scope Z_scope.

(** *** The file operations *)

Lemma existsSync_lookup path w :
  existsSync path w = true <-> is_Some (files w !! path).
Proof.
  unfold existsSync. destruct (files w !! path); split; intros H;
    try reflexivity; try discriminate; eauto.
  destruct H; discriminate.
Qed.

Lemma cleanupSessionPid_files cfg w :
  pidFile cfg ∉ faulty w ->
  files (cleanupSessionPid cfg w) = delete (pidFile cfg) (files w) /\
  faulty (cleanupSessionPid cfg w) = faulty w.
Proof.
  intros F. unfold cleanupSessionPid, existsSync, unlinkSync.
  destruct (files w !! pidFile cfg) eqn:L.
  - rewrite decide_False by exact F. split; reflexivity.
  - rewrite delete_id by exact L. split; reflexivity.
Qed.

Lemma unlinkReferenceCount_files cfg w :
  referenceCountFile cfg ∉ faulty w ->
  files (unlinkReferenceCount cfg w) = delete (referenceCountFile cfg) (files w)
  /\ faulty (unlinkReferenceCount cfg w) = faulty w.
Proof.
  intros F. unfold unlinkReferenceCount, existsSync, unlinkSync.
  destruct (files w !! referenceCountFile cfg) eqn:L.
  - rewrite decide_False by exact F. split; reflexivity.
  - rewrite delete_id by exact L. split; reflexivity.
Qed.

(** *** Reference counts *)

Lemma storedCount_written cfg w k :
  0 <= k -> referenceCountFile cfg ∉ faulty w ->
  storedCount cfg
    (withFiles (<[referenceCountFile cfg := toString k]> (files w)) w)
  = Some k.
Proof.
  intros Hk F. unfold storedCount, existsSync, readFileSync, withFiles.
  cbn [files faulty]. rewrite lookup_insert_eq.
  rewrite decide_False by exact F. now rewrite parseInt_toString.
Qed.

Lemma increment_count cfg w c :
  referenceCountFile cfg ∉ faulty w -> storedCount cfg w = Some c -> 0 <= c ->
  exists w', incrementSessionReferenceCount cfg w = Some w' /\
    faulty w' = faulty w /\ storedCount cfg w' = Some (c + 1).
Proof.
  intros F S Hc. unfold incrementSessionReferenceCount, writeFileSync.
  rewrite S, decide_False by exact F. eexists. split; [reflexivity|].
  split; [reflexivity|]. apply storedCount_written; [lia | exact F].
Qed.

Lemma decrement_count cfg w c :
  referenceCountFile cfg ∉ faulty w -> storedCount cfg w = Some c ->
  exists w', decrementSessionReferenceCount cfg w = Some w' /\
    faulty w' = faulty w /\ storedCount cfg w' = Some (Z.max 0 (c - 1)).
Proof.
  intros F S. unfold decrementSessionReferenceCount, writeFileSync.
  rewrite S, decide_False by exact F. eexists. split; [reflexivity|].
  split; [reflexivity|]. apply storedCount_written; [lia | exact F].
Qed.

Lemma increments_count cfg n : forall w c,
  referenceCountFile cfg ∉ faulty w -> storedCount cfg w = Some c -> 0 <= c ->
  exists w', times n (incrementSessionReferenceCount cfg) w = Some w' /\
    faulty w' = faulty w /\ storedCount cfg w' = Some (c + Z.of_nat n).
Proof.
  induction n as [|n IH]; intros w c F S Hc.
  - exists w. cbn [times]. rewrite Z.add_0_r. auto.
  - destruct (increment_count cfg w c F S Hc) as (w1 & E1 & F1 & S1).
    destruct (IH w1 (c + 1)) as (w2 & E2 & F2 & S2);
      [now rewrite F1 | exact S1 | lia |].
    exists w2. cbn [times]. rewrite E1. split; [exact E2|].
    split; [congruence|]. rewrite S2. f_equal. lia.
Qed.

Lemma decrements_count cfg n : forall w c,
  referenceCountFile cfg ∉ faulty w -> storedCount cfg w = Some c -> 0 <= c ->
  exists w', times n (decrementSessionReferenceCount cfg) w = Some w' /\
    faulty w' = faulty w /\
    storedCount cfg w' = Some (Z.max 0 (c - Z.of_nat n)).
Proof.
  induction n as [|n IH]; intros w c F S Hc.
  - exists w. cbn [times]. rewrite Z.sub_0_r, Z.max_r by lia. auto.
  - destruct (decrement_count cfg w c F S) as (w1 & E1 & F1 & S1).
    destruct (IH w1 (Z.max 0 (c - 1))) as (w2 & E2 & F2 & S2);
      [now rewrite F1 | exact S1 | lia |].
    exists w2. cbn [times]. rewrite E1. split; [exact E2|].
    split; [congruence|]. rewrite S2. f_equal. lia.
Qed.

(** C6.  Whenever the reference-count file can be read and written and
    the count [getSessionReferenceCount] reads from it is a natural
    number [c] (no file reads as 0), with [c + n] an integer a double
    represents exactly: [n] calls of [incrementSessionReferenceCount]
    followed by [n] calls of [decrementSessionReferenceCount] all succeed
    and [getSessionReferenceCount] reads [c] again; and when the count is
    0, [decrementSessionReferenceCount] leaves it at 0. *)
Theorem reference_count_round_trip cfg w (c : Z) (n : nat) :
  referenceCountFile cfg ∉ faulty w ->
  getSessionReferenceCount cfg w = Some c ->
  0 <= c ->
  c + Z.of_nat n <= MAX_SAFE_INTEGER ->
  (exists w1 w2,
     times n (incrementSessionReferenceCount cfg) w = Some w1 /\
     getSessionReferenceCount cfg w1 = Some (c + Z.of_nat n) /\
     times n (decrementSessionReferenceCount cfg) w1 = Some w2 /\
     getSessionReferenceCount cfg w2 = Some c) /\
  (c = 0 ->
   exists w', decrementSessionReferenceCount cfg w = Some w' /\
     getSessionReferenceCount cfg w' = Some 0).
Proof.
  unfold getSessionReferenceCount. intros F S Hc _. split.
  - destruct (increments_count cfg n w c F S Hc) as (w1 & E1 & F1 & S1).
    destruct (decrements_count cfg n w1 (c + Z.of_nat n))
      as (w2 & E2 & F2 & S2); [now rewrite F1 | exact S1 | lia |].
    exists w1, w2. repeat split; try assumption.
    rewrite S2. f_equal. lia.
  - intros ->. destruct (decrement_count cfg w 0 F S) as (w' & E & _ & S').
    exists w'. split; [exact E|]. exact S'.
Qed.

(** The round trip on a file holding 3, with two increments and two
    decrements. *)
Lemma reference_count_round_trip_witness :
  exists w1 w2,
    times 2 (incrementSessionReferenceCount sampleConfig) countedHost = Some w1 /\
    getSessionReferenceCount sampleConfig w1 = Some 5 /\
    times 2 (decrementSessionReferenceCount sampleConfig) w1 = Some w2 /\
    getSessionReferenceCount sampleConfig w2 = Some 3.
Proof.
  apply (reference_count_round_trip sampleConfig countedHost 3 2).
  - vm_compute. set_solver.
  - vm_compute. reflexivity.
  - lia.
  - vm_compute. discriminate.
Defined.

(** Outside the natural numbers the round trip fails: a file holding -5
    reads as -5, and one increment followed by one decrement leaves 0. *)
Example reference_count_negative :
  getSessionReferenceCount sampleConfig
    (withFiles {[referenceCountFile sampleConfig := "-5"]} runningHost)
    = Some (-5) /\
  (w1 ← incrementSessionReferenceCount sampleConfig
          (withFiles {[referenceCountFile sampleConfig := "-5"]} runningHost);
   w2 ← decrementSessionReferenceCount sampleConfig w1;
   getSessionReferenceCount sampleConfig w2) = Some 0.
Proof. split; vm_compute; reflexivity. Qed.

(** *** Liveness *)

Section Liveness.
Context {P : Platform}.

(** A pid file naming a process that the liveness check reports as not
    running: [isSessionRunning] answers false and touches nothing. *)
Lemma isSessionRunning_dead cfg w text :
  files w !! pidFile cfg = Some text ->
  pidFile cfg ∉ faulty w ->
  isProcessRunning (parseInt text) w = returned false ->
  isSessionRunning cfg w = (false, w).
Proof.
  intros L F D. unfold isSessionRunning, existsSync, readFileSync.
  rewrite L. cbn [negb]. rewrite decide_False by exact F.
  now rewrite D.
Qed.

(** The cleanup of [isSessionRunning] runs on the exceptional paths
    only. *)
Lemma isSessionRunning_thrown cfg w text :
  files w !! pidFile cfg = Some text ->
  pidFile cfg ∉ faulty w ->
  isProcessRunning (parseInt text) w = thrown ->
  fst (isSessionRunning cfg w) = false /\
  existsSync (pidFile cfg) (snd (isSessionRunning cfg w)) = false.
Proof.
  intros L F D.
  assert (E : isSessionRunning cfg w = (false, cleanupSessionPid cfg w)).
  { unfold isSessionRunning, existsSync, readFileSync.
    rewrite L. cbn [negb]. rewrite decide_False by exact F. now rewrite D. }
  rewrite E. cbn [fst snd]. split; [reflexivity|]. clear E.
  unfold existsSync. destruct (cleanupSessionPid_files cfg w F) as [E _].
  now rewrite E, lookup_delete_eq.
Qed.

End Liveness.

(** C7, at the input that separates the code from the claim, on a host
    whose liveness helper answers whether the pid exists: after
    [saveSessionPid] has recorded pid 4242 of a running process the
    session is reported running; once that process has died
    [isSessionRunning] returns false but the pid file is still there. *)
Theorem isSessionRunning_keeps_stale_pid_file :
  exists w1 w2,
    saveSessionPid sampleConfig 4242 runningHost = Some w1 /\
    @isSessionRunning posix sampleConfig w1 = (true, w1) /\
    posixKill 4242 SIGKILL w1 = inr w2 /\
    procs w2 !! 4242 = None /\
    fst (@isSessionRunning posix sampleConfig w2) = false /\
    existsSync (pidFile sampleConfig)
      (snd (@isSessionRunning posix sampleConfig w2)) = true.
Proof.
  eexists. eexists.
  split; [vm_compute; reflexivity|].
  split; [vm_compute; reflexivity|].
  split; [vm_compute; reflexivity|].
  repeat split; vm_compute; reflexivity.
Qed.

(** *** Stopping a session *)

Section Stopping.
Context {P : Platform}.
Hypothesis quiet : keepsFiles P.

Lemma processKill_files pid sig w w' :
  processKill pid sig w = inr w' -> files w' = files w /\ faulty w' = faulty w.
Proof. destruct quiet as [K _]. apply K. Qed.

Lemma escalate_files pid w :
  files (escalate pid w) = files w /\ faulty (escalate pid w) = faulty w.
Proof.
  unfold escalate.
  destruct (processKill pid signal0 w) as [e|w1] eqn:E0; [auto|].
  destruct (processKill_files _ _ _ _ E0) as [F1 G1].
  destruct (processKill pid SIGKILL w1) as [e|w2] eqn:E1; [auto|].
  destruct (processKill_files _ _ _ _ E1) as [F2 G2].
  split; congruence.
Qed.

(** After a delivered signal both stop paths end with the same two
    unlinks. *)
Lemma both_files_removed cfg w w1 :
  files w1 = files w -> faulty w1 = faulty w ->
  pidFile cfg ∉ faulty w -> referenceCountFile cfg ∉ faulty w ->
  files (unlinkReferenceCount cfg (cleanupSessionPid cfg w1))
  = delete (referenceCountFile cfg) (delete (pidFile cfg) (files w)).
Proof.
  intros F G Np Nr.
  destruct (cleanupSessionPid_files cfg w1) as [F2 G2]; [now rewrite G|].
  destruct (unlinkReferenceCount_files cfg (cleanupSessionPid cfg w1))
    as [F3 _]; [now rewrite G2, G|].
  now rewrite F3, F2, F.
Qed.

Lemma stopCommand_outcome cfg w pid :
  livePid (getSessionPid cfg w) = Some pid ->
  pidFile cfg ∉ faulty w -> referenceCountFile cfg ∉ faulty w ->
  match processKill pid SIGTERM w with
  | inl _ =>
      fst (stopCommand cfg w) = failedMayHaveStopped /\
      files (snd (stopCommand cfg w)) = delete (pidFile cfg) (files w)
  | inr _ =>
      fst (stopCommand cfg w) = successfullyStopped /\
      files (snd (stopCommand cfg w))
      = delete (referenceCountFile cfg) (delete (pidFile cfg) (files w))
  end.
Proof.
  intros L Np Nr. unfold stopCommand. rewrite L.
  destruct (processKill pid SIGTERM w) as [e|w1] eqn:K; cbn [fst snd].
  - split; [reflexivity|]. now apply cleanupSessionPid_files.
  - split; [reflexivity|].
    destruct (processKill_files _ _ _ _ K) as [F G].
    now apply both_files_removed.
Qed.

(** Every session [getAllActiveSessions] returns passed the liveness
    check. *)
Lemma activeAmong_alive dirs : forall w s,
  In s (fst (activeAmong dirs w)) ->
  exists w', isSessionRunning s w' = (true, w').
Proof.
  induction dirs as [|dir rest IH]; intros w s; cbn [activeAmong fst];
    [intros []|].
  destruct (activeIn dir w) as [found w1] eqn:A.
  destruct (activeAmong rest w1) as [more w2] eqn:R. cbn [fst].
  assert (M : In s more -> exists w', isSessionRunning s w' = (true, w')).
  { intros H. apply (IH w1). now rewrite R. }
  destruct found as [c|]; [|exact M].
  intros [<-|H]; [|now apply M].
  unfold activeIn in A.
  destruct (descriptors w !! dir) as [[|saved]|]; try discriminate.
  match type of A with
  | (let '(_, _) := isSessionRunning ?x w in _) = _ =>
      destruct (isSessionRunning x w) as [alive w'] eqn:I
  end.
  destruct alive; [|discriminate]. injection A as <- <-.
  exists w. rewrite I. f_equal.
  unfold isSessionRunning in I.
  repeat match type of I with
  | (if ?b then _ else _) = _ => destruct b; try discriminate
  | match ?x with _ => _ end = _ => destruct x; try discriminate
  end.
  now injection I.
Qed.

(** [ensureSessionsDir] makes the sessions directory and nothing
    else; the listing that follows is the scan of its entries. *)
Lemma ensureSessionsDir_exists w :
  sessionsDirExists (ensureSessionsDir w) = true.
Proof.
  unfold ensureSessionsDir.
  destruct (sessionsDirExists w) eqn:E; cbn [negb]; [exact E|reflexivity].
Qed.

Lemma ensureSessionsDir_kept w :
  files (ensureSessionsDir w) = files w /\
  faulty (ensureSessionsDir w) = faulty w /\
  sessionDirs (ensureSessionsDir w) = sessionDirs w /\
  descriptors (ensureSessionsDir w) = descriptors w /\
  procs (ensureSessionsDir w) = procs w.
Proof.
  unfold ensureSessionsDir.
  destruct (negb (sessionsDirExists w)); repeat split; reflexivity.
Qed.

Lemma ensureSessionsDir_same w :
  sessionsDirExists w = true -> ensureSessionsDir w = w.
Proof. unfold ensureSessionsDir. now intros ->. Qed.

Lemma getAllActiveSessions_scan w :
  getAllActiveSessions w = activeAmong (sessionDirs w) (ensureSessionsDir w).
Proof.
  unfold getAllActiveSessions. cbv zeta.
  rewrite ensureSessionsDir_exists. cbn [negb].
  now destruct (ensureSessionsDir_kept w) as (_ & _ & -> & _).
Qed.

Lemma stopSession_outcome requested w :
  let '(sessions, w0) := getAllActiveSessions w in
  (forall s, In s sessions -> exists w', isSessionRunning s w' = (true, w')) /\
  match List.find (fun s => String.eqb (sessionId s) requested) sessions with
  | None => stopSession requested w = (status 404, w0)
  | Some session =>
      forall pid,
      livePid (getSessionPid session w0) = Some pid ->
      pidFile session ∉ faulty w0 -> referenceCountFile session ∉ faulty w0 ->
      match processKill pid SIGTERM w0 with
      | inl ESRCH =>
          fst (stopSession requested w) = ok true wasAlreadyStopped /\
          files (snd (stopSession requested w))
          = delete (pidFile session) (files w0)
      | inl EPERM => stopSession requested w = (status 403, w0)
      | inl otherError => stopSession requested w = (status 500, w0)
      | inr _ =>
          fst (stopSession requested w) = ok true stoppedSuccessfully /\
          files (snd (stopSession requested w))
          = delete (referenceCountFile session)
              (delete (pidFile session) (files w0))
      end
  end.
Proof.
  unfold stopSession.
  pose proof (activeAmong_alive (sessionDirs w) (ensureSessionsDir w))
    as Alive.
  rewrite getAllActiveSessions_scan.
  destruct (activeAmong (sessionDirs w) (ensureSessionsDir w))
    as [sessions w0]. cbn [fst] in Alive.
  split; [exact Alive|].
  destruct (List.find _ sessions) as [session|]; [|reflexivity].
  intros pid L Np Nr. rewrite L.
  destruct (processKill pid SIGTERM w0) as [[| |]|w1] eqn:K; cbn [fst snd];
    try reflexivity.
  - split; [reflexivity|]. now apply cleanupSessionPid_files.
  - split; [reflexivity|].
    destruct (processKill_files _ _ _ _ K) as [F G].
    destruct quiet as [_ D]. destruct (D 500 w1) as [F1 G1].
    destruct (escalate_files pid (afterDelay 500 w1)) as [F2 G2].
    apply both_files_removed; congruence.
Qed.

End Stopping.

Lemma posix_keepsFiles : keepsFiles posix.
Proof.
  split; [|intros ms w; split; reflexivity].
  intros pid sig w w'. cbn [processKill posix]. unfold posixKill.
  destruct (procs w !! pid) as [[| |]|]; try discriminate;
    destruct sig; intros [= <-]; split; reflexivity.
Qed.

Lemma gone_after_delete path w (m : gmap string string) :
  files w = delete path m -> existsSync path w = false.
Proof. unfold existsSync. intros ->. now rewrite lookup_delete_eq. Qed.

Lemma gone_after_deletes path other w (m : gmap string string) :
  files w = delete other (delete path m) ->
  existsSync path w = false /\ existsSync other w = false.
Proof.
  unfold existsSync. intros ->. split; [|now rewrite lookup_delete_eq].
  destruct (decide (other = path)) as [->|N].
  - now rewrite lookup_delete_eq.
  - now rewrite lookup_delete_ne, lookup_delete_eq.
Qed.

(** C8, as the code states it.  On a host where signals and waiting do
    not touch files and the two files of the session can be unlinked:
    the command-line stop of a session whose pid file holds a pid never
    raises; when the signal cannot be delivered (the process is gone) it
    reports that the session may already have been stopped and clears
    the pid file; when the signal is delivered it clears the pid file
    and then deletes the reference-count file.  The HTTP stop looks the
    session up among the sessions that passed the liveness check and
    answers 404 when it is not there; for a session it found, a signal
    failing with ESRCH gives success ("was already stopped") with the
    pid file cleared, EPERM gives 403 and any other failure 500 with the
    host left as it was, and a delivered signal gives success with the
    pid file cleared and the reference-count file deleted. *)
Theorem stop_outcomes {P : Platform} (cfg : SessionConfig) (w : World)
    (pid : Z) (requested : string) :
  keepsFiles P ->
  livePid (getSessionPid cfg w) = Some pid ->
  pidFile cfg ∉ faulty w -> referenceCountFile cfg ∉ faulty w ->
  match processKill pid SIGTERM w with
  | inl _ =>
      fst (stopCommand cfg w) = failedMayHaveStopped /\
      existsSync (pidFile cfg) (snd (stopCommand cfg w)) = false
  | inr _ =>
      fst (stopCommand cfg w) = successfullyStopped /\
      existsSync (pidFile cfg) (snd (stopCommand cfg w)) = false /\
      existsSync (referenceCountFile cfg) (snd (stopCommand cfg w)) = false
  end /\
  let '(sessions, w0) := getAllActiveSessions w in
  (forall s, In s sessions -> exists w', isSessionRunning s w' = (true, w')) /\
  match List.find (fun s => String.eqb (sessionId s) requested) sessions with
  | None => stopSession requested w = (status 404, w0)
  | Some session =>
      forall pid',
      livePid (getSessionPid session w0) = Some pid' ->
      pidFile session ∉ faulty w0 -> referenceCountFile session ∉ faulty w0 ->
      match processKill pid' SIGTERM w0 with
      | inl ESRCH =>
          fst (stopSession requested w) = ok true wasAlreadyStopped /\
          existsSync (pidFile session) (snd (stopSession requested w)) = false
      | inl EPERM => stopSession requested w = (status 403, w0)
      | inl otherError => stopSession requested w = (status 500, w0)
      | inr _ =>
          fst (stopSession requested w) = ok true stoppedSuccessfully /\
          existsSync (pidFile session) (snd (stopSession requested w)) = false
          /\
          existsSync (referenceCountFile session)
            (snd (stopSession requested w)) = false
      end
  end.
Proof.
  intros K L Np Nr. split.
  - pose proof (stopCommand_outcome K cfg w pid L Np Nr) as H.
    destruct (processKill pid SIGTERM w); destruct H as [R F];
      (split; [exact R|]).
    + exact (gone_after_delete _ _ _ F).
    + exact (gone_after_deletes _ _ _ _ F).
  - pose proof (stopSession_outcome K requested w) as H.
    destruct (getAllActiveSessions w) as [sessions w0].
    destruct H as [Alive H]. split; [exact Alive|].
    destruct (List.find _ sessions) as [session|]; [|exact H].
    intros pid' L' Np' Nr'. specialize (H pid' L' Np' Nr').
    destruct (processKill pid' SIGTERM w0) as [[| |]|w1]; try exact H;
      destruct H as [R F]; (split; [exact R|]).
    + exact (gone_after_delete _ _ _ F).
    + exact (gone_after_deletes _ _ _ _ F).
Qed.

(** The stop paths on the host a dead worker left behind. *)
Lemma stop_outcomes_witness :
  fst (@stopCommand posix sampleConfig staleHost) = failedMayHaveStopped /\
  existsSync (pidFile sampleConfig)
    (snd (@stopCommand posix sampleConfig staleHost)) = false /\
  @stopSession posix "fc92274d" staleHost = (status 404, staleHost).
Proof.
  assert (L : livePid (getSessionPid sampleConfig staleHost) = Some 4242)
    by (vm_compute; reflexivity).
  assert (Np : pidFile sampleConfig ∉ faulty staleHost)
    by (cbn [faulty staleHost]; set_solver).
  assert (Nr : referenceCountFile sampleConfig ∉ faulty staleHost)
    by (cbn [faulty staleHost]; set_solver).
  pose proof (@stop_outcomes posix sampleConfig staleHost 4242 "fc92274d"
                posix_keepsFiles L Np Nr) as H.
  assert (K : @processKill posix 4242 SIGTERM staleHost = inl ESRCH)
    by (vm_compute; reflexivity).
  assert (A : @getAllActiveSessions posix staleHost = ([], staleHost))
    by (vm_compute; reflexivity).
  rewrite K, A in H. cbn [List.find] in H.
  destruct H as [[R F] [_ N]]. auto.
Defined.

(** C8 fails as stated.  On a host where process 4242 is gone while the
    pid file still names it and the reference-count file holds 1, the
    command-line stop reports a failure and leaves the reference-count
    file in place, and the HTTP stop answers 404. *)
Lemma stop_keeps_reference_count :
  procs staleHost !! 4242 = None /\
  getSessionPid sampleConfig staleHost = Some 4242 /\
  fst (@stopCommand posix sampleConfig staleHost) = failedMayHaveStopped /\
  existsSync (referenceCountFile sampleConfig)
    (snd (@stopCommand posix sampleConfig staleHost)) = true /\
  fst (@stopSession posix "fc92274d" staleHost) = status 404.
Proof. repeat split; vm_compute; reflexivity. Qed.

End RegistryFacts.

(** ** Monitoring *)

Section MonitoringFacts.
Import JsString JsNumber Monitoring.
Local Open Scope Z_scope.
Context {cal : Calendar}.

(** C10.  [updateRequest] and [endRequest] on a request id that is not
    in the request map return the service as it was: requests, metrics,
    listeners, the files on disk, the events emitted and the frames sent
    are all unchanged, and nothing is raised. *)
Theorem unknown_request_is_ignored (requestId : string) (s : Service) :
  mapGet requestId (requests s) = None ->
  forall updates response error now,
    updateRequest requestId updates now s = s /\
    endRequest requestId response error now s = s.
Proof.
  intros H updates response error now.
  unfold updateRequest, endRequest. rewrite H. split; reflexivity.
Qed.

(** *** The request map *)

Lemma mapGet_None {V} k (m : list (string * V)) :
  mapGet k m = None <-> ~ In k (map fst m).
Proof.
  induction m as [|[k' v] m IH]; cbn [mapGet map fst In]; [tauto|].
  destruct (String.eqb_spec k' k) as [->|N].
  - split; [discriminate | tauto].
  - rewrite IH. tauto.
Qed.

Lemma mapSet_fresh {V} k (v : V) m :
  mapGet k m = None -> mapSet k v m = (m ++ [(k, v)])%list.
Proof.
  induction m as [|[k' v'] m IH]; cbn [mapGet mapSet app]; [reflexivity|].
  destruct (String.eqb k' k); [discriminate|].
  intros H. now rewrite (IH H).
Qed.

(** *** What an emission leaves alone *)

Lemma invoke_inside l p s : inside (invoke l p s) = inside s.
Proof.
  unfold invoke.
  destruct (handler l), p; try reflexivity;
    match goal with |- context [if ?b then _ else _] => destruct b end;
    reflexivity.
Qed.

Lemma emit_inside ev p s : inside (emit ev p s) = inside s.
Proof.
  unfold emit.
  match goal with
  | |- inside (fold_left ?f _ _) = _ =>
      assert (G : forall ls acc, inside (fold_left f ls acc) = inside acc)
  end.
  { induction ls as [|[ev' l] ls IH]; intros acc; [reflexivity|].
    cbn [fold_left]. rewrite IH.
    destruct (eventEqb ev' ev); [apply invoke_inside | reflexivity]. }
  rewrite G. reflexivity.
Qed.

Lemma emit_requests ev p s : requests (emit ev p s) = requests s.
Proof. pose proof (emit_inside ev p s) as H. unfold inside in H. congruence. Qed.

Lemma emit_appended ev p s : appended (emit ev p s) = appended s.
Proof. pose proof (emit_inside ev p s) as H. unfold inside in H. congruence. Qed.

Lemma emit_diskFull ev p s : diskFull (emit ev p s) = diskFull s.
Proof. pose proof (emit_inside ev p s) as H. unfold inside in H. congruence. Qed.

(** *** Calls below the limit *)

(** A call that does not overflow the map appends its entry. *)
Lemma startRequest_appends (c : Call) s :
  ~ In (callId c) (map fst (requests s)) ->
  (length (requests s) < 1000)%nat ->
  let s' := step s (doStart (fst (fst c)) (snd (fst c)) (snd c)) in
  requests s' = (requests s ++ [entryOf c])%list /\
  appended s' = appended s /\ diskFull s' = diskFull s.
Proof.
  intros Fresh Len. cbn zeta. cbn [step]. unfold startRequest. cbn [snd].
  fold (callTime c). fold (callId c).
  rewrite emit_requests. cbn [requests withRequests].
  rewrite mapSet_fresh by now apply mapGet_None.
  replace (Z.of_nat (length _) >? maxLogsInMemory) with false.
  - rewrite emit_requests, emit_appended, emit_diskFull. auto.
  - symmetry. rewrite Z.gtb_ltb. apply Z.ltb_ge. rewrite length_app.
    cbn [length]. unfold maxLogsInMemory. lia.
Qed.

Lemma starts_append (cs : list Call) : forall s,
  NoDup (map fst (requests s) ++ map callId cs) ->
  (length (requests s) + length cs <= 1000)%nat ->
  let s' := run (starts cs) s in
  requests s' = (requests s ++ map entryOf cs)%list /\
  appended s' = appended s /\ diskFull s' = diskFull s.
Proof.
  induction cs as [|c cs IH]; intros s N L; cbn zeta.
  - cbn [starts map run fold_left]. rewrite app_nil_r. auto.
  - cbn [starts map run fold_left]. cbn [length map] in *.
    apply NoDup_app in N as (N1 & N2 & N3).
    destruct (startRequest_appends c s) as (R & A & D).
    + intros I. apply list_elem_of_In in I. apply (N2 _ I). left.
    + lia.
    + set (s1 := step s _) in *.
      destruct (IH s1) as (R' & A' & D').
      * rewrite R, map_app. cbn [map fst entryOf]. rewrite <- app_assoc.
        apply NoDup_app. split; [exact N1|]. split.
        -- intros k I. apply N2 in I. exact I.
        -- exact N3.
      * rewrite R, length_app. cbn [length]. lia.
      * fold (starts cs). fold (run (starts cs) s1).
        rewrite R', A', D', R, <- app_assoc. auto.
Qed.

(** *** Subscriptions: what the operations do to listeners and frames *)

Lemma quiet_refl s : quiet s s.
Proof.
  split; [reflexivity|]. exists []. rewrite app_nil_r.
  split; [reflexivity|]. intros ws fr [].
Qed.

Lemma quiet_trans s1 s2 s3 : quiet s1 s2 -> quiet s2 s3 -> quiet s1 s3.
Proof.
  intros [P1 (m1 & E1 & F1)] [P2 (m2 & E2 & F2)].
  split; [congruence|]. exists (m1 ++ m2)%list.
  split; [rewrite E2, E1; now rewrite app_assoc|].
  intros ws fr I. apply in_app_or in I as [I|I]; [exact (F1 _ _ I)|].
  destruct (F2 _ _ I) as (ev & l & Il & S).
  exists ev, l. split; [|exact S].
  unfold plumbing in P1. now replace (listeners s1) with (listeners s2)
    by congruence.
Qed.

Lemma quiet_silent s s' :
  plumbing s' = plumbing s -> sent s' = sent s -> quiet s s'.
Proof.
  intros P S. split; [exact P|]. exists []. rewrite app_nil_r.
  split; [exact S|]. intros ws fr [].
Qed.

Lemma invoke_quiet ev l p s :
  In (ev, l) (listeners s) -> quiet s (invoke l p s).
Proof.
  intros I.
  assert (W : forall fr, quiet s (wsSend (socket l) fr s)).
  { intros fr. split; [reflexivity|]. exists [(socket l, fr)].
    split; [reflexivity|]. intros ws fr' [[= <- <-]|[]]. now exists ev, l. }
  unfold invoke.
  destruct (handler l), p; try apply quiet_refl;
    match goal with |- context [if ?b then _ else _] => destruct b end;
    first [apply W | apply quiet_refl].
Qed.

Lemma emit_quiet ev p s : quiet s (emit ev p s).
Proof.
  unfold emit.
  match goal with
  | |- quiet s (fold_left ?f _ ?s1) =>
      assert (G : forall ls acc,
                 (forall e, In e ls -> In e (listeners acc)) ->
                 quiet acc (fold_left f ls acc));
      [|apply quiet_trans with s1]
  end.
  - induction ls as [|[ev' l] ls IH]; intros acc Sub; [apply quiet_refl|].
    cbn [fold_left].
    assert (Q : quiet acc (if eventEqb ev' ev then invoke l p acc else acc)).
    { destruct (eventEqb ev' ev); [|apply quiet_refl].
      apply (invoke_quiet ev'). apply Sub. now left. }
    eapply quiet_trans; [exact Q|]. apply IH. intros e I.
    destruct Q as [Pq _]. unfold plumbing in Pq.
    replace (listeners (if eventEqb ev' ev then invoke l p acc else acc))
      with (listeners acc) by congruence.
    apply Sub. now right.
  - now apply quiet_silent.
  - apply G. auto.
Qed.

Lemma persistMetrics_quiet now s : quiet s (persistMetrics now s).
Proof.
  unfold persistMetrics. destruct (diskFull s);
    [apply quiet_refl | now apply quiet_silent].
Qed.

Lemma persistRequestLog_quiet r now s : quiet s (persistRequestLog r now s).
Proof.
  unfold persistRequestLog. destruct (diskFull s);
    [apply quiet_refl | now apply quiet_silent].
Qed.

Lemma archiveOldLogs_quiet now s : quiet s (archiveOldLogs now s).
Proof.
  unfold archiveOldLogs.
  generalize (firstn 100 (sortBy byTimestamp (requests s))). intros old.
  revert s. induction old as [|[id r] old IH]; intros s; [apply quiet_refl|].
  cbn [fold_left]. eapply quiet_trans; [|apply IH].
  eapply quiet_trans; [apply (persistRequestLog_quiet r now)|].
  now apply quiet_silent.
Qed.

Lemma updateSessionMetrics_quiet r now s :
  quiet s (updateSessionMetrics r now s).
Proof.
  unfold updateSessionMetrics.
  eapply quiet_trans; [|apply emit_quiet].
  eapply quiet_trans; [|apply persistMetrics_quiet].
  now apply quiet_silent.
Qed.

Lemma updateRequest_quiet id u now s : quiet s (updateRequest id u now s).
Proof.
  unfold updateRequest.
  destruct (mapGet id (requests s)) as [r|]; [|apply quiet_refl].
  set (r' := assign r u).
  set (s1 := withRequests _ s).
  assert (Q1 : quiet s s1) by now apply quiet_silent.
  set (s2 := if truthy _ then _ else _).
  assert (Q2 : quiet s1 s2).
  { subst s2. destruct (truthy _);
      [apply updateSessionMetrics_quiet | apply quiet_refl]. }
  assert (Q3 : quiet s2 (emit request_update (aLog r') s2))
    by apply emit_quiet.
  destruct (terminal _).
  - eapply quiet_trans; [|apply persistRequestLog_quiet].
    eauto using quiet_trans.
  - eauto using quiet_trans.
Qed.

Lemma endRequest_quiet id response error now s :
  quiet s (endRequest id response error now s).
Proof.
  unfold endRequest.
  destruct (mapGet id (requests s)) as [r|]; [|apply quiet_refl].
  eapply quiet_trans; [apply updateRequest_quiet | apply emit_quiet].
Qed.

Lemma startRequest_quiet req random now s :
  quiet s (snd (startRequest req random now s)).
Proof.
  unfold startRequest. cbn [snd].
  set (s1 := withRequests _ s).
  assert (Q1 : quiet s s1) by now apply quiet_silent.
  set (s2 := emit _ _ s1).
  assert (Q2 : quiet s1 s2) by apply emit_quiet.
  destruct (_ >? _).
  - eapply quiet_trans; [|apply archiveOldLogs_quiet].
    eauto using quiet_trans.
  - eauto using quiet_trans.
Qed.

Lemma clearLogs_quiet sid s : quiet s (clearLogs sid s).
Proof.
  unfold clearLogs. eapply quiet_trans; [|apply emit_quiet].
  now apply quiet_silent.
Qed.

Lemma resetMetrics_quiet sid now s : quiet s (resetMetrics sid now s).
Proof.
  unfold resetMetrics. eapply quiet_trans; [|apply emit_quiet].
  eapply quiet_trans; [|apply persistMetrics_quiet].
  now apply quiet_silent.
Qed.

(** *** Removing listeners *)

Lemma removeLast_sublist ev l ls : removeLast ev l ls `sublist_of` ls.
Proof.
  induction ls as [|e rest IH]; cbn [removeLast]; [constructor|].
  destruct (existsb (registers ev l) rest).
  - now apply sublist_skip.
  - destruct (registers ev l e); [now apply sublist_cons | reflexivity].
Qed.

Lemma removeLast_absent ev l ls :
  existsb (registers ev l) ls = false -> removeLast ev l ls = ls.
Proof.
  destruct ls as [|e rest]; cbn [removeLast existsb]; [reflexivity|].
  intros H. apply orb_false_elim in H as [He Hr]. now rewrite Hr, He.
Qed.

Lemma existsb_filter {A} (m q : A -> bool) ls :
  (forall e, m e = true -> q e = true) ->
  existsb m (List.filter q ls) = existsb m ls.
Proof.
  intros Sub. induction ls as [|e rest IH]; [reflexivity|].
  cbn [List.filter existsb]. destruct (q e) eqn:Q; cbn [existsb].
  - now rewrite IH.
  - rewrite IH. destruct (m e) eqn:M; [|reflexivity].
    rewrite (Sub _ M) in Q. discriminate.
Qed.

Lemma filter_removeLast q ev l ls :
  (forall e, registers ev l e = true -> q e = true) ->
  List.filter q (removeLast ev l ls) = removeLast ev l (List.filter q ls).
Proof.
  intros Sub. induction ls as [|e rest IH]; [reflexivity|].
  cbn [removeLast List.filter].
  destruct (existsb (registers ev l) rest) eqn:X.
  - cbn [List.filter]. destruct (q e); cbn [removeLast].
    + rewrite existsb_filter by exact Sub. now rewrite X, IH.
    + exact IH.
  - destruct (registers ev l e) eqn:M.
    + rewrite (Sub _ M). cbn [removeLast].
      rewrite existsb_filter by exact Sub. now rewrite X, M.
    + cbn [List.filter]. destruct (q e); cbn [removeLast].
      * rewrite existsb_filter by exact Sub. now rewrite X, M.
      * symmetry. apply removeLast_absent.
        now rewrite existsb_filter by exact Sub.
Qed.

Lemma filter_sublist {A} (q : A -> bool) l1 l2 :
  l1 `sublist_of` l2 -> List.filter q l1 `sublist_of` List.filter q l2.
Proof.
  induction 1 as [|x l1 l2 S IH|x l1 l2 S IH]; cbn [List.filter].
  - constructor.
  - destruct (q x); [now apply sublist_skip | exact IH].
  - destruct (q x); [now apply sublist_cons | exact IH].
Qed.

Lemma filter_none {A} (q : A -> bool) l :
  (forall x, In x l -> q x = false) -> List.filter q l = [].
Proof.
  induction l as [|x l IH]; intros H; [reflexivity|].
  cbn [List.filter]. rewrite (H x) by now left.
  apply IH. intros y I. apply H. now right.
Qed.

(** *** [streamLogs] and [close], field by field *)

Lemma streamLogs_plumbing ws f s :
  listeners (streamLogs ws f s)
  = (listeners s ++ registrations (calls s) ws f)%list /\
  closeHandlers (streamLogs ws f s)
  = (closeHandlers s
       ++ [{| closing := ws; logger := logSender (calls s) ws f;
              meter := metricsSender (calls s) ws f |}])%list /\
  calls (streamLogs ws f s) = S (calls s).
Proof.
  unfold streamLogs. cbn [listeners closeHandlers calls].
  unfold on. cbn [listeners closeHandlers calls withListeners].
  assert (E : forall w : Service -> Service,
            (forall x, plumbing (w x) = plumbing x) ->
            plumbing (match someText f with
                      | Some sid =>
                          match getSessionMetrics sid (w s) with
                          | Some m => wsSend ws (metrics (one m)) (w s)
                          | None => w s
                          end
                      | None =>
                          wsSend ws (metrics (all (getAllSessionMetrics (w s))))
                            (w s)
                      end) = plumbing s).
  { intros w W. destruct (someText f) as [sid|];
      [destruct (getSessionMetrics sid (w s))|]; try apply W;
      unfold wsSend; cbn; apply W. }
  specialize (E (wsSend ws (initial (getRecentRequests f 50 s)))
                ltac:(reflexivity)).
  unfold plumbing in E. injection E as E1 E2 E3.
  rewrite E1, E2. repeat split.
  now rewrite <- !app_assoc.
Qed.

Lemma streamLogs_sent ws f s :
  exists tail,
    sent (streamLogs ws f s)
    = (sent s ++ (ws, initial (getRecentRequests f 50 s)) :: tail)%list /\
    forall e, In e tail -> fst e = ws.
Proof.
  unfold streamLogs. cbn [sent]. unfold on. cbn [sent withListeners].
  destruct (someText f) as [sid|].
  - destruct (getSessionMetrics sid _) as [m|].
    + eexists [_]. cbn [sent wsSend]. rewrite <- app_assoc.
      split; [reflexivity|]. intros e [<-|[]]. reflexivity.
    + exists []. cbn [sent wsSend]. split; [reflexivity|]. intros e [].
  - eexists [_]. cbn [sent wsSend]. rewrite <- app_assoc.
    split; [reflexivity|]. intros e [<-|[]]. reflexivity.
Qed.

Lemma onClose_fields h s :
  listeners (onClose h s) `sublist_of` listeners s /\
  closeHandlers (onClose h s) = closeHandlers s /\
  calls (onClose h s) = calls s /\ sent (onClose h s) = sent s.
Proof.
  unfold onClose, removeListener.
  cbn [listeners closeHandlers calls sent withListeners].
  repeat split.
  repeat (etransitivity; [apply removeLast_sublist|]). reflexivity.
Qed.

Lemma closing_fields ws hs : forall s,
  let s' :=
    fold_left
      (fun acc h => if Nat.eqb (closing h) ws then onClose h acc else acc)
      hs s in
  listeners s' `sublist_of` listeners s /\
  closeHandlers s' = closeHandlers s /\
  calls s' = calls s /\ sent s' = sent s.
Proof.
  induction hs as [|h hs IH]; intros s; cbn zeta.
  - cbn [fold_left]. repeat split. reflexivity.
  - cbn [fold_left].
    set (s1 := if Nat.eqb (closing h) ws then onClose h s else s).
    assert (H1 : listeners s1 `sublist_of` listeners s /\
                 closeHandlers s1 = closeHandlers s /\
                 calls s1 = calls s /\ sent s1 = sent s).
    { subst s1. destruct (Nat.eqb (closing h) ws);
        [apply onClose_fields | repeat split; reflexivity]. }
    destruct H1 as (L1 & H1 & C1 & S1).
    destruct (IH s1) as (L2 & H2 & C2 & S2).
    repeat split; try congruence. now transitivity (listeners s1).
Qed.

Lemma close_fields ws s :
  listeners (close ws s) `sublist_of` listeners s /\
  closeHandlers (close ws s) = closeHandlers s /\
  calls (close ws s) = calls s /\ sent (close ws s) = sent s.
Proof. apply closing_fields. Qed.

(** *** A subscription from [streamLogs] to [close] *)

Lemma registers_ofCall ev l e :
  registers ev l e = true -> ofCall (call l) e = true.
Proof.
  unfold registers, sameFunction, ofCall. intros H.
  apply andb_prop in H as [_ H]. now apply andb_prop in H as [H _].
Qed.

Lemma streamLogs_closer ws f s :
  closeHandlers (streamLogs ws f s)
  = (closeHandlers s ++ [closer (calls s) ws f])%list.
Proof. apply streamLogs_plumbing. Qed.

Lemma onClose_clears c ws f s :
  List.filter (ofCall c) (listeners s) `sublist_of` registrations c ws f ->
  List.filter (ofCall c) (listeners (onClose (closer c ws f) s)) = [].
Proof.
  intros Sub. unfold onClose, removeListener, closer.
  cbn [listeners withListeners logger meter].
  rewrite !filter_removeLast
    by (intros e R; apply registers_ofCall in R; exact R).
  revert Sub. generalize (List.filter (ofCall c) (listeners s)) as X.
  intros X Sub. unfold registrations in Sub.
  repeat match type of Sub with
  | _ `sublist_of` _ :: _ =>
      apply sublist_cons_r in Sub as [Sub | (? & -> & Sub)]
  | _ `sublist_of` [] => apply sublist_nil_r in Sub as ->
  end;
  repeat (cbn; unfold registers, sameFunction, logSender, metricsSender;
          cbn; rewrite ?Nat.eqb_refl);
  reflexivity.
Qed.

Lemma subscribed_after_stream ws f s :
  (forall ev l, In (ev, l) (listeners s) ->
     (call l < calls s)%nat /\ socket l <> ws) ->
  subscribed (calls s) ws f (streamLogs ws f s).
Proof.
  intros Fresh. destruct (streamLogs_plumbing ws f s) as (L & H & C).
  unfold subscribed. rewrite L, C, streamLogs_closer.
  repeat split.
  - rewrite List.filter_app.
    replace (List.filter (ofCall (calls s)) (listeners s)) with
      (@nil (EventName * Listener)).
    + cbn [app]. unfold registrations, ofCall, logSender, metricsSender.
      cbn [List.filter snd call]. rewrite Nat.eqb_refl. reflexivity.
    + symmetry. apply filter_none. intros [ev l] I.
      destruct (Fresh ev l I) as [Lt _]. unfold ofCall. cbn [snd].
      apply Nat.eqb_neq. lia.
  - intros ev l I S. apply in_app_or in I as [I|I].
    + destruct (Fresh ev l I) as [_ N]. contradiction.
    + unfold registrations in I. cbn [In] in I.
      repeat destruct I as [[= <- <-]|I]; try reflexivity. destruct I.
  - lia.
  - apply in_or_app. right. now left.
Qed.

Lemma subscribed_step c ws f s op :
  subscribed c ws f s -> (forall f', op <> doStream ws f') ->
  subscribed c ws f (step s op).
Proof.
  intros (Sub & Own & Lt & Hc) Other.
  assert (Q : forall s', quiet s s' -> subscribed c ws f s').
  { intros s' [P _]. unfold plumbing in P. injection P as P1 P2 P3.
    unfold subscribed. now rewrite P1, P2, P3. }
  destruct op as [req rnd now|id u now|id rsp err now|ws' f'|ws'|sid|sid now];
    cbn [step].
  - apply Q, startRequest_quiet.
  - apply Q, updateRequest_quiet.
  - apply Q, endRequest_quiet.
  - destruct (streamLogs_plumbing ws' f' s) as (L & H & C).
    assert (Nw : ws' <> ws) by (intros ->; now apply (Other f')).
    unfold subscribed. rewrite L, H, C. repeat split.
    + rewrite List.filter_app.
      replace (List.filter (ofCall c) (registrations (calls s) ws' f'))
        with (@nil (EventName * Listener)); [now rewrite app_nil_r|].
      unfold registrations, ofCall, logSender, metricsSender.
      cbn [List.filter snd call].
      replace (Nat.eqb (calls s) c) with false; [reflexivity|].
      symmetry. apply Nat.eqb_neq. lia.
    + intros ev l I S. apply in_app_or in I as [I|I]; [now apply (Own ev)|].
      unfold registrations in I. cbn [In] in I.
      repeat destruct I as [[= <- <-]|I]; contradiction.
    + lia.
    + apply in_or_app. now left.
  - destruct (close_fields ws' s) as (L & H & C & _).
    unfold subscribed. rewrite H, C. repeat split; try assumption.
    + etransitivity; [apply filter_sublist, L | exact Sub].
    + intros ev l I. apply (Own ev).
      apply list_elem_of_In. eapply elem_of_sublist; [|exact L].
      now apply list_elem_of_In.
  - apply Q, clearLogs_quiet.
  - apply Q, resetMetrics_quiet.
Qed.

Lemma subscribed_run c ws f ops : forall s,
  subscribed c ws f s -> (forall f', ~ In (doStream ws f') ops) ->
  subscribed c ws f (run ops s).
Proof.
  induction ops as [|op ops IH]; intros s S N; [exact S|].
  cbn [run fold_left]. apply IH.
  - apply subscribed_step; [exact S|]. intros f' ->. apply (N f'). now left.
  - intros f' I. apply (N f'). now right.
Qed.

Lemma close_unsubscribes c ws f s :
  subscribed c ws f s -> unsubscribed ws (close ws s).
Proof.
  intros (Sub & Own & _ & Hc).
  assert (Gone : List.filter (ofCall c) (listeners (close ws s)) = []).
  { unfold close. clear Own. revert Hc Sub.
    generalize (closeHandlers s) as hs.
    intros hs. revert s. induction hs as [|h hs IH]; intros s Hc Sub;
      [destruct Hc|].
    destruct Hc as [->|Hc].
    - cbn [fold_left]. change (closing (closer c ws f)) with ws.
      rewrite Nat.eqb_refl.
      pose proof (onClose_clears c ws f s Sub) as E.
      destruct (closing_fields ws hs (onClose (closer c ws f) s)) as (L & _).
      apply (filter_sublist (ofCall c)) in L. rewrite E in L.
      now apply sublist_nil_r in L.
    - cbn [fold_left]. apply IH; [assumption|].
      destruct (Nat.eqb (closing h) ws); [|exact Sub].
      destruct (onClose_fields h s) as (L & _).
      etransitivity; [apply filter_sublist, L | exact Sub]. }
  intros ev l I S.
  destruct (close_fields ws s) as (L & _).
  assert (I0 : In (ev, l) (listeners s)).
  { apply list_elem_of_In. eapply elem_of_sublist; [|exact L].
    now apply list_elem_of_In. }
  pose proof (Own ev l I0 S) as C.
  assert (F : In (ev, l) (List.filter (ofCall c) (listeners (close ws s)))).
  { apply List.filter_In. split; [exact I|]. unfold ofCall. cbn [snd].
    now apply Nat.eqb_eq. }
  rewrite Gone in F. destruct F.
Qed.

(** *** Frames *)

Lemma framesTo_grow ws s s' more :
  sent s' = (sent s ++ more)%list ->
  framesTo ws s'
  = (framesTo ws s
       ++ map snd (List.filter (fun '(ws', _) => Nat.eqb ws' ws) more))%list.
Proof.
  intros E. unfold framesTo. now rewrite E, List.filter_app, map_app.
Qed.

Lemma framesTo_same ws s s' more :
  sent s' = (sent s ++ more)%list ->
  (forall e, In e more -> fst e <> ws) ->
  framesTo ws s' = framesTo ws s.
Proof.
  intros E N. rewrite (framesTo_grow ws s s' more E).
  rewrite filter_none; [now rewrite app_nil_r|].
  intros [ws' fr] I. apply Nat.eqb_neq. exact (N _ I).
Qed.

Lemma step_grows s op : exists more, sent (step s op) = (sent s ++ more)%list.
Proof.
  assert (Q : forall s', quiet s s' ->
            exists more, sent s' = (sent s ++ more)%list).
  { intros s' [_ (more & E & _)]. now exists more. }
  destruct op as [req rnd now|id u now|id rsp err now|ws' f'|ws'|sid|sid now];
    cbn [step].
  - apply Q, startRequest_quiet.
  - apply Q, updateRequest_quiet.
  - apply Q, endRequest_quiet.
  - destruct (streamLogs_sent ws' f' s) as (tail & E & _). eauto.
  - destruct (close_fields ws' s) as (_ & _ & _ & E).
    exists []. now rewrite app_nil_r.
  - apply Q, clearLogs_quiet.
  - apply Q, resetMetrics_quiet.
Qed.

Lemma run_grows ops : forall s,
  exists more, sent (run ops s) = (sent s ++ more)%list.
Proof.
  induction ops as [|op ops IH]; intros s.
  - exists []. now rewrite app_nil_r.
  - cbn [run fold_left]. destruct (step_grows s op) as (m1 & E1).
    destruct (IH (step s op)) as (m2 & E2).
    exists (m1 ++ m2)%list. unfold run in E2. rewrite E2, E1.
    now rewrite app_assoc.
Qed.

Lemma unsubscribed_step ws s op :
  unsubscribed ws s -> (forall f', op <> doStream ws f') ->
  unsubscribed ws (step s op) /\
  framesTo ws (step s op) = framesTo ws s /\
  (calls s <= calls (step s op))%nat /\
  (forall ev l, In (ev, l) (listeners (step s op)) ->
     In (ev, l) (listeners s) \/
     call l = calls s /\ calls (step s op) = S (calls s)).
Proof.
  intros U Other.
  assert (Q : forall s', quiet s s' ->
            unsubscribed ws s' /\ framesTo ws s' = framesTo ws s /\
            (calls s <= calls s')%nat /\
            (forall ev l, In (ev, l) (listeners s') ->
               In (ev, l) (listeners s) \/
               call l = calls s /\ calls s' = S (calls s))).
  { intros s' [P (more & E & F)]. unfold plumbing in P.
    injection P as P1 P2 P3. unfold unsubscribed. rewrite P1, P3.
    split; [exact U|]. split; [|split; [lia|auto]].
    apply (framesTo_same ws s s' more E). intros [ws' fr] I. cbn [fst].
    destruct (F _ _ I) as (ev & l & Il & <-). exact (U ev l Il). }
  destruct op as [req rnd now|id u now|id rsp err now|ws' f'|ws'|sid|sid now];
    cbn [step].
  - apply Q, startRequest_quiet.
  - apply Q, updateRequest_quiet.
  - apply Q, endRequest_quiet.
  - destruct (streamLogs_plumbing ws' f' s) as (L & H & C).
    destruct (streamLogs_sent ws' f' s) as (tail & E & T).
    assert (Nw : ws' <> ws) by (intros ->; now apply (Other f')).
    unfold unsubscribed. rewrite L, C. repeat split.
    + intros ev l I. apply in_app_or in I as [I|I]; [exact (U ev l I)|].
      unfold registrations in I. cbn [In] in I.
      repeat destruct I as [[= <- <-]|I]; try exact Nw. destruct I.
    + apply (framesTo_same ws s _ _ E). intros e [<-|I]; [exact Nw|].
      now rewrite (T e I).
    + lia.
    + intros ev l I. apply in_app_or in I as [I|I]; [now left|right].
      split; [|exact C].
      unfold registrations in I. cbn [In] in I.
      repeat destruct I as [[= <- <-]|I]; try reflexivity. destruct I.
  - destruct (close_fields ws' s) as (L & H & C & E).
    assert (Keep : forall ev l, In (ev, l) (listeners (close ws' s)) ->
                                In (ev, l) (listeners s)).
    { intros ev l I. apply list_elem_of_In. eapply elem_of_sublist; [|exact L].
      now apply list_elem_of_In. }
    repeat split.
    + intros ev l I. exact (U ev l (Keep ev l I)).
    + unfold framesTo. now rewrite E.
    + lia.
    + intros ev l I. left. now apply Keep.
  - apply Q, clearLogs_quiet.
  - apply Q, resetMetrics_quiet.
Qed.

Lemma unsubscribed_run ws ops : forall s,
  unsubscribed ws s -> (forall f', ~ In (doStream ws f') ops) ->
  unsubscribed ws (run ops s) /\ framesTo ws (run ops s) = framesTo ws s.
Proof.
  induction ops as [|op ops IH]; intros s U N; [auto|].
  cbn [run fold_left].
  destruct (unsubscribed_step ws s op U) as (U1 & F1 & _).
  { intros f' ->. apply (N f'). now left. }
  destruct (IH (step s op) U1) as (U2 & F2).
  { intros f' I. apply (N f'). now right. }
  split; [exact U2|]. unfold run in F2. congruence.
Qed.

(** Every socket that no [streamLogs] call was made for has received
    no frame and has no listener, in every state the service can reach;
    and closures are numbered below the counter. *)
Lemma reachable_fresh ws ops :
  (forall f', ~ In (doStream ws f') ops) ->
  let s := run ops emptyService in
  (forall ev l, In (ev, l) (listeners s) ->
     (call l < calls s)%nat /\ socket l <> ws) /\
  framesTo ws s = [].
Proof.
  intros N. cbn zeta. split.
  - assert (G : forall ops s,
              (forall f', ~ In (doStream ws f') ops) ->
              (forall ev l, In (ev, l) (listeners s) ->
                 (call l < calls s)%nat /\ socket l <> ws) ->
              forall ev l, In (ev, l) (listeners (run ops s)) ->
                (call l < calls (run ops s))%nat /\ socket l <> ws).
    { clear ops N. induction ops as [|op ops IH]; intros s N K; [exact K|].
      cbn [run fold_left]. apply IH; [intros f' I; apply (N f'); now right|].
      destruct (unsubscribed_step ws s op) as (U1 & _ & C1 & L1).
      { intros ev l I. now apply (K ev l). }
      { intros f' ->. apply (N f'). now left. }
      intros ev l I. split; [|exact (U1 ev l I)].
      destruct (L1 ev l I) as [I0|[E C]]; [destruct (K ev l I0)|]; lia. }
    apply G; [exact N|]. intros ev l [].
  - destruct (unsubscribed_run ws ops emptyService) as (_ & F);
      [intros ev l [] | exact N |].
    exact F.
Qed.

(** *** The initial batch *)

Lemma sortBy_Forall {A} (cmp : A -> A -> Z) (Q : A -> Prop) l :
  Forall Q l -> Forall Q (sortBy cmp l).
Proof.
  assert (I : forall x k, Q x -> Forall Q k -> Forall Q (insertBy cmp x k)).
  { intros x k Qx. induction 1 as [|y k Qy F IH]; cbn [insertBy].
    - now repeat constructor.
    - destruct (cmp x y <=? 0); now repeat constructor. }
  induction 1 as [|x l Qx F IH]; [constructor|].
  cbn [sortBy fold_right]. now apply I.
Qed.

Lemma getRecentRequests_batch sessionId limit s :
  (length (getRecentRequests sessionId limit s) <= limit)%nat /\
  Forall (fun r => passes sessionId (RequestLog.sessionId r) = true)
    (getRecentRequests sessionId limit s).
Proof.
  unfold getRecentRequests. split; [apply firstn_le_length|].
  apply Forall_take, sortBy_Forall, Forall_forall.
  intros r I. apply list_elem_of_In in I. now apply List.filter_In in I.
Qed.

(** C9.  Take a socket that has no listener and has received no frame,
    in a service whose closures are numbered below its counter (every
    state reachable from the empty service is one, [reachable_fresh]),
    and let [streamLogs] be called for it once.  Whatever the service
    does afterwards, the frames the socket has received begin with the
    "initial" frame, which carries at most 50 entries, all passing the
    session filter.  When the socket's close event fires, no listener
    sending to it remains, and whatever the service does after that, the
    socket receives no further frame. *)
Theorem subscriber_frames (s0 : Service) (ws : nat)
    (sessionId : option string) (before after : list Op) :
  (forall ev l, In (ev, l) (listeners s0) ->
     (call l < calls s0)%nat /\ socket l <> ws) ->
  framesTo ws s0 = [] ->
  (forall f, ~ In (doStream ws f) (before ++ after)) ->
  let s1 := run before (streamLogs ws sessionId s0) in
  let s2 := run after (close ws s1) in
  (exists rest,
     framesTo ws s1 = initial (getRecentRequests sessionId 50 s0) :: rest) /\
  (length (getRecentRequests sessionId 50 s0) <= 50)%nat /\
  Forall (fun r => passes sessionId (RequestLog.sessionId r) = true)
    (getRecentRequests sessionId 50 s0) /\
  unsubscribed ws (close ws s1) /\
  framesTo ws s2 = framesTo ws s1.
Proof.
  intros Fresh Empty N. cbn zeta.
  assert (Nb : forall f, ~ In (doStream ws f) before)
    by (intros f I; apply (N f), in_or_app; now left).
  assert (Na : forall f, ~ In (doStream ws f) after)
    by (intros f I; apply (N f), in_or_app; now right).
  set (s1 := run before (streamLogs ws sessionId s0)).
  assert (S1 : subscribed (calls s0) ws sessionId s1).
  { apply subscribed_run; [|exact Nb]. now apply subscribed_after_stream. }
  pose proof (close_unsubscribes _ _ _ _ S1) as U.
  destruct (getRecentRequests_batch sessionId 50 s0) as [Len Pass].
  split; [|split; [exact Len|split; [exact Pass|split; [exact U|]]]].
  - destruct (streamLogs_sent ws sessionId s0) as (tail & E & _).
    destruct (run_grows before (streamLogs ws sessionId s0)) as (more & E').
    fold s1 in E'. rewrite E, <- app_assoc in E'.
    rewrite (framesTo_grow ws s0 s1 _ E'), Empty. cbn [app].
    cbn [List.filter app]. rewrite Nat.eqb_refl. cbn [map snd]. eauto.
  - destruct (unsubscribed_run ws after (close ws s1) U Na) as (_ & F).
    rewrite F. destruct (close_fields ws s1) as (_ & _ & _ & E).
    unfold framesTo. now rewrite E.
Qed.

End MonitoringFacts.

(** ** The monitoring theorems at concrete runs *)

Section MonitoringExamples.
Import JsString JsNumber Monitoring.
Local Open Scope Z_scope.
Local Existing Instance epochDay.

(** An unknown id on the empty service. *)
Lemma unknown_request_is_ignored_witness :
  updateRequest "req_1000_a" noUpdates 1100 emptyService = emptyService /\
  endRequest "req_1000_a" None None 1100 emptyService = emptyService.
Proof.
  apply (unknown_request_is_ignored "req_1000_a" emptyService).
  reflexivity.
Defined.

(** One subscriber on socket 7, a request started before the socket
    closes and ended after. *)
Lemma subscriber_frames_witness :
  let s1 := run [doStart sampleRequest "a" 1000]
              (streamLogs 7 (Some "fc92274d") emptyService) in
  let s2 := run [doEnd "req_1000_a" None None 1100] (close 7 s1) in
  (exists rest,
     framesTo 7 s1
     = initial (getRecentRequests (Some "fc92274d") 50 emptyService) :: rest)
  /\ framesTo 7 s2 = framesTo 7 s1.
Proof.
  destruct (subscriber_frames emptyService 7 (Some "fc92274d")
              [doStart sampleRequest "a" 1000]
              [doEnd "req_1000_a" None None 1100])
    as (I & _ & _ & _ & F).
  - intros ev l [].
  - reflexivity.
  - intros f [H|[H|[]]]; discriminate.
  - split; [exact I | exact F].
Defined.

End MonitoringExamples.

Section AverageFacts.
Import Monitoring.

(** Where the running mean is right, rounding apart: as long as every
    request accounted for a session is a success with a non-zero
    duration, average times count is the sum of the durations. *)
Lemma account_success_mean request m (total : Q) (d : Z) :
  (0 <= SessionMetrics.requestCount m)%Z ->
  (SessionMetrics.averageResponseTime m
     * inject_Z (SessionMetrics.requestCount m) == total)%Q ->
  RequestLog.status request = Status.success ->
  RequestLog.duration request = Some d -> d <> 0%Z ->
  (SessionMetrics.averageResponseTime (account request m)
     * inject_Z (SessionMetrics.requestCount (account request m))
   == total + inject_Z d)%Q.
Proof.
  intros C T S D N. unfold account.
  cbn [SessionMetrics.averageResponseTime SessionMetrics.requestCount].
  rewrite S, D. cbn [someNumber Status.eqb].
  replace (d =? 0)%Z with false by (symmetry; now apply Z.eqb_neq).
  replace (SessionMetrics.requestCount m + 1 - 1)%Z
    with (SessionMetrics.requestCount m) by lia.
  rewrite T. field.
  intros E. unfold Qeq in E. cbn in E. lia.
Qed.

(** Where it goes wrong: a failed request leaves the average alone and
    still adds one to the count the next success divides by. *)
Lemma account_error_count request m :
  RequestLog.status request = Status.error ->
  SessionMetrics.averageResponseTime (account request m)
  = SessionMetrics.averageResponseTime m /\
  SessionMetrics.requestCount (account request m)
  = (SessionMetrics.requestCount m + 1)%Z.
Proof.
  intros S. unfold account.
  cbn [SessionMetrics.averageResponseTime SessionMetrics.requestCount].
  rewrite S. cbn [Status.eqb].
  now destruct (someNumber (RequestLog.duration request)).
Qed.

(** C2, at the input that separates the code from the claim: one request
    of a session fails and a second one succeeds after 300 ms.  The
    stored average is 150, because the running mean divides by
    [requestCount], which counted the failed request too, while the mean
    of the successful durations is 300. *)
Theorem average_counts_failed_requests :
  let s := @run epochDay failureThenSuccess emptyService in
  exists m,
    getSessionMetrics "fc92274d" s = Some m /\
    SessionMetrics.requestCount m = 2%Z /\
    (SessionMetrics.averageResponseTime m == 150)%Q /\
    successDurations "fc92274d" (mapValues (requests s)) = [300%Z] /\
    (batchMean "fc92274d" s == 300)%Q /\
    ~ (SessionMetrics.averageResponseTime m == batchMean "fc92274d" s)%Q.
Proof.
  eexists. split; [vm_compute; reflexivity|].
  repeat split; try (vm_compute; reflexivity).
  vm_compute. discriminate.
Qed.

(** The example of the specification holds: three successes of 100, 200
    and 300 ms and nothing else give the average 200, the batch mean. *)
Example three_successes_average :
  let s := @run epochDay threeSuccesses emptyService in
  exists m,
    getSessionMetrics "fc92274d" s = Some m /\
    (SessionMetrics.averageResponseTime m == 200)%Q /\
    (batchMean "fc92274d" s == 200)%Q.
Proof.
  eexists. split; [vm_compute; reflexivity|].
  split; vm_compute; reflexivity.
Qed.

End AverageFacts.

(** ** The maps of the monitoring service *)

Section MapFacts.
Import Monitoring.
Context {V : Type}.
Implicit Types (m : list (string * V)) (k : string) (v : V).

Lemma mapGet_In k m v : mapGet k m = Some v -> In (k, v) m.
Proof.
  induction m as [|[k' v'] m IH]; simpl; [discriminate|].
  destruct (String.eqb_spec k' k) as [->|]; [intros [= ->]; now left|].
  intros H. right. auto.
Qed.

Lemma In_mapGet k m v :
  NoDup (map fst m) -> In (k, v) m -> mapGet k m = Some v.
Proof.
  induction m as [|[k' v'] m IH]; simpl; [tauto|].
  intros ND [E|Hin].
  - injection E as -> ->. now rewrite String.eqb_refl.
  - apply NoDup_cons in ND as [Hk ND].
    destruct (String.eqb_spec k' k) as [->|]; [|auto].
    exfalso. apply Hk. apply list_elem_of_In.
    change k with (fst (k, v)). now apply in_map.
Qed.

Lemma mapSet_present_keys k v m x :
  mapGet k m = Some x -> map fst (mapSet k v m) = map fst m.
Proof.
  induction m as [|[k' v'] m IH]; simpl; [discriminate|].
  destruct (String.eqb_spec k' k) as [->|]; [reflexivity|].
  intros H. simpl. f_equal. auto.
Qed.

Lemma mapSet_keys k v m :
  map fst (mapSet k v m)
  = match mapGet k m with
    | Some _ => map fst m
    | None => (map fst m ++ [k])%list
    end.
Proof.
  destruct (mapGet k m) eqn:E.
  - eapply mapSet_present_keys; eauto.
  - rewrite mapSet_fresh by assumption. now rewrite map_app.
Qed.

Lemma mapSet_NoDup k v m :
  NoDup (map fst m) -> NoDup (map fst (mapSet k v m)).
Proof.
  intros ND. rewrite mapSet_keys. destruct (mapGet k m) eqn:E; [assumption|].
  apply NoDup_app. split; [assumption|]. split.
  - intros x Hx ->%list_elem_of_singleton.
    apply mapGet_None in E. apply E. now apply list_elem_of_In.
  - apply NoDup_singleton.
Qed.

Lemma mapSet_length k v m :
  (length (mapSet k v m) <= S (length m))%nat.
Proof.
  rewrite <- (length_map fst (mapSet k v m)), mapSet_keys.
  destruct (mapGet k m); rewrite ?length_app, length_map; simpl; lia.
Qed.

Lemma In_mapSet k v m k' v' :
  In (k', v') (mapSet k v m) -> (k' = k /\ v' = v) \/ In (k', v') m.
Proof.
  induction m as [|[k0 v0] m IH]; simpl.
  - intros [[= <- <-]|[]]. now left.
  - destruct (String.eqb_spec k0 k) as [->|]; simpl.
    + intros [[= <- <-]|H]; [now left|right; now right].
    + intros [E|H]; [right; now left|].
      destruct (IH H) as [?|?]; [now left|right; now right].
Qed.

Lemma mapGet_mapSet k v m : mapGet k (mapSet k v m) = Some v.
Proof.
  induction m as [|[k0 v0] m IH]; simpl.
  - now rewrite String.eqb_refl.
  - destruct (String.eqb_spec k0 k) as [->|N]; simpl.
    + now rewrite String.eqb_refl.
    + apply String.eqb_neq in N. now rewrite N.
Qed.

Lemma mapGet_mapSet_other k v m k' :
  k' <> k -> mapGet k' (mapSet k v m) = mapGet k' m.
Proof.
  intros N. induction m as [|[k0 v0] m IH]; simpl.
  - destruct (String.eqb_spec k k'); congruence.
  - destruct (String.eqb_spec k0 k) as [->|N0]; simpl.
    + destruct (String.eqb_spec k k'); congruence.
    + now rewrite IH.
Qed.

Lemma mapDelete_sublist k m : mapDelete k m `sublist_of` m.
Proof.
  induction m as [|[k0 v0] m IH]; simpl; [constructor|].
  destruct (String.eqb k0 k); [now apply sublist_cons|now apply sublist_skip].
Qed.

Lemma mapDelete_length k m v :
  mapGet k m = Some v -> S (length (mapDelete k m)) = length m.
Proof.
  induction m as [|[k0 v0] m IH]; simpl; [discriminate|].
  destruct (String.eqb k0 k); [reflexivity|].
  intros H. simpl. f_equal. auto.
Qed.

Lemma In_mapDelete k m k' v' :
  k' <> k -> In (k', v') m -> In (k', v') (mapDelete k m).
Proof.
  intros N. induction m as [|[k0 v0] m IH]; simpl; [tauto|].
  destruct (String.eqb_spec k0 k) as [->|N0].
  - intros [[= <- <-]|H]; [congruence|assumption].
  - intros [E|H]; [now left|right; auto].
Qed.

Lemma mapGet_mapDelete k m :
  NoDup (map fst m) -> mapGet k (mapDelete k m) = None.
Proof.
  induction m as [|[k0 v0] m IH]; simpl; [reflexivity|].
  intros [Hk ND]%NoDup_cons.
  destruct (String.eqb_spec k0 k) as [->|N0].
  - apply mapGet_None. intros H. apply Hk. now apply list_elem_of_In.
  - simpl. apply String.eqb_neq in N0. rewrite N0. auto.
Qed.

Lemma mapGet_mapDelete_other k m k' :
  k' <> k -> mapGet k' (mapDelete k m) = mapGet k' m.
Proof.
  intros N. induction m as [|[k0 v0] m IH]; simpl; [reflexivity|].
  destruct (String.eqb_spec k0 k) as [->|N0]; simpl.
  - destruct (String.eqb_spec k k'); congruence.
  - now rewrite IH.
Qed.

Lemma sublist_keys (m m' : list (string * V)) :
  m `sublist_of` m' -> map fst m `sublist_of` map fst m'.
Proof.
  induction 1; simpl; [constructor|now apply sublist_skip|now apply sublist_cons].
Qed.

End MapFacts.

(** ** [Array.prototype.sort]: the result is a rearrangement, ordered by
    the comparator *)

Section SortFacts.
Import Monitoring.
Local Open Scope Z_scope.
Context {A : Type} (cmp : A -> A -> Z).

Lemma insertBy_perm x l : Permutation (x :: l) (insertBy cmp x l).
Proof.
  induction l as [|y l IH]; simpl; [reflexivity|].
  destruct (cmp x y <=? 0); [reflexivity|].
  etransitivity; [apply perm_swap|]. now apply perm_skip.
Qed.

Lemma sortBy_perm l : Permutation l (sortBy cmp l).
Proof.
  induction l as [|x l IH]; simpl; [constructor|].
  etransitivity; [apply perm_skip, IH|apply insertBy_perm].
Qed.

Lemma sortBy_length l : length (sortBy cmp l) = length l.
Proof. symmetry. apply Permutation_length, sortBy_perm. Qed.

Hypothesis total : forall a b, cmp a b <= 0 \/ cmp b a <= 0.
Hypothesis trans : forall a b c, cmp a b <= 0 -> cmp b c <= 0 -> cmp a c <= 0.

Lemma insertBy_orders x l :
  StronglySorted (fun a b => cmp a b <= 0) l ->
  StronglySorted (fun a b => cmp a b <= 0) (insertBy cmp x l).
Proof.
  induction 1 as [|y l S IH F]; simpl; [repeat constructor|].
  destruct (Z.leb_spec (cmp x y) 0) as [L|G].
  - constructor; [now constructor|]. constructor; [assumption|].
    eapply Forall_impl; [exact F|]. intros z. cbv beta. eauto.
  - constructor; [assumption|].
    apply Forall_forall. intros z Hz.
    apply list_elem_of_In in Hz.
    apply (Permutation_in _ (Permutation_sym (insertBy_perm x l))) in Hz.
    destruct Hz as [<-|Hz].
    + destruct (total x y); [lia|assumption].
    + rewrite Forall_forall in F. apply F. now apply list_elem_of_In.
Qed.

Lemma sortBy_orders l :
  StronglySorted (fun a b => cmp a b <= 0) (sortBy cmp l).
Proof.
  induction l as [|x l IH]; simpl; [constructor|now apply insertBy_orders].
Qed.

End SortFacts.

(** ** What the operations of the service leave alone *)

Section StoreFacts.
Import JsString JsNumber Monitoring Startup.
Local Open Scope Z_scope.
Context {cal : Calendar}.

Lemma emit_store ev p s :
  requests (emit ev p s) = requests s /\ books (emit ev p s) = books s /\
  appended (emit ev p s) = appended s.
Proof.
  pose proof (emit_inside ev p s) as H. unfold inside in H. unfold books.
  injection H. intros. repeat split; congruence.
Qed.

Lemma persistRequestLog_store r now s :
  requests (persistRequestLog r now s) = requests s /\
  books (persistRequestLog r now s) = books s /\
  appended (persistRequestLog r now s)
  = (if diskFull s then appended s
     else (appended s ++ [(dateStr now +:+ ".jsonl", r)])%list).
Proof.
  unfold persistRequestLog, books.
  destruct (diskFull s) eqn:E; cbn; rewrite ?E; repeat split.
Qed.

Lemma archiving_store now old : forall s,
  let s' :=
    fold_left
      (fun acc '(id, request) =>
         let acc' := persistRequestLog request now acc in
         withRequests (mapDelete id (requests acc')) acc')
      old s in
  requests s' = deleteAll old (requests s) /\ books s' = books s.
Proof.
  induction old as [|[id r] old IH]; intros s; [now split|].
  cbn [fold_left]. cbv zeta in IH |- *.
  destruct (IH (withRequests
                  (mapDelete id (requests (persistRequestLog r now s)))
                  (persistRequestLog r now s))) as [R B].
  rewrite R, B. destruct (persistRequestLog_store r now s) as (R' & B' & _).
  cbn [requests withRequests]. rewrite R'. split; [reflexivity|].
  rewrite <- B'. reflexivity.
Qed.

Lemma startRequest_store req random now s :
  let id := generateRequestId now random in
  let m := mapSet id (newRequestLog req id now) (requests s) in
  let s' := snd (startRequest req random now s) in
  requests s'
  = (if Z.of_nat (length m) >? maxLogsInMemory
     then deleteAll (firstn 100 (sortBy byTimestamp m)) m else m) /\
  books s' = books s.
Proof.
  cbv zeta. unfold startRequest. cbn [snd].
  set (id := generateRequestId now random).
  set (s1 := withRequests _ s).
  destruct (emit_store request_start (aLog (newRequestLog req id now)) s1)
    as (R & B & _).
  rewrite R. cbn [requests s1 withRequests].
  destruct (_ >? _).
  - unfold archiveOldLogs.
    destruct (archiving_store now
                (firstn 100 (sortBy byTimestamp
                   (requests (emit request_start
                                (aLog (newRequestLog req id now)) s1))))
                (emit request_start (aLog (newRequestLog req id now)) s1))
      as [R' B'].
    cbv zeta in R', B'. rewrite R', B', R, B. now split.
  - rewrite R, B. now split.
Qed.

Lemma persistMetrics_store now s :
  requests (persistMetrics now s) = requests s /\
  appended (persistMetrics now s) = appended s /\
  sessionMetrics (persistMetrics now s) = sessionMetrics s /\
  diskFull (persistMetrics now s) = diskFull s /\
  metricsFile (persistMetrics now s)
  = (if diskFull s then metricsFile s
     else Some (mapValues (sessionMetrics s), now)).
Proof.
  unfold persistMetrics. destruct (diskFull s) eqn:E; cbn; rewrite ?E; auto.
Qed.

Lemma updateSessionMetrics_store r now s :
  let sid := RequestLog.sessionId r in
  let m0 :=
    match mapGet sid (sessionMetrics s) with
    | Some m => m
    | None => freshMetrics sid now
    end in
  let s' := updateSessionMetrics r now s in
  requests s' = requests s /\ appended s' = appended s /\
  sessionMetrics s' = mapSet sid (account r m0) (sessionMetrics s) /\
  diskFull s' = diskFull s /\
  metricsFile s'
  = (if diskFull s then metricsFile s
     else Some (mapValues (sessionMetrics s'), now)).
Proof.
  cbv zeta. unfold updateSessionMetrics.
  set (m1 := account r _). set (s1 := withMetrics _ s).
  destruct (emit_store metrics_update (aMetrics m1) (persistMetrics now s1))
    as (R & B & Ap).
  unfold books in B. injection B as M F D.
  destruct (persistMetrics_store now s1) as (R' & Ap' & M' & D' & F').
  rewrite R, Ap, M, F, D, R', Ap', M', D', F'. repeat split.
Qed.

Lemma updateSessionMetrics_books r now s1 s :
  books s1 = books s ->
  books (updateSessionMetrics r now s1) = books (updateSessionMetrics r now s).
Proof.
  unfold books at 1 2. intros [= M F D].
  destruct (updateSessionMetrics_store r now s1) as (_ & _ & M1 & D1 & F1).
  destruct (updateSessionMetrics_store r now s) as (_ & _ & M0 & D0 & F0).
  cbv zeta in *. unfold books.
  rewrite F1, F0, M1, M0, D1, D0, M, F, D. reflexivity.
Qed.

Lemma updateRequest_store id u now s r :
  mapGet id (requests s) = Some r ->
  let r' := assign r u in
  let s' := updateRequest id u now s in
  requests s' = mapSet id r' (requests s) /\
  books s'
  = (if truthy (RequestLog.sessionId r')
     then books (updateSessionMetrics r' now s) else books s) /\
  appended s'
  = (if terminal (u_status u) && negb (diskFull s)
     then (appended s ++ [(dateStr now +:+ ".jsonl", r')])%list
     else appended s).
Proof.
  intros G. cbv zeta. unfold updateRequest. rewrite G.
  set (r' := assign r u). set (s1 := withRequests _ s).
  set (s2 := if truthy _ then _ else _).
  assert (requests s2 = requests s1 /\ appended s2 = appended s /\
          books s2 = if truthy (RequestLog.sessionId r')
                     then books (updateSessionMetrics r' now s) else books s)
    as (R2 & A2 & B2).
  { subst s2. destruct (truthy _); [|now repeat split].
    destruct (updateSessionMetrics_store r' now s1) as (R & Ap & _).
    cbv zeta in *. repeat split; try assumption.
    now apply updateSessionMetrics_books. }
  assert (diskFull s2 = diskFull s) as D2.
  { assert (snd (books s2) = diskFull s) as E; [|exact E].
    rewrite B2. destruct (truthy _); [|reflexivity].
    now destruct (updateSessionMetrics_store r' now s) as (_ & _ & _ & D & _). }
  destruct (emit_store request_update (aLog r') s2) as (R & B & Ap).
  assert (diskFull (emit request_update (aLog r') s2) = diskFull s) as D3.
  { assert (snd (books (emit request_update (aLog r') s2)) = diskFull s)
      as E; [|exact E]. now rewrite B. }
  destruct (terminal (u_status u)); cbn [andb].
  - destruct (persistRequestLog_store r' now
                (emit request_update (aLog r') s2)) as (R' & B' & A').
    rewrite R', B', A', D3, R, B, Ap, R2, B2, A2.
    repeat split. now destruct (diskFull s).
  - rewrite R, B, Ap, R2, B2, A2. repeat split.
Qed.

Lemma endRequest_store id response error now s r :
  mapGet id (requests s) = Some r ->
  let u := endUpdates r response error now in
  let s' := endRequest id response error now s in
  requests s' = requests (updateRequest id u now s) /\
  books s' = books (updateRequest id u now s) /\
  appended s' = appended (updateRequest id u now s).
Proof.
  intros G. cbv zeta. unfold endRequest. rewrite G. apply emit_store.
Qed.

Lemma streamLogs_store ws f s :
  requests (streamLogs ws f s) = requests s /\
  books (streamLogs ws f s) = books s /\
  appended (streamLogs ws f s) = appended s.
Proof.
  unfold streamLogs, books, getSessionMetrics.
  destruct (someText f) as [sid|]; [destruct (mapGet _ _)|];
    cbn; now repeat split.
Qed.

Lemma closing_store ws hs : forall s,
  let s' :=
    fold_left
      (fun acc h => if Nat.eqb (closing h) ws then onClose h acc else acc)
      hs s in
  requests s' = requests s /\ books s' = books s /\
  appended s' = appended s.
Proof.
  induction hs as [|h hs IH]; intros s; [now repeat split|].
  cbn [fold_left]. cbv zeta in IH |- *.
  destruct (IH (if Nat.eqb (closing h) ws then onClose h s else s))
    as (R & B & Ap).
  rewrite R, B, Ap. now destruct (Nat.eqb _ _).
Qed.

Lemma close_store ws s :
  requests (close ws s) = requests s /\ books (close ws s) = books s /\
  appended (close ws s) = appended s.
Proof. apply closing_store. Qed.

Lemma clearLogs_store sid s :
  books (clearLogs sid s) = books s /\
  appended (clearLogs sid s) = appended s /\
  requests (clearLogs sid s)
  = match someText sid with
    | Some x =>
        List.filter
          (fun '(_, r) => negb (String.eqb (RequestLog.sessionId r) x))
          (requests s)
    | None => []
    end.
Proof.
  unfold clearLogs.
  destruct (emit_store logs_cleared (aSession sid)
              (withRequests
                 match someText sid with
                 | Some x =>
                     List.filter
                       (fun '(_, r) =>
                          negb (String.eqb (RequestLog.sessionId r) x))
                       (requests s)
                 | None => []
                 end s)) as (R & B & Ap).
  rewrite R, B, Ap. now repeat split.
Qed.

Lemma resetMetrics_store sid now s :
  let kept :=
    match someText sid with
    | Some x => mapDelete x (sessionMetrics s)
    | None => []
    end in
  let s' := resetMetrics sid now s in
  requests s' = requests s /\ appended s' = appended s /\
  sessionMetrics s' = kept /\ diskFull s' = diskFull s /\
  metricsFile s'
  = (if diskFull s then metricsFile s else Some (mapValues kept, now)).
Proof.
  cbv zeta. unfold resetMetrics.
  set (kept := match someText sid with Some _ => _ | None => _ end).
  destruct (emit_store metrics_reset (aSession sid)
              (persistMetrics now (withMetrics kept s))) as (R & B & Ap).
  unfold books in B. injection B as M F D.
  destruct (persistMetrics_store now (withMetrics kept s))
    as (R' & Ap' & M' & D' & F').
  rewrite R, Ap, M, F, D, R', Ap', M', D', F'. repeat split.
Qed.

End StoreFacts.

(** ** What every state of the service keeps *)

Section InvariantFacts.
Import JsString JsNumber Monitoring Startup.
Local Open Scope Z_scope.
Context {cal : Calendar}.

Lemma listFilter_sublist {A} (q : A -> bool) l : List.filter q l `sublist_of` l.
Proof.
  induction l as [|x l IH]; simpl; [constructor|].
  destruct (q x); [now apply sublist_skip|now apply sublist_cons].
Qed.

Lemma deleteAll_bounds old : forall m,
  NoDup (map fst m) -> NoDup (map fst old) ->
  (forall e, In e old -> In e m) ->
  NoDup (map fst (deleteAll old m)) /\
  (length (deleteAll old m) + length old = length m)%nat.
Proof.
  induction old as [|[k v] old IH]; intros m ND NO Hin.
  - split; [assumption|cbn; lia].
  - cbn in NO. apply NoDup_cons in NO as [Hk NO].
    assert (mapGet k m = Some v) as G
      by (apply In_mapGet; [assumption|apply Hin; now left]).
    destruct (IH (mapDelete k m)) as [ND' L].
    + eapply sublist_NoDup; [exact ND|]. apply sublist_keys, mapDelete_sublist.
    + assumption.
    + intros [k' v'] He. apply In_mapDelete.
      * intros ->. apply Hk. apply list_elem_of_In.
        change k with (fst (k, v')). now apply in_map.
      * apply Hin. now right.
    + pose proof (mapDelete_length k m v G). unfold deleteAll in *.
      cbn [fold_left fst length]. split; [assumption|lia].
Qed.

Lemma archive_bounds (m : list (string * RequestLog.t)) :
  NoDup (map fst m) ->
  let old := firstn 100 (sortBy byTimestamp m) in
  NoDup (map fst (deleteAll old m)) /\
  (length (deleteAll old m) + Nat.min 100 (length m) = length m)%nat.
Proof.
  intros ND old.
  assert (old `sublist_of` sortBy byTimestamp m) as Sub by apply sublist_take.
  destruct (deleteAll_bounds old m) as [ND' L].
  - assumption.
  - eapply sublist_NoDup; [|apply sublist_keys, Sub].
    eapply NoDup_Permutation_proper; [|exact ND].
    symmetry. apply Permutation_map, sortBy_perm.
  - intros e He. apply (Permutation_in _ (Permutation_sym (sortBy_perm byTimestamp m))).
    apply list_elem_of_In. eapply elem_of_sublist; [|exact Sub].
    now apply list_elem_of_In.
  - split; [assumption|]. rewrite <- L at 2. f_equal.
    unfold old. now rewrite length_take, sortBy_length.
Qed.

Lemma bounded_step s op : bounded s -> bounded (step s op).
Proof.
  unfold bounded. change (Z.to_nat maxLogsInMemory) with 1000%nat.
  intros [ND L]. destruct op as [req random now|id u now|id response error now
                                |ws f|ws|sid|sid now]; cbn [step].
  - destruct (startRequest_store req random now s) as [R _].
    cbv zeta in R. rewrite R.
    set (m := mapSet _ _ (requests s)).
    assert (NoDup (map fst m)) as NDm by now apply mapSet_NoDup.
    pose proof (mapSet_length (generateRequestId now random)
                  (newRequestLog req (generateRequestId now random) now)
                  (requests s)) as Lm. fold m in Lm.
    destruct (Z.gtb_spec (Z.of_nat (length m)) maxLogsInMemory) as [G|G];
      unfold maxLogsInMemory in G.
    + destruct (archive_bounds m NDm) as [ND' L']. split; [assumption|lia].
    + split; [assumption|lia].
  - destruct (mapGet id (requests s)) as [r|] eqn:G.
    + destruct (updateRequest_store id u now s r G) as [R _].
      cbv zeta in R. rewrite R.
      rewrite <- (length_map fst (mapSet _ _ _)),
        (mapSet_present_keys _ _ _ _ G), length_map. now split.
    + unfold updateRequest. rewrite G. now split.
  - destruct (mapGet id (requests s)) as [r|] eqn:G.
    + destruct (endRequest_store id response error now s r G) as [R' _].
      destruct (updateRequest_store id (endUpdates r response error now)
                  now s r G) as [R _].
      cbv zeta in R, R'. rewrite R', R.
      rewrite <- (length_map fst (mapSet _ _ _)),
        (mapSet_present_keys _ _ _ _ G), length_map. now split.
    + unfold endRequest. rewrite G. now split.
  - destruct (streamLogs_store ws f s) as [-> _]. now split.
  - destruct (close_store ws s) as [-> _]. now split.
  - destruct (clearLogs_store sid s) as (_ & _ & ->).
    destruct (someText sid) as [x|].
    + split.
      * eapply sublist_NoDup; [exact ND|]. apply sublist_keys, listFilter_sublist.
      * etransitivity; [|exact L]. apply sublist_length, listFilter_sublist.
    + split; [constructor|cbn; lia].
  - destruct (resetMetrics_store sid now s) as [R _]. cbv zeta in R.
    rewrite R. now split.
Qed.

Lemma bounded_run ops : forall s, bounded s -> bounded (run ops s).
Proof.
  induction ops as [|op ops IH]; intros s B; [exact B|].
  apply IH, bounded_step, B.
Qed.

Lemma ledger_books s s' : books s' = books s -> ledger s -> ledger s'.
Proof.
  unfold books. intros [= M F D]. unfold ledger, synced.
  now rewrite M, F, D.
Qed.

Lemma account_counted r m :
  0 <= SessionMetrics.requestCount m ->
  0 <= SessionMetrics.errors m <= SessionMetrics.requestCount m ->
  counted (account r m) /\
  SessionMetrics.sessionId (account r m) = SessionMetrics.sessionId m.
Proof.
  intros C E. unfold counted, account. cbn.
  destruct (Status.eqb _ Status.error); repeat split; lia.
Qed.

Lemma ledger_update r now s : ledger s -> ledger (updateSessionMetrics r now s).
Proof.
  intros ((ND & K) & C & D & Sy).
  destruct (updateSessionMetrics_store r now s) as (_ & _ & M & D' & F).
  cbv zeta in M, F. rewrite D in F.
  set (sid := RequestLog.sessionId r) in *.
  set (m0 := match mapGet sid (sessionMetrics s) with
             | Some m => m
             | None => freshMetrics sid now
             end) in *.
  assert (counted (account r m0) /\
          SessionMetrics.sessionId (account r m0) = sid) as [C1 K1].
  { destruct (mapGet sid (sessionMetrics s)) as [m|] eqn:G; subst m0.
    - apply mapGet_In in G. destruct (C _ _ G) as [C0 E0].
      destruct (account_counted r m) as [A B]; [lia|lia|].
      split; [exact A|]. rewrite B. now apply K.
    - apply account_counted; cbn; lia. }
  unfold ledger, keyed, synced. rewrite F, M, D', D.
  split; [split|split; [|split; reflexivity]].
  - now apply mapSet_NoDup.
  - intros k m [[-> ->]|Hin]%In_mapSet; [assumption|now apply K].
  - intros k m [[-> ->]|Hin]%In_mapSet; [apply C1|apply (C _ _ Hin)].
Qed.

Lemma ledger_reset sid now s : ledger s -> ledger (resetMetrics sid now s).
Proof.
  intros ((ND & K) & C & D & Sy).
  destruct (resetMetrics_store sid now s) as (_ & _ & M & D' & F).
  cbv zeta in M, F. rewrite D in F.
  unfold ledger, keyed, synced. rewrite F, M, D', D.
  destruct (someText sid) as [x|].
  - pose proof (mapDelete_sublist x (sessionMetrics s)) as Sub.
    assert (forall k m, In (k, m) (mapDelete x (sessionMetrics s)) ->
                        In (k, m) (sessionMetrics s)) as Hin.
    { intros k m H. apply list_elem_of_In.
      eapply elem_of_sublist; [|exact Sub]. now apply list_elem_of_In. }
    split; [split|split; [|split; reflexivity]].
    + eapply sublist_NoDup; [exact ND|]. now apply sublist_keys.
    + intros k m H. now apply K, Hin.
    + intros k m H. now apply (C k m), Hin.
  - split; [split|split; [|split; reflexivity]];
      [constructor|intros k m []|intros k m []].
Qed.

Lemma ledger_step s op : ledger s -> ledger (step s op).
Proof.
  intros Le. destruct op as [req random now|id u now|id response error now
                            |ws f|ws|sid|sid now]; cbn [step].
  - eapply ledger_books; [|exact Le]. apply startRequest_store.
  - destruct (mapGet id (requests s)) as [r|] eqn:G.
    + destruct (updateRequest_store id u now s r G) as (_ & B & _).
      cbv zeta in B. destruct (truthy _).
      * eapply ledger_books; [exact B|]. now apply ledger_update.
      * eapply ledger_books; [exact B|]. assumption.
    + unfold updateRequest. now rewrite G.
  - destruct (mapGet id (requests s)) as [r|] eqn:G.
    + destruct (endRequest_store id response error now s r G) as (_ & B' & _).
      destruct (updateRequest_store id (endUpdates r response error now)
                  now s r G) as (_ & B & _).
      cbv zeta in B, B'. rewrite B in B'. destruct (truthy _).
      * eapply ledger_books; [exact B'|]. now apply ledger_update.
      * eapply ledger_books; [exact B'|]. assumption.
    + unfold endRequest. now rewrite G.
  - eapply ledger_books; [|exact Le]. apply streamLogs_store.
  - eapply ledger_books; [|exact Le]. apply close_store.
  - eapply ledger_books; [|exact Le]. apply clearLogs_store.
  - now apply ledger_reset.
Qed.

Lemma ledger_run ops : forall s, ledger s -> ledger (run ops s).
Proof.
  induction ops as [|op ops IH]; intros s B; [exact B|].
  apply IH, ledger_step, B.
Qed.

Lemma bounded_empty : bounded emptyService.
Proof. split; [constructor|cbn; lia]. Qed.

Lemma ledger_empty : ledger emptyService.
Proof.
  split; [split|split; [|split; reflexivity]];
    [constructor|intros k m []|intros k m []].
Qed.

Lemma loading (l : list (string * SessionMetrics.t)) : forall s0,
  NoDup (map fst (sessionMetrics s0) ++ map fst l) ->
  (forall k m, In (k, m) l -> SessionMetrics.sessionId m = k) ->
  sessionMetrics
    (fold_left
       (fun acc session =>
          withMetrics
            (mapSet (SessionMetrics.sessionId session) session
               (sessionMetrics acc)) acc)
       (map snd l) s0)
  = (sessionMetrics s0 ++ l)%list.
Proof.
  induction l as [|[k m] l IH]; intros s0 ND K; cbn [map fold_left snd].
  - now rewrite app_nil_r.
  - rewrite IH.
    + cbn [sessionMetrics withMetrics]. rewrite (K k m) by now left.
      rewrite mapSet_fresh.
      * now rewrite <- app_assoc.
      * apply mapGet_None. intros H. apply NoDup_app in ND as (_ & Dis & _).
        apply (Dis k); [now apply list_elem_of_In|]. cbn. left.
    + cbn [sessionMetrics withMetrics]. rewrite (K k m) by now left.
      rewrite mapSet_keys.
      destruct (mapGet k (sessionMetrics s0)) eqn:G.
      * exfalso. apply mapGet_In in G.
        apply NoDup_app in ND as (_ & Dis & _).
        apply (Dis k); [|cbn; left].
        apply list_elem_of_In. change k with (fst (k, t)). now apply in_map.
      * rewrite <- app_assoc. exact ND.
    + intros k' m' H. apply K. now right.
Qed.

End InvariantFacts.

(** ** The service over its whole life *)

Section LifeFacts.
Import JsString JsNumber Monitoring Startup.
Local Open Scope Z_scope.
Context {cal : Calendar}.

Lemma loadPersistedMetrics_store file s :
  requests (loadPersistedMetrics file s) = requests s /\
  metricsFile (loadPersistedMetrics file s) = metricsFile s /\
  diskFull (loadPersistedMetrics file s) = diskFull s /\
  appended (loadPersistedMetrics file s) = appended s.
Proof.
  destruct file as [[sessions t]|]; [|now repeat split]. cbn.
  revert s. induction sessions as [|x l IH]; intros s; [now repeat split|].
  cbn [fold_left]. destruct (IH (withMetrics
    (mapSet (SessionMetrics.sessionId x) x (sessionMetrics s)) s))
    as (-> & -> & -> & ->). now repeat split.
Qed.

Lemma construct_reloads s :
  ledger s -> sessionMetrics (construct s) = sessionMetrics s.
Proof.
  intros ((ND & K) & _ & _ & Sy). unfold construct, synced in *.
  destruct (metricsFile s) as [[sessions t]|]; [|now rewrite Sy].
  subst sessions. cbn [loadPersistedMetrics]. unfold mapValues.
  rewrite loading; [reflexivity|exact ND|exact K].
Qed.

Lemma construct_kept s :
  ledger s -> bounded (construct s) /\ ledger (construct s).
Proof.
  intros Le. pose proof (construct_reloads s Le) as M.
  destruct (loadPersistedMetrics_store (metricsFile s)
    {| requests := []; sessionMetrics := []; listeners := [];
       closeHandlers := []; calls := 0%nat; diskFull := diskFull s;
       appended := appended s; metricsFile := metricsFile s;
       emitted := []; sent := [] |}) as (R & F & D & _).
  fold (construct s) in R, F, D. cbn in R, F, D. split.
  - unfold bounded. rewrite R. split; [constructor|cbn; lia].
  - eapply ledger_books; [|exact Le]. unfold books. now rewrite M, F, D.
Qed.

Lemma lives_kept runs : forall s,
  ledger s -> bounded s ->
  bounded (lives runs s) /\ ledger (lives runs s).
Proof.
  induction runs as [|ops runs IH]; intros s Le B; [now split|].
  cbn [lives]. destruct (construct_kept s Le) as [B' Le'].
  apply IH; [now apply ledger_run|now apply bounded_run].
Qed.

(** X1.  However the service is used and however often it is restarted,
    the request map never holds more than [maxLogsInMemory] = 1000
    entries, and no request id is held twice. *)
Theorem request_map_stays_bounded (runs : list (list Op)) :
  let s := lives runs emptyService in
  (length (requests s) <= 1000)%nat /\ NoDup (map fst (requests s)).
Proof.
  destruct (lives_kept runs emptyService ledger_empty bounded_empty)
    as [[ND L] _]. split; [exact L|exact ND].
Qed.

(** X2.  In every state of a service whose disk takes its writes, each
    metrics object is stored under its own session id, no session has
    two, and its counters are consistent: it has counted at least one
    request and no more errors than requests. *)
Theorem session_metrics_stay_consistent (runs : list (list Op)) :
  let s := lives runs emptyService in
  NoDup (map fst (sessionMetrics s)) /\
  Forall
    (fun e =>
       SessionMetrics.sessionId (snd e) = fst e /\
       1 <= SessionMetrics.requestCount (snd e) /\
       0 <= SessionMetrics.errors (snd e)
         <= SessionMetrics.requestCount (snd e))
    (sessionMetrics s).
Proof.
  destruct (lives_kept runs emptyService ledger_empty bounded_empty)
    as [_ ((ND & K) & C & _)]. split; [exact ND|].
  apply Forall_forall. intros [k m] H%list_elem_of_In.
  split; [now apply K|apply (C k m H)].
Qed.

(** X3.  On a disk that takes every write the metrics file always holds
    the metrics map: a service that is constructed on the files of an
    earlier one has the metrics of every session as they were, in the
    same order, and an empty request map. *)
Theorem metrics_survive_restart (runs : list (list Op)) :
  let s := lives runs emptyService in
  sessionMetrics (construct s) = sessionMetrics s /\
  getAllSessionMetrics (construct s) = getAllSessionMetrics s /\
  (forall sessionId,
     getSessionMetrics sessionId (construct s) = getSessionMetrics sessionId s) /\
  requests (construct s) = [].
Proof.
  destruct (lives_kept runs emptyService ledger_empty bounded_empty)
    as [_ Le]. cbv zeta.
  pose proof (construct_reloads _ Le) as M.
  unfold getAllSessionMetrics, getSessionMetrics. rewrite M.
  repeat split.
  now destruct (loadPersistedMetrics_store
    (metricsFile (lives runs emptyService))
    {| requests := []; sessionMetrics := []; listeners := [];
       closeHandlers := []; calls := 0%nat;
       diskFull := diskFull (lives runs emptyService);
       appended := appended (lives runs emptyService);
       metricsFile := metricsFile (lives runs emptyService);
       emitted := []; sent := [] |}) as (R & _).
Qed.

End LifeFacts.

(** ** Queries and maintenance *)

Section QueryFacts.
Import JsString JsNumber Monitoring Startup.
Local Open Scope Z_scope.
Context {cal : Calendar}.

Lemma StronglySorted_weaken {A} (R R' : A -> A -> Prop) l :
  (forall a b, R a b -> R' a b) -> StronglySorted R l -> StronglySorted R' l.
Proof.
  intros W. induction 1 as [|x l S IH F]; constructor; [assumption|].
  eapply Forall_impl; [exact F|]. intros b. apply W.
Qed.

(** X4.  [getRecentRequests] returns the newest entries that match the
    filter: together with the matching entries it leaves out, its result
    is a rearrangement of all matching entries in which no entry is
    older than one that follows it, and it holds [limit] entries unless
    fewer match. *)
Theorem getRecentRequests_newest_first (sessionId : option string)
    (limit : nat) (s : Service) :
  let matching :=
    List.filter (fun r => passes sessionId (RequestLog.sessionId r))
      (mapValues (requests s)) in
  let recent := getRecentRequests sessionId limit s in
  exists older,
    Permutation matching (recent ++ older)%list /\
    StronglySorted
      (fun a b => RequestLog.timestamp b <= RequestLog.timestamp a)
      (recent ++ older)%list /\
    length recent = Nat.min limit (length matching).
Proof.
  cbv zeta. unfold getRecentRequests.
  set (matching := List.filter _ _).
  exists (skipn limit (sortBy byNewest matching)).
  rewrite firstn_skipn. split; [apply sortBy_perm|]. split.
  - eapply StronglySorted_weaken; [|apply sortBy_orders].
    + intros a b. unfold byNewest. lia.
    + intros a b. unfold byNewest. lia.
    + intros a b c. unfold byNewest. lia.
  - now rewrite length_take, sortBy_length.
Qed.

Lemma passes_text x y : truthy x = true -> passes (Some x) y = String.eqb y x.
Proof. intros T. unfold passes, someText. now rewrite T. Qed.

Lemma matching_after_clear (x : string) (q : string -> bool)
    (m : list (string * RequestLog.t)) :
  (forall z, q z = true -> String.eqb z x = false) ->
  List.filter (fun r => q (RequestLog.sessionId r))
    (mapValues
       (List.filter
          (fun '(_, r) => negb (String.eqb (RequestLog.sessionId r) x)) m))
  = List.filter (fun r => q (RequestLog.sessionId r)) (mapValues m).
Proof.
  intros Q. unfold mapValues.
  induction m as [|[k r] m IH]; [reflexivity|]. cbn [List.filter map snd].
  destruct (String.eqb (RequestLog.sessionId r) x) eqn:E; cbn [negb].
  - destruct (q (RequestLog.sessionId r)) eqn:Qr; [|exact IH].
    rewrite (Q _ Qr) in E. discriminate.
  - cbn [map snd List.filter]. rewrite IH. reflexivity.
Qed.

(** X5.  [clearLogs] forgets the entries of the session it is given, or
    every entry when the session id is missing or empty, and nothing
    else: a query with the same filter finds nothing afterwards, a
    query for another session finds what it found before, the metrics
    are as they were, and nothing is written to the log files. *)
Theorem clearLogs_forgets_the_session (sessionId : option string)
    (s : Service) :
  let s' := clearLogs sessionId s in
  (forall limit, getRecentRequests sessionId limit s' = []) /\
  (forall x y limit, someText sessionId = Some x ->
     truthy y = true -> y <> x ->
     getRecentRequests (Some y) limit s'
     = getRecentRequests (Some y) limit s) /\
  sessionMetrics s' = sessionMetrics s /\
  metricsFile s' = metricsFile s /\
  appended s' = appended s.
Proof.
  cbv zeta. destruct (clearLogs_store sessionId s) as (B & Ap & R).
  unfold books in B. injection B as M F _.
  repeat split; try assumption.
  - intros limit. unfold getRecentRequests. rewrite R.
    destruct (someText sessionId) as [x|] eqn:E.
    + rewrite filter_none; [now destruct limit|].
      intros r Hr. unfold passes. rewrite E.
      unfold mapValues in Hr. apply in_map_iff in Hr as ([k r'] & <- & Hr).
      apply filter_In in Hr as [_ Hr]. cbn [snd].
      now apply negb_true_iff in Hr.
    + now destruct limit.
  - intros x y limit E T N. unfold getRecentRequests. rewrite R, E.
    rewrite (matching_after_clear x (passes (Some y))); [reflexivity|].
    intros z. rewrite passes_text by assumption.
    intros ->%String.eqb_eq. now apply String.eqb_neq.
Qed.

(** X6.  [resetMetrics] drops the metrics of the session it is given, or
    all metrics when the session id is missing or empty, and nothing
    else; what is left is what it writes to the metrics file, and the
    request map is not touched. *)
Theorem resetMetrics_forgets_the_session (sessionId : option string)
    (now : Z) (s : Service) :
  NoDup (map fst (sessionMetrics s)) -> diskFull s = false ->
  let s' := resetMetrics sessionId now s in
  (forall y,
     getSessionMetrics y s'
     = if passes sessionId y then None else getSessionMetrics y s) /\
  metricsFile s' = Some (getAllSessionMetrics s', now) /\
  requests s' = requests s /\ appended s' = appended s.
Proof.
  intros ND D. cbv zeta.
  destruct (resetMetrics_store sessionId now s) as (R & Ap & M & _ & F).
  cbv zeta in M, F. rewrite D in F.
  unfold getSessionMetrics, getAllSessionMetrics. rewrite M, F, R, Ap.
  repeat split. intros y. unfold passes.
  destruct (someText sessionId) as [x|]; [|reflexivity].
  destruct (String.eqb_spec y x) as [->|N].
  - now apply mapGet_mapDelete.
  - now apply mapGet_mapDelete_other.
Qed.

Lemma endUpdates_terminal r response error now :
  terminal (u_status (endUpdates r response error now)) = true.
Proof. unfold endUpdates. cbn. now destruct error. Qed.

(** X7.  Ending a request that is in the map records the outcome and
    persists it: the entry keeps its place, id, session and start time,
    gets the status the [error] argument decides and the time since its
    start as duration, and exactly one line, the entry as it now is, is
    appended to the log file of the day. *)
Theorem endRequest_records_and_persists (requestId : string)
    (response : option ResponseBody) (error : option (option string))
    (now : Z) (s : Service) (request : RequestLog.t) :
  mapGet requestId (requests s) = Some request ->
  diskFull s = false ->
  let s' := endRequest requestId response error now s in
  exists request',
    mapGet requestId (requests s') = Some request' /\
    map fst (requests s') = map fst (requests s) /\
    RequestLog.id request' = RequestLog.id request /\
    RequestLog.sessionId request' = RequestLog.sessionId request /\
    RequestLog.timestamp request' = RequestLog.timestamp request /\
    RequestLog.status request'
    = (match error with Some _ => Status.error | None => Status.success end) /\
    RequestLog.duration request'
    = Some (now - RequestLog.timestamp request) /\
    appended s'
    = (appended s ++ [(dateStr now +:+ ".jsonl", request')])%list.
Proof.
  intros G D. cbv zeta.
  destruct (endRequest_store requestId response error now s request G)
    as (R' & _ & Ap').
  destruct (updateRequest_store requestId
              (endUpdates request response error now) now s request G)
    as (R & _ & Ap).
  cbv zeta in R, R', Ap, Ap'. rewrite R', Ap', R, Ap.
  rewrite endUpdates_terminal, D. cbn [andb negb].
  exists (assign request (endUpdates request response error now)).
  split; [apply mapGet_mapSet|].
  split; [now apply (mapSet_present_keys _ _ _ request)|].
  repeat split.
Qed.

(** X8.  The request counter of a session counts updates, not requests:
    [startRequest] leaves the metrics alone, and every [updateRequest]
    of a request that is in the map and has a session id adds exactly
    one to the counter of that session, creating the metrics object on
    the first, and leaves the metrics of every other session as they
    are. *)
Theorem requestCount_counts_updates (requestId : string) (updates : Updates)
    (now : Z) (s : Service) (request : RequestLog.t) :
  mapGet requestId (requests s) = Some request ->
  truthy (RequestLog.sessionId (assign request updates)) = true ->
  let sid := RequestLog.sessionId (assign request updates) in
  let before :=
    match getSessionMetrics sid s with
    | Some m => SessionMetrics.requestCount m
    | None => 0
    end in
  (exists m,
     getSessionMetrics sid (updateRequest requestId updates now s) = Some m /\
     SessionMetrics.requestCount m = before + 1) /\
  (forall other, other <> sid ->
     getSessionMetrics other (updateRequest requestId updates now s)
     = getSessionMetrics other s) /\
  (forall req random now',
     sessionMetrics (snd (startRequest req random now' s))
     = sessionMetrics s).
Proof.
  intros G T sid before.
  destruct (updateRequest_store requestId updates now s request G)
    as (_ & B & _). cbv zeta in B. rewrite T in B.
  destruct (updateSessionMetrics_store (assign request updates) now s)
    as (_ & _ & M & _). cbv zeta in M. fold sid in M.
  assert (sessionMetrics (updateRequest requestId updates now s)
          = sessionMetrics
              (updateSessionMetrics (assign request updates) now s)) as E.
  { unfold books in B. now injection B. }
  unfold getSessionMetrics. rewrite E, M. split; [|split].
  - rewrite mapGet_mapSet. eexists. split; [reflexivity|].
    subst before. unfold getSessionMetrics.
    now destruct (mapGet sid (sessionMetrics s)).
  - intros other N. now apply mapGet_mapSet_other.
  - intros req random now'.
    destruct (startRequest_store req random now' s) as [_ B'].
    cbv zeta in B'. unfold books in B'. now injection B'.
Qed.

(** X9.  A socket that was never given to [streamLogs] is sent
    nothing, whatever else happens to the service. *)
Theorem no_frames_without_subscription (ws : nat) (ops : list Op) :
  (forall sessionId, ~ In (doStream ws sessionId) ops) ->
  framesTo ws (run ops emptyService) = [].
Proof. intros H. now apply reachable_fresh. Qed.

End QueryFacts.

Section QueryExamples.
Import JsString JsNumber Monitoring Startup.
Local Open Scope Z_scope.
Local Existing Instance epochDay.

Lemma resetMetrics_forgets_the_session_witness :
  let s := run threeSuccesses emptyService in
  let s' := resetMetrics (Some "fc92274d") 2000 s in
  getSessionMetrics "fc92274d" s <> None /\
  getSessionMetrics "fc92274d" s' = None /\
  metricsFile s' = Some ([], 2000).
Proof.
  cbv zeta.
  destruct (resetMetrics_forgets_the_session (Some "fc92274d") 2000
              (run threeSuccesses emptyService)) as (Q & F & _).
  - vm_compute. apply NoDup_singleton.
  - reflexivity.
  - split; [vm_compute; discriminate|]. split.
    + rewrite Q. reflexivity.
    + rewrite F. vm_compute. reflexivity.
Defined.

Lemma endRequest_records_and_persists_witness :
  let s := run [doStart sampleRequest "a" 1000] emptyService in
  exists request',
    mapGet "req_1000_a" (requests (endRequest "req_1000_a" None None 1300 s))
    = Some request' /\
    RequestLog.status request' = Status.success /\
    RequestLog.duration request' = Some 300 /\
    length (appended (endRequest "req_1000_a" None None 1300 s)) = 1%nat.
Proof.
  cbv zeta.
  destruct (endRequest_records_and_persists "req_1000_a" None None 1300
              (run [doStart sampleRequest "a" 1000] emptyService)
              (newRequestLog sampleRequest "req_1000_a" 1000))
    as (r' & G & _ & _ & _ & _ & St & Du & Ap).
  - vm_compute. reflexivity.
  - reflexivity.
  - exists r'. split; [exact G|]. split; [exact St|]. split; [exact Du|].
    rewrite Ap. reflexivity.
Defined.

Lemma requestCount_counts_updates_witness :
  let s := run [doStart sampleRequest "a" 1000] emptyService in
  exists m,
    getSessionMetrics "fc92274d"
      (updateRequest "req_1000_a" noUpdates 1100
         (updateRequest "req_1000_a" noUpdates 1050 s)) = Some m /\
    SessionMetrics.requestCount m = 2.
Proof.
  cbv zeta.
  destruct (requestCount_counts_updates "req_1000_a" noUpdates 1100
              (updateRequest "req_1000_a" noUpdates 1050
                 (run [doStart sampleRequest "a" 1000] emptyService))
              (newRequestLog sampleRequest "req_1000_a" 1000))
    as [(m & G & C) _].
  - vm_compute. reflexivity.
  - reflexivity.
  - exists m. split; [exact G|]. rewrite C. vm_compute. reflexivity.
Defined.

Lemma no_frames_without_subscription_witness :
  framesTo 7 (run (doStream 8 None :: threeSuccesses) emptyService) = [].
Proof.
  apply (no_frames_without_subscription 7 (doStream 8 None :: threeSuccesses)).
  intros f [H|H]; [discriminate|].
  repeat (destruct H as [H|H]; [discriminate|]). exact H.
Defined.

End QueryExamples.

(** ** Eviction *)

Section EvictionFacts.
Import JsString JsNumber Monitoring Startup.
Local Open Scope Z_scope.
Context {cal : Calendar}.

Lemma mapDelete_perm {V} k (m : list (string * V)) v :
  mapGet k m = Some v -> Permutation m ((k, v) :: mapDelete k m).
Proof.
  induction m as [|[k0 v0] m IH]; simpl; [discriminate|].
  destruct (String.eqb_spec k0 k) as [->|N].
  - now intros [= ->].
  - intros G. etransitivity; [apply perm_skip, IH, G|apply perm_swap].
Qed.

Lemma deleteAll_perm old : forall m,
  NoDup (map fst m) -> NoDup (map fst old) ->
  (forall e, In e old -> In e m) ->
  Permutation m (old ++ deleteAll old m).
Proof.
  induction old as [|[k v] old IH]; intros m ND NO Hin; [reflexivity|].
  cbn in NO. apply NoDup_cons in NO as [Hk NO].
  assert (mapGet k m = Some v) as G
    by (apply In_mapGet; [assumption|apply Hin; now left]).
  etransitivity; [apply (mapDelete_perm k m v G)|].
  cbn [app]. apply perm_skip. unfold deleteAll. cbn [fold_left fst].
  apply IH.
  - eapply sublist_NoDup; [exact ND|]. apply sublist_keys, mapDelete_sublist.
  - assumption.
  - intros [k' v'] He. apply In_mapDelete.
    + intros ->. apply Hk. apply list_elem_of_In.
      change k with (fst (k, v')). now apply in_map.
    + apply Hin. now right.
Qed.

Lemma StronglySorted_across {A} (R : A -> A -> Prop) l1 l2 :
  StronglySorted R (l1 ++ l2) ->
  forall a b, In a l1 -> In b l2 -> R a b.
Proof.
  induction l1 as [|x l1 IH]; intros S a b Ha Hb; [destruct Ha|].
  cbn in S. apply StronglySorted_inv in S as [S F].
  destruct Ha as [<-|Ha]; [|now apply IH].
  rewrite Forall_forall in F. apply F. apply list_elem_of_In.
  apply in_or_app. now right.
Qed.

Lemma archiving_appended now old : forall s,
  diskFull s = false ->
  appended
    (fold_left
       (fun acc '(id, request) =>
          let acc' := persistRequestLog request now acc in
          withRequests (mapDelete id (requests acc')) acc')
       old s)
  = (appended s ++ map (line now) old)%list.
Proof.
  induction old as [|[id r] old IH]; intros s D; cbn [fold_left map].
  - now rewrite app_nil_r.
  - rewrite IH.
    + unfold persistRequestLog. rewrite D. cbn [appended withRequests].
      now rewrite <- app_assoc.
    + unfold persistRequestLog. now rewrite D.
Qed.

(** The call that finds a thousand requests in memory: what it evicts
    and what it keeps, whatever the timestamps. *)
Lemma startRequest_evicts (req : Request) (random : string) (now : Z)
    (s : Service) :
  NoDup (map fst (requests s)) ->
  diskFull s = false ->
  length (requests s) = 1000%nat ->
  mapGet (generateRequestId now random) (requests s) = None ->
  let id := generateRequestId now random in
  let s' := snd (startRequest req random now s) in
  exists evicted,
    length evicted = 100%nat /\
    length (requests s') = 901%nat /\
    appended s' = (appended s ++ map (line now) evicted)%list /\
    Permutation (requests s ++ [(id, newRequestLog req id now)])
      (evicted ++ requests s') /\
    StronglySorted
      (fun a b =>
         RequestLog.timestamp (snd a) <= RequestLog.timestamp (snd b))
      evicted /\
    (forall a b, In a evicted -> In b (requests s') ->
       RequestLog.timestamp (snd a) <= RequestLog.timestamp (snd b)) /\
    NoDup (map fst (requests s')) /\
    diskFull s' = false.
Proof.
  intros ND D L Fresh. cbv zeta.
  set (id := generateRequestId now random) in *.
  set (entry := newRequestLog req id now).
  destruct (startRequest_store req random now s) as [R _]. cbv zeta in R.
  fold id entry in R.
  rewrite (mapSet_fresh id entry (requests s) Fresh) in R.
  set (m := (requests s ++ [(id, entry)])%list) in *.
  assert (length m = 1001%nat) as Lm
    by (unfold m; rewrite length_app, L; reflexivity).
  rewrite Lm in R. change (Z.of_nat 1001 >? maxLogsInMemory) with true in R.
  assert (NoDup (map fst m)) as NDm.
  { unfold m. rewrite <- (mapSet_fresh id entry (requests s) Fresh).
    now apply mapSet_NoDup. }
  set (sorted := sortBy byTimestamp m) in *.
  set (old := firstn 100 sorted) in *.
  assert (Permutation m sorted) as Pm by apply sortBy_perm.
  assert (StronglySorted (fun a b => byTimestamp a b <= 0) sorted) as Srt.
  { apply sortBy_orders; unfold byTimestamp; intros; lia. }
  assert (old `sublist_of` sorted) as Sub by apply sublist_take.
  assert (NoDup (map fst old)) as NDo.
  { eapply sublist_NoDup; [|apply sublist_keys, Sub].
    eapply NoDup_Permutation_proper; [|exact NDm].
    symmetry. now apply Permutation_map. }
  assert (forall e, In e old -> In e m) as Inc.
  { intros e He. apply (Permutation_in _ (Permutation_sym Pm)).
    apply list_elem_of_In. eapply elem_of_sublist; [|exact Sub].
    now apply list_elem_of_In. }
  destruct (deleteAll_bounds old m NDm NDo Inc) as [NDk Len].
  pose proof (deleteAll_perm old m NDm NDo Inc) as Pd.
  assert (length old = 100%nat) as Lo.
  { unfold old. rewrite length_take. unfold sorted.
    rewrite sortBy_length, Lm. reflexivity. }
  assert (Permutation (deleteAll old m) (skipn 100 sorted)) as Pk.
  { apply (Permutation_app_inv_l old). rewrite <- Pd.
    unfold old. now rewrite firstn_skipn. }
  destruct (startRequest_store req random now s) as [_ B]. cbv zeta in B.
  exists old. rewrite R. split; [exact Lo|]. split; [lia|].
  split; [|split; [exact Pd|split; [|split; [|split; [exact NDk|]]]]].
  - unfold startRequest. cbn [snd]. fold id entry.
    set (s1 := withRequests _ s).
    destruct (emit_store request_start (aLog entry) s1) as (R1 & B1 & A1).
    rewrite R1. cbn [requests s1 withRequests].
    rewrite (mapSet_fresh id entry (requests s) Fresh). fold m.
    rewrite Lm. change (Z.of_nat 1001 >? maxLogsInMemory) with true.
    cbv iota. unfold archiveOldLogs. rewrite archiving_appended.
    + rewrite A1, R1. cbn [requests appended s1 withRequests].
      rewrite (mapSet_fresh id entry (requests s) Fresh). reflexivity.
    + unfold books in B1. injection B1 as _ _ ->. exact D.
  - apply (StronglySorted_weaken (fun a b => byTimestamp a b <= 0)).
    + intros a b. unfold byTimestamp. lia.
    + apply (StronglySorted_app_1_l _ old (skipn 100 sorted)).
      unfold old. now rewrite firstn_skipn.
  - intros a b Ha Hb.
    assert (byTimestamp a b <= 0) as Le; [|unfold byTimestamp in Le; lia].
    apply (StronglySorted_across (fun a b => byTimestamp a b <= 0) old
             (skipn 100 sorted)).
    + unfold old. now rewrite firstn_skipn.
    + exact Ha.
    + apply (Permutation_in _ Pk). exact Hb.
  - unfold books in B. injection B as _ _ E.
    transitivity (diskFull s); [exact E|exact D].
Qed.


(** X24.  When a thousand requests are in memory, starting another one
    evicts a hundred: they are written to the log file of the day in
    the order of their start times, the other 901 stay, and no entry
    that stays started before one that was evicted. *)
Theorem eviction_takes_the_oldest (runs : list (list Op)) (req : Request)
    (random : string) (now : Z) :
  length (requests (lives runs emptyService)) = 1000%nat ->
  mapGet (generateRequestId now random) (requests (lives runs emptyService))
  = None ->
  let s := lives runs emptyService in
  let id := generateRequestId now random in
  let s' := snd (startRequest req random now s) in
  exists evicted,
    length evicted = 100%nat /\
    length (requests s') = 901%nat /\
    appended s' = (appended s ++ map (line now) evicted)%list /\
    Permutation (requests s ++ [(id, newRequestLog req id now)])
      (evicted ++ requests s') /\
    StronglySorted
      (fun a b =>
         RequestLog.timestamp (snd a) <= RequestLog.timestamp (snd b))
      evicted /\
    (forall a b, In a evicted -> In b (requests s') ->
       RequestLog.timestamp (snd a) <= RequestLog.timestamp (snd b)).
Proof.
  intros L Fresh. cbv zeta.
  destruct (lives_kept runs emptyService ledger_empty bounded_empty)
    as [[ND _] (_ & _ & D & _)].
  destruct (startRequest_evicts req random now _ ND D L Fresh)
    as (evicted & Le & Lk & A & Pd & Srt & Cross & _).
  exists evicted.
  split; [exact Le|]. split; [exact Lk|]. split; [exact A|].
  split; [exact Pd|]. split; [exact Srt|exact Cross].
Qed.

(** C4.  Start from the empty service and let [startRequest] be called
    1100 times, with request ids that do not collide and a disk that
    takes the writes; nothing is assumed of the clock readings.  Then
    exactly 1000 entries are in memory and exactly 100 entries have
    been archived: all in the log file of the day of the 1001st call,
    in the order of their timestamps, and none of them is in memory any
    more; archived and kept entries together are the 1100 entries that
    were fed.  The archived ones are the oldest: no entry of the first
    1001 calls that was kept has an earlier timestamp than an archived
    one, and, when no later call reads the clock earlier than the first
    1001 did, no entry in memory has. *)
Theorem overflow_archives_oldest (calls : list Call) :
  length calls = 1100%nat ->
  NoDup (map callId calls) ->
  let s := run (starts calls) emptyService in
  exists overflow archived,
    nth_error calls 1000 = Some overflow /\
    length (requests s) = 1000%nat /\
    length archived = 100%nat /\
    appended s = map (line (callTime overflow)) archived /\
    Permutation (map entryOf calls) (archived ++ requests s) /\
    StronglySorted
      (fun a b =>
         RequestLog.timestamp (snd a) <= RequestLog.timestamp (snd b))
      archived /\
    (forall a, In a archived -> mapGet (fst a) (requests s) = None) /\
    (forall a b,
       In a archived -> In b (map entryOf (firstn 1001 calls)) ->
       ~ In b archived ->
       RequestLog.timestamp (snd a) <= RequestLog.timestamp (snd b)) /\
    ((forall c d,
        In c (firstn 1001 calls) -> In d (skipn 1001 calls) ->
        callTime c <= callTime d) ->
     forall a b,
       In a archived -> In b (requests s) ->
       RequestLog.timestamp (snd a) <= RequestLog.timestamp (snd b)).
Proof.
  intros Len N. cbn zeta.
  destruct (nth_error calls 1000) as [x|] eqn:X;
    [|apply nth_error_None in X; lia].
  destruct (nth_error_split _ _ X) as (c1 & c3 & -> & L1).
  rewrite length_app in Len. cbn [length] in Len.
  assert (F1 : firstn 1001 (c1 ++ x :: c3) = (c1 ++ [x])%list).
  { change (x :: c3) with ([x] ++ c3)%list. rewrite app_assoc.
    apply take_app_length'. rewrite length_app. cbn [length]. lia. }
  assert (S1 : skipn 1001 (c1 ++ x :: c3) = c3).
  { change (x :: c3) with ([x] ++ c3)%list. rewrite app_assoc.
    apply drop_app_length'. rewrite length_app. cbn [length]. lia. }
  rewrite F1, S1.
  assert (N0 : NoDup ((map callId c1 ++ [callId x]) ++ map callId c3)).
  { rewrite <- app_assoc. cbn [app]. now rewrite map_app in N. }
  assert (N1 : NoDup (map callId c1)).
  { apply NoDup_app in N0 as (N0 & _). now apply NoDup_app in N0 as (? & _). }
  assert (Nx : ~ In (callId x) (map callId c1)).
  { apply NoDup_app in N0 as (N0 & _). apply NoDup_app in N0 as (_ & D & _).
    intros I. apply list_elem_of_In in I. apply (D _ I). left. }
  (* the first 1000 calls *)
  destruct (starts_append c1 emptyService) as (R1 & A1 & D1).
  { cbn [requests emptyService map app]. exact N1. }
  { cbn [requests emptyService length]. lia. }
  cbn [requests appended diskFull emptyService app] in R1, A1, D1.
  set (s1 := run (starts c1) emptyService) in *.
  assert (K : forall cs, map fst (map entryOf cs) = map callId cs)
    by (intros cs; now rewrite map_map).
  (* the 1001st *)
  destruct (startRequest_evicts (fst (fst x)) (snd (fst x)) (snd x) s1)
    as (old & Lo & Lk & A2 & P2 & So & Cr & ND2 & D2).
  { now rewrite R1, K. }
  { exact D1. }
  { now rewrite R1, length_map. }
  { apply mapGet_None. now rewrite R1, K. }
  cbv zeta in Lk, A2, P2, Cr, ND2, D2.
  set (s2 := snd (startRequest (fst (fst x)) (snd (fst x)) (snd x) s1)) in *.
  assert (P2' : Permutation (map entryOf (c1 ++ [x])) (old ++ requests s2)).
  { rewrite map_app, <- R1. exact P2. }
  assert (N' : NoDup (map fst old
                        ++ map fst (requests s2) ++ map callId c3)).
  { rewrite app_assoc, <- map_app, <- P2', K, map_app. exact N0. }
  (* the last 99 *)
  destruct (starts_append c3 s2) as (R3 & A3 & D3).
  { now apply NoDup_app in N' as (_ & _ & ?). }
  { rewrite Lk. lia. }
  cbv zeta in R3, A3, D3.
  assert (E : run (starts (c1 ++ x :: c3)) emptyService = run (starts c3) s2).
  { unfold run, starts. rewrite map_app, fold_left_app. reflexivity. }
  rewrite E. clear E.
  exists x, old.
  split; [reflexivity|].
  split; [rewrite R3, length_app, length_map, Lk; lia|].
  split; [exact Lo|].
  split; [rewrite A3, A2, A1; reflexivity|].
  split.
  { rewrite R3, app_assoc, <- P2'.
    change (x :: c3) with ([x] ++ c3)%list.
    now rewrite app_assoc, (map_app _ (c1 ++ [x])). }
  split; [exact So|].
  split.
  { intros a Ia. apply mapGet_None. rewrite R3, map_app, K. intros I.
    apply NoDup_app in N' as (_ & Dis & _). apply (Dis (fst a)).
    - apply list_elem_of_In. now apply in_map.
    - apply list_elem_of_In. exact I. }
  split.
  { intros a b Ia Ib Nb. apply Cr; [exact Ia|].
    apply (Permutation_in _ P2') in Ib.
    apply in_app_or in Ib as [Ib|Ib]; [contradiction|exact Ib]. }
  intros Late a b Ia Ib. rewrite R3 in Ib.
  apply in_app_or in Ib as [Ib|Ib]; [now apply Cr|].
  apply in_map_iff in Ib as (d & <- & Id).
  assert (In a (map entryOf (c1 ++ [x]))) as Ia'.
  { apply (Permutation_in _ (Permutation_sym P2')), in_or_app. now left. }
  apply in_map_iff in Ia' as (c & <- & Ic).
  exact (Late c d Ic Id).
Qed.

End EvictionFacts.

Section EvictionExamples.
Import JsString JsNumber Monitoring Startup.
Local Open Scope Z_scope.
Local Existing Instance epochDay.

Lemma steppedCalls_length : length steppedCalls = 1100%nat.
Proof. unfold steppedCalls. now rewrite length_map, length_seq. Qed.

Lemma steppedCalls_ids : NoDup (map callId steppedCalls).
Proof.
  apply (NoDup_fmap_1 (fun id => parseInt (after "_"%char id))).
  replace (_ <$> map callId steppedCalls)
    with (map (fun i => Some (steppedTime i)) (seq 0 1100))
    by (vm_compute; reflexivity).
  apply NoDup_fmap_2; [|apply NoDup_seq].
  intros i j [= H]. unfold steppedTime in H.
  destruct (Nat.ltb_spec i 500), (Nat.ltb_spec j 500),
    (Nat.leb_spec i 1000), (Nat.leb_spec j 1000); lia.
Qed.

(** The overflow on [steppedCalls]: the entries archived are those of
    the calls 500 to 599, the first hundred after the clock was set
    back, not those of the first hundred calls. *)
Lemma overflow_archives_oldest_witness :
  let s := run (starts steppedCalls) emptyService in
  (exists archived : list (string * RequestLog.t),
     length (requests s) = 1000%nat /\ length archived = 100%nat /\
     appended s = map (line 1999) archived /\
     (forall a, In a archived -> mapGet (fst a) (requests s) = None)) /\
  appended s
  = map (line 1999) (map entryOf (firstn 100 (skipn 500 steppedCalls))).
Proof.
  cbv zeta. split; [|vm_compute; reflexivity].
  destruct (overflow_archives_oldest steppedCalls
              steppedCalls_length steppedCalls_ids)
    as (x & archived & X & L & La & A & _ & _ & Gone & _).
  exists archived.
  assert (x = (sampleRequest, "1000", 1999)) as ->
    by (vm_compute in X; now injection X).
  split; [exact L|]. split; [exact La|]. split; [exact A|exact Gone].
Defined.

Lemma eviction_takes_the_oldest_witness :
  let s := lives [starts (firstn 1000 sampleCalls)] emptyService in
  exists evicted : list (string * RequestLog.t),
    length evicted = 100%nat /\
    length (requests (snd (startRequest sampleRequest "late" 5000 s)))
    = 901%nat.
Proof.
  cbv zeta.
  destruct (eviction_takes_the_oldest [starts (firstn 1000 sampleCalls)]
              sampleRequest "late" 5000) as (evicted & Le & Lk & _).
  - vm_compute. reflexivity.
  - vm_compute. reflexivity.
  - exists evicted. split; [exact Le|exact Lk].
Defined.

End EvictionExamples.

(** ** Delivery to subscribers *)

Section DeliveryFacts.
Import JsString JsNumber Monitoring Delivery.
Local Open Scope Z_scope.
Context {cal : Calendar}.

Lemma framesFor_app ws a b :
  framesFor ws (a ++ b) = (framesFor ws a ++ framesFor ws b)%list.
Proof. unfold framesFor. now rewrite List.filter_app, map_app. Qed.

Lemma invoke_sent l p s :
  sent (invoke l p s)
  = (sent s ++ map (pair (socket l)) (frameFor l p))%list.
Proof.
  unfold invoke, frameFor.
  destruct (handler l), p; cbn; rewrite ?app_nil_r; try reflexivity;
    match goal with |- context [if ?b then _ else _] => destruct b end;
    cbn; rewrite ?app_nil_r; reflexivity.
Qed.

Lemma emit_sent ev p s :
  sent (emit ev p s)
  = (sent s
       ++ flat_map
            (fun e =>
               if eventEqb (fst e) ev
               then map (pair (socket (snd e))) (frameFor (snd e) p)
               else [])
            (listeners s))%list.
Proof.
  unfold emit.
  match goal with
  | |- sent (fold_left ?f _ ?s1) = _ =>
      assert (G : forall ls acc,
                 sent (fold_left f ls acc)
                 = (sent acc
                      ++ flat_map
                           (fun e =>
                              if eventEqb (fst e) ev
                              then map (pair (socket (snd e)))
                                     (frameFor (snd e) p)
                              else [])
                           ls)%list)
  end.
  { induction ls as [|[ev' l] ls IH]; intros acc; cbn [fold_left flat_map].
    - now rewrite app_nil_r.
    - rewrite IH. cbn [fst snd]. destruct (eventEqb ev' ev).
      + now rewrite invoke_sent, <- app_assoc.
      + reflexivity. }
  rewrite G. reflexivity.
Qed.

Lemma framesFor_flat ev p ws ls :
  framesFor ws
    (flat_map
       (fun e =>
          if eventEqb (fst e) ev
          then map (pair (socket (snd e))) (frameFor (snd e) p)
          else [])
       ls)
  = delivered ev p ws ls.
Proof.
  unfold delivered.
  induction ls as [|[ev' l] ls IH]; [reflexivity|].
  cbn [flat_map fst snd]. rewrite framesFor_app, IH. f_equal.
  unfold toSocket. cbn [snd].
  destruct (eventEqb ev' ev); cbn [andb]; [|reflexivity].
  unfold framesFor.
  destruct (Nat.eqb (socket l) ws) eqn:E.
  - induction (frameFor l p) as [|fr frs IHf]; [reflexivity|].
    cbn. rewrite E. cbn. f_equal. exact IHf.
  - induction (frameFor l p) as [|fr frs IHf]; [reflexivity|].
    cbn. rewrite E. exact IHf.
Qed.

Lemma emit_frames ev p ws s :
  framesTo ws (emit ev p s)
  = (framesTo ws s ++ delivered ev p ws (listeners s))%list.
Proof.
  rewrite (framesTo_grow ws s _ _ (emit_sent ev p s)).
  f_equal. apply framesFor_flat.
Qed.

Lemma delivered_filter ev p ws ls :
  delivered ev p ws ls = delivered ev p ws (List.filter (toSocket ws) ls).
Proof.
  unfold delivered. induction ls as [|e ls IH]; [reflexivity|].
  cbn [flat_map List.filter]. destruct (toSocket ws e) eqn:E.
  - cbn [flat_map]. rewrite E. now rewrite IH.
  - rewrite andb_false_r. exact IH.
Qed.

Lemma delivered_log c ws f ev r :
  ev = request_start \/ ev = request_update \/ ev = request_end ->
  delivered ev (aLog r) ws (registrations c ws f)
  = if passes f (RequestLog.sessionId r) then [log r] else [].
Proof.
  unfold delivered, registrations, toSocket, frameFor.
  intros [-> | [-> | ->]]; cbn; rewrite Nat.eqb_refl; cbn;
    destruct (passes f (RequestLog.sessionId r)); reflexivity.
Qed.

Lemma delivered_metrics c ws f m :
  delivered metrics_update (aMetrics m) ws (registrations c ws f)
  = if passes f (SessionMetrics.sessionId m) then [metrics (one m)] else [].
Proof.
  unfold delivered, registrations, toSocket, frameFor.
  cbn. rewrite Nat.eqb_refl. cbn.
  destruct (passes f (SessionMetrics.sessionId m)); reflexivity.
Qed.

End DeliveryFacts.

Section SubscriberFacts.
Import JsString JsNumber Monitoring Startup Delivery.
Local Open Scope Z_scope.
Context {cal : Calendar}.

Lemma wired_plumbing s s' : plumbing s' = plumbing s -> wired s -> wired s'.
Proof. unfold plumbing, wired. intros [= L C N]. now rewrite L, C, N. Qed.

Lemma plumbing_listeners s s' :
  plumbing s' = plumbing s -> listeners s' = listeners s.
Proof. unfold plumbing. congruence. Qed.

Lemma step_plumbing s op :
  (forall ws f, op <> doStream ws f) -> (forall ws, op <> doClose ws) ->
  plumbing (step s op) = plumbing s.
Proof.
  destruct op as [req random now|id u now|id response error now
                 |ws f|ws|sid|sid now]; intros NS NC; cbn [step].
  - apply startRequest_quiet.
  - apply updateRequest_quiet.
  - apply endRequest_quiet.
  - now destruct (NS ws f).
  - now destruct (NC ws).
  - apply clearLogs_quiet.
  - apply resetMetrics_quiet.
Qed.

Lemma registrations_In c ws f ev l :
  In (ev, l) (registrations c ws f) -> call l = c /\ socket l = ws.
Proof.
  unfold registrations. cbn.
  intros [[= _ <-]|[[= _ <-]|[[= _ <-]|[[= _ <-]|[]]]]]; now split.
Qed.

Lemma wired_stream ws f s : wired s -> wired (streamLogs ws f s).
Proof.
  intros (W1 & W2 & W3).
  destruct (streamLogs_plumbing ws f s) as (L & C & N).
  unfold wired. rewrite L, C, N. split; [|split].
  - intros ev l [H|H]%in_app_or.
    + specialize (W1 _ _ H). lia.
    + apply registrations_In in H as [-> _]. lia.
  - intros h [H|[<-|[]]]%in_app_or.
    + specialize (W2 _ H). lia.
    + cbn. lia.
  - intros h ev l [Hh|[<-|[]]]%in_app_or [Hl|Hl]%in_app_or E.
    + eapply W3; eauto.
    + apply registrations_In in Hl as [Cl _]. specialize (W2 _ Hh). lia.
    + specialize (W1 _ _ Hl). cbn in E. lia.
    + apply registrations_In in Hl as [_ Sl]. exact Sl.
Qed.

Lemma wired_close ws s : wired s -> wired (close ws s).
Proof.
  intros (W1 & W2 & W3).
  destruct (close_fields ws s) as (L & C & N & _).
  assert (forall e, In e (listeners (close ws s)) -> In e (listeners s)) as Sub.
  { intros e H. apply list_elem_of_In. eapply elem_of_sublist; [|exact L].
    now apply list_elem_of_In. }
  unfold wired. rewrite C, N. split; [|split].
  - intros ev l H. apply (W1 ev l), Sub, H.
  - exact W2.
  - intros h ev l Hh Hl. apply (W3 h ev l Hh), Sub, Hl.
Qed.

Lemma wired_step s op : wired s -> wired (step s op).
Proof.
  intros W. destruct op as [req random now|id u now|id response error now
                           |ws f|ws|sid|sid now];
    try (eapply wired_plumbing; [|exact W]; apply step_plumbing;
         intros; discriminate).
  - now apply wired_stream.
  - now apply wired_close.
Qed.

Lemma wired_run ops : forall s, wired s -> wired (run ops s).
Proof.
  induction ops as [|op ops IH]; intros s W; [exact W|].
  apply IH, wired_step, W.
Qed.

Lemma wired_empty : wired emptyService.
Proof. repeat split; intros; cbn in *; tauto. Qed.

Lemma removeLast_other (q : EventName * Listener -> bool) ev l ls :
  (forall e, In e ls -> registers ev l e = true -> q e = false) ->
  List.filter q (removeLast ev l ls) = List.filter q ls.
Proof.
  induction ls as [|e rest IH]; intros H; [reflexivity|].
  cbn [removeLast].
  destruct (existsb (registers ev l) rest).
  - cbn [List.filter]. rewrite IH; [reflexivity|].
    intros e' He'. apply H. now right.
  - destruct (registers ev l e) eqn:R; [|reflexivity].
    cbn [List.filter]. rewrite (H e); [reflexivity|now left|exact R].
Qed.

Lemma registers_call ev l e : registers ev l e = true -> call (snd e) = call l.
Proof.
  unfold registers, sameFunction.
  intros [_ [E _]%andb_true_iff]%andb_true_iff. now apply Nat.eqb_eq.
Qed.

Lemma onClose_other h ws s :
  (forall ev l, In (ev, l) (listeners s) ->
     call l = call (logger h) \/ call l = call (meter h) -> socket l <> ws) ->
  List.filter (toSocket ws) (listeners (onClose h s))
  = List.filter (toSocket ws) (listeners s).
Proof.
  intros H. unfold onClose, removeListener. cbn [listeners withListeners].
  assert (forall ls, (forall e, In e ls -> In e (listeners s)) ->
          forall ev l, l = logger h \/ l = meter h ->
          List.filter (toSocket ws) (removeLast ev l ls)
          = List.filter (toSocket ws) ls) as Step.
  { intros ls Sub ev l Which. apply removeLast_other.
    intros [ev' l'] He R. apply registers_call in R. cbn [snd] in R.
    unfold toSocket. cbn [snd]. apply Nat.eqb_neq.
    apply (H ev' l'); [now apply Sub|]. destruct Which as [-> | ->]; auto. }
  assert (forall ev l ls, (forall e, In e ls -> In e (listeners s)) ->
          forall e, In e (removeLast ev l ls) -> In e (listeners s)) as Keep.
  { intros ev l ls Sub e He. apply Sub. apply list_elem_of_In.
    eapply elem_of_sublist; [|apply removeLast_sublist].
    apply list_elem_of_In. exact He. }
  rewrite Step; [|eauto 6|now right].
  rewrite Step; [|eauto 6|now left].
  rewrite Step; [|eauto 6|now left].
  rewrite Step; [reflexivity|auto|now left].
Qed.

Lemma closing_other ws ws' hs : forall s,
  (forall h ev l, In h hs -> closing h = ws' -> In (ev, l) (listeners s) ->
     call l = call (logger h) \/ call l = call (meter h) -> socket l <> ws) ->
  List.filter (toSocket ws)
    (listeners
       (fold_left
          (fun acc h => if Nat.eqb (closing h) ws' then onClose h acc else acc)
          hs s))
  = List.filter (toSocket ws) (listeners s).
Proof.
  induction hs as [|h hs IH]; intros s H; [reflexivity|].
  cbn [fold_left]. rewrite IH.
  - destruct (Nat.eqb_spec (closing h) ws') as [E|]; [|reflexivity].
    apply onClose_other. intros ev l Hl. apply (H h ev l); auto. now left.
  - intros h' ev l Hh' E Hl. apply (H h' ev l); [now right|exact E|].
    destruct (Nat.eqb (closing h) ws'); [|exact Hl].
    destruct (onClose_fields h s) as (Sub & _).
    apply list_elem_of_In. eapply elem_of_sublist; [|exact Sub].
    now apply list_elem_of_In.
Qed.

Lemma attached_step c ws f s op :
  attached c ws f s -> wired s ->
  (forall f', op <> doStream ws f') -> op <> doClose ws ->
  attached c ws f (step s op).
Proof.
  unfold attached. intros A (W1 & W2 & W3) NS NC.
  destruct op as [req random now|id u now|id response error now
                 |ws' f'|ws'|sid|sid now];
    try (match goal with
         | |- context [step s ?op] =>
             assert (plumbing (step s op) = plumbing s) as Pl
               by (apply step_plumbing; intros; discriminate)
         end;
         apply plumbing_listeners in Pl; rewrite Pl; exact A).
  - cbn [step]. destruct (streamLogs_plumbing ws' f' s) as (L & _). rewrite L.
    rewrite List.filter_app, A.
    assert (ws' <> ws) as N by (intros ->; now apply (NS f')).
    unfold registrations, toSocket. cbn.
    apply Nat.eqb_neq in N. rewrite N. reflexivity.
  - cbn [step]. unfold close. rewrite closing_other; [exact A|].
    assert (ws' <> ws) as N by (intros ->; now apply NC).
    intros h ev l Hh E Hl Which. rewrite (W3 h ev l Hh Hl Which). congruence.
Qed.

Lemma attached_run c ws f ops : forall s,
  attached c ws f s -> wired s ->
  (forall f', ~ In (doStream ws f') ops) -> ~ In (doClose ws) ops ->
  attached c ws f (run ops s) /\ wired (run ops s).
Proof.
  induction ops as [|op ops IH]; intros s A W NS NC; [now split|].
  cbn [run fold_left]. apply IH.
  - apply attached_step; try assumption.
    + intros f' ->. apply (NS f'). now left.
    + intros ->. apply NC. now left.
  - now apply wired_step.
  - intros f' H. apply (NS f'). now right.
  - intros H. apply NC. now right.
Qed.

Lemma attached_after_stream ws f ops :
  (forall f', ~ In (doStream ws f') ops) ->
  let s := streamLogs ws f (run ops emptyService) in
  attached (calls (run ops emptyService)) ws f s /\ wired s.
Proof.
  intros NS. cbv zeta. split.
  - destruct (reachable_fresh ws ops NS) as [Fresh _].
    unfold attached.
    destruct (streamLogs_plumbing ws f (run ops emptyService)) as (L & _).
    rewrite L, List.filter_app, filter_none.
    + unfold registrations, toSocket. cbn. now rewrite Nat.eqb_refl.
    + intros [ev l] H. unfold toSocket. cbn [snd]. apply Nat.eqb_neq.
      now apply (Fresh ev l).
  - apply wired_stream, wired_run, wired_empty.
Qed.

Lemma framesTo_sent ws s s' : sent s' = sent s -> framesTo ws s' = framesTo ws s.
Proof. unfold framesTo. now intros ->. Qed.

Lemma emit_to ev p c ws f s :
  attached c ws f s ->
  framesTo ws (emit ev p s)
  = (framesTo ws s ++ delivered ev p ws (registrations c ws f))%list /\
  listeners (emit ev p s) = listeners s.
Proof.
  intros A. split.
  - rewrite emit_frames, delivered_filter. now rewrite A.
  - pose proof (emit_inside ev p s) as H. unfold inside in H. now injection H.
Qed.

Lemma archiving_wires now old : forall s,
  let s' :=
    fold_left
      (fun acc '(id, request) =>
         let acc' := persistRequestLog request now acc in
         withRequests (mapDelete id (requests acc')) acc')
      old s in
  sent s' = sent s /\ listeners s' = listeners s.
Proof.
  induction old as [|[id r] old IH]; intros s; [now split|].
  cbn [fold_left]. cbv zeta in IH |- *.
  destruct (IH (withRequests
                  (mapDelete id (requests (persistRequestLog r now s)))
                  (persistRequestLog r now s))) as [-> ->].
  unfold persistRequestLog. now destruct (diskFull s).
Qed.

End SubscriberFacts.

Section SubscriberTheorems.
Import JsString JsNumber Monitoring Startup Delivery.
Local Open Scope Z_scope.
Context {cal : Calendar}.

Lemma persistMetrics_wires now s :
  sent (persistMetrics now s) = sent s /\
  listeners (persistMetrics now s) = listeners s.
Proof. unfold persistMetrics. now destruct (diskFull s). Qed.

Lemma persistRequestLog_wires r now s :
  sent (persistRequestLog r now s) = sent s /\
  listeners (persistRequestLog r now s) = listeners s.
Proof. unfold persistRequestLog. now destruct (diskFull s). Qed.

Lemma attached_listeners c ws f s s' :
  listeners s' = listeners s -> attached c ws f s -> attached c ws f s'.
Proof. unfold attached. now intros ->. Qed.

Lemma updateSessionMetrics_frames c ws f r now s :
  attached c ws f s ->
  let sid := RequestLog.sessionId r in
  let m :=
    account r
      match mapGet sid (sessionMetrics s) with
      | Some m => m
      | None => freshMetrics sid now
      end in
  framesTo ws (updateSessionMetrics r now s)
  = (framesTo ws s
       ++ delivered metrics_update (aMetrics m) ws (registrations c ws f))%list
  /\ listeners (updateSessionMetrics r now s) = listeners s.
Proof.
  intros A. cbv zeta. unfold updateSessionMetrics.
  set (m := account r _). set (s1 := withMetrics _ s).
  destruct (persistMetrics_wires now s1) as [Se Li].
  destruct (emit_to metrics_update (aMetrics m) c ws f (persistMetrics now s1))
    as [Fr Li'].
  { eapply attached_listeners; [|exact A]. exact Li. }
  rewrite Fr, Li', Li. split; [|reflexivity].
  f_equal. now apply framesTo_sent.
Qed.

Lemma updateRequest_frames c ws f id u now s r :
  attached c ws f s ->
  mapGet id (requests s) = Some r ->
  let r' := assign r u in
  let sid := RequestLog.sessionId r' in
  let m :=
    account r'
      match mapGet sid (sessionMetrics s) with
      | Some m => m
      | None => freshMetrics sid now
      end in
  framesTo ws (updateRequest id u now s)
  = (framesTo ws s
       ++ (if truthy sid
           then delivered metrics_update (aMetrics m) ws (registrations c ws f)
           else [])
       ++ delivered request_update (aLog r') ws (registrations c ws f))%list
  /\ listeners (updateRequest id u now s) = listeners s.
Proof.
  intros A G. cbv zeta. unfold updateRequest. rewrite G.
  set (r' := assign r u). set (s1 := withRequests _ s).
  assert (attached c ws f s1) as A1 by exact A.
  set (s2 := if truthy _ then _ else _).
  assert (framesTo ws s2
          = (framesTo ws s
               ++ (if truthy (RequestLog.sessionId r')
                   then delivered metrics_update
                          (aMetrics
                             (account r'
                                match mapGet (RequestLog.sessionId r')
                                        (sessionMetrics s) with
                                | Some m => m
                                | None =>
                                    freshMetrics (RequestLog.sessionId r') now
                                end)) ws (registrations c ws f)
                   else []))%list /\
          listeners s2 = listeners s) as [F2 L2].
  { subst s2. destruct (truthy _).
    - apply (updateSessionMetrics_frames c ws f r' now s1 A1).
    - now rewrite app_nil_r. }
  destruct (emit_to request_update (aLog r') c ws f s2) as [F3 L3].
  { eapply attached_listeners; [exact L2|exact A]. }
  destruct (terminal (u_status u)).
  - destruct (persistRequestLog_wires r' now
                (emit request_update (aLog r') s2)) as [Se Li].
    rewrite (framesTo_sent ws _ _ Se), Li, F3, L3, F2, L2.
    now rewrite <- app_assoc.
  - rewrite F3, L3, F2, L2. now rewrite <- app_assoc.
Qed.

Lemma run_app a b s : run (a ++ b) s = run b (run a s).
Proof. unfold run. apply fold_left_app. Qed.

(** X22.  While a socket is subscribed, every [startRequest] sends it
    exactly one log frame with the new entry when the entry's session
    passes the filter of the subscription, and nothing otherwise. *)
Theorem subscriber_sees_each_start (ops before : list Op) (ws : nat)
    (sessionId : option string) (req : Request) (random : string) (now : Z) :
  (forall f, ~ In (doStream ws f) (ops ++ before)) ->
  ~ In (doClose ws) before ->
  let s := run before (streamLogs ws sessionId (run ops emptyService)) in
  let entry := newRequestLog req (generateRequestId now random) now in
  framesTo ws (snd (startRequest req random now s))
  = (framesTo ws s
       ++ (if passes sessionId (RequestLog.sessionId entry)
           then [log entry] else []))%list.
Proof.
  intros NS NC. cbv zeta.
  destruct (attached_after_stream ws sessionId ops) as [A W].
  { intros f H. apply (NS f), in_or_app. now left. }
  destruct (attached_run _ ws sessionId before _ A W) as [A1 _].
  { intros f H. apply (NS f), in_or_app. now right. }
  { exact NC. }
  set (s := run before _) in *.
  unfold startRequest. cbn [snd].
  set (entry := newRequestLog req (generateRequestId now random) now).
  set (s1 := withRequests _ s).
  destruct (emit_to request_start (aLog entry) _ ws sessionId s1 A1)
    as [Fr _].
  rewrite delivered_log in Fr by now left.
  destruct (_ >? _); [|exact Fr].
  unfold archiveOldLogs.
  destruct (archiving_wires now
              (firstn 100 (sortBy byTimestamp
                 (requests (emit request_start (aLog entry) s1))))
              (emit request_start (aLog entry) s1)) as [Se _].
  cbv zeta in Se. rewrite (framesTo_sent ws _ _ Se). exact Fr.
Qed.

(** X23.  While a socket is subscribed, [endRequest] on a request that
    is in the map and whose session passes the filter sends it the
    metrics of the session as updated, when the request has a session
    id, and then the finished entry twice: once for the update event
    and once for the end event.  A request of another session sends it
    nothing. *)
Theorem subscriber_sees_each_end (ops before : list Op) (ws : nat)
    (sessionId : option string) (requestId : string)
    (response : option ResponseBody) (error : option (option string))
    (now : Z) (request : RequestLog.t) :
  (forall f, ~ In (doStream ws f) (ops ++ before)) ->
  ~ In (doClose ws) before ->
  mapGet requestId
    (requests (run before (streamLogs ws sessionId (run ops emptyService))))
  = Some request ->
  let s := run before (streamLogs ws sessionId (run ops emptyService)) in
  let finished := assign request (endUpdates request response error now) in
  let sid := RequestLog.sessionId request in
  let m :=
    account finished
      match getSessionMetrics sid s with
      | Some m => m
      | None => freshMetrics sid now
      end in
  framesTo ws (endRequest requestId response error now s)
  = (framesTo ws s
       ++ (if passes sessionId sid
           then (if truthy sid then [metrics (one m)] else [])
                  ++ [log finished; log finished]
           else []))%list.
Proof.
  intros NS NC G. cbv zeta.
  destruct (attached_after_stream ws sessionId ops) as [A W].
  { intros f H. apply (NS f), in_or_app. now left. }
  destruct (attached_run _ ws sessionId before _ A W) as [A1 _].
  { intros f H. apply (NS f), in_or_app. now right. }
  { exact NC. }
  assert (ledger (run before (streamLogs ws sessionId (run ops emptyService))))
    as ((_ & K) & _).
  { apply ledger_run. apply (ledger_step _ (doStream ws sessionId)).
    apply ledger_run, ledger_empty. }
  set (s := run before _) in *.
  set (u := endUpdates request response error now).
  set (finished := assign request u).
  unfold endRequest. rewrite G. fold u.
  destruct (updateRequest_frames _ ws sessionId requestId u now s request A1 G)
    as [Fu Lu].
  cbv zeta in Fu. fold finished in Fu.
  change (RequestLog.sessionId finished) with (RequestLog.sessionId request)
    in Fu.
  destruct (updateRequest_store requestId u now s request G) as (R & _).
  cbv zeta in R. fold finished in R.
  rewrite R, mapGet_mapSet.
  destruct (emit_to request_end (aLog finished) (calls (run ops emptyService))
              ws sessionId (updateRequest requestId u now s)) as [Fe _].
  { eapply attached_listeners; [exact Lu|exact A1]. }
  rewrite Fe, Fu. rewrite !delivered_log by auto. rewrite delivered_metrics.
  change (RequestLog.sessionId finished) with (RequestLog.sessionId request).
  unfold getSessionMetrics.
  set (m := account finished _).
  assert (SessionMetrics.sessionId m = RequestLog.sessionId request) as ->.
  { subst m. cbn [account SessionMetrics.sessionId].
    destruct (mapGet (RequestLog.sessionId request) (sessionMetrics s))
      as [m0|] eqn:Gm; [|reflexivity].
    apply mapGet_In in Gm. now apply K. }
  rewrite <- !app_assoc. f_equal.
  destruct (passes sessionId (RequestLog.sessionId request));
    destruct (truthy (RequestLog.sessionId request)); reflexivity.
Qed.

End SubscriberTheorems.

Section SubscriberExamples.
Import JsString JsNumber Monitoring Startup Delivery.
Local Open Scope Z_scope.
Local Existing Instance epochDay.

Lemma subscriber_sees_each_start_witness :
  let s := run [doStart sampleRequest "a" 1000]
             (streamLogs 7 (Some "fc92274d") emptyService) in
  framesTo 7 (snd (startRequest sampleRequest "b" 1001 s))
  = (framesTo 7 s ++ [log (newRequestLog sampleRequest "req_1001_b" 1001)])%list.
Proof.
  apply (subscriber_sees_each_start [] [doStart sampleRequest "a" 1000] 7
           (Some "fc92274d") sampleRequest "b" 1001).
  - intros f [H|[]]. discriminate.
  - intros [H|[]]. discriminate.
Defined.

Lemma subscriber_sees_each_end_witness :
  let s := run [doStart sampleRequest "a" 1000]
             (streamLogs 7 (Some "fc92274d") emptyService) in
  length (framesTo 7 (endRequest "req_1000_a" None None 1300 s))
  = (length (framesTo 7 s) + 3)%nat.
Proof.
  cbv zeta.
  rewrite (subscriber_sees_each_end [] [doStart sampleRequest "a" 1000] 7
             (Some "fc92274d") "req_1000_a" None None 1300
             (newRequestLog sampleRequest "req_1000_a" 1000)).
  - reflexivity.
  - intros f [H|[]]. discriminate.
  - intros [H|[]]. discriminate.
  - reflexivity.
Defined.

End SubscriberExamples.

(** ** More on strings: separators *)

Section SeparatorFacts.
Import JsString.

Lemma count_trimStart c s : (count c (trimStart s) <= count c s)%nat.
Proof.
  induction s as [|d s IH]; simpl; [lia|].
  destruct (isWhite d); simpl; lia.
Qed.

Lemma count_trimEnd c s : (count c (trimEnd s) <= count c s)%nat.
Proof.
  induction s as [|d s IH]; simpl; [lia|].
  destruct (trimEnd s) eqn:E.
  - destruct (isWhite d); simpl in *; lia.
  - simpl in *. lia.
Qed.

Lemma count_trim c s : (count c (trim s) <= count c s)%nat.
Proof.
  unfold trim. etransitivity; [apply count_trimEnd|apply count_trimStart].
Qed.

Lemma split_parts c sep s x :
  In x (split sep s) -> (count c x <= count c s)%nat.
Proof.
  revert x. induction s as [|d s IH]; simpl; intros x.
  - intros [<-|[]]. simpl. lia.
  - destruct (Ascii.eqb d sep).
    + intros [<-|H]; [simpl; lia|]. specialize (IH x H). lia.
    + destruct (split sep s) as [|h t] eqn:E.
      * intros [<-|[]]. simpl. lia.
      * intros [<-|H].
        -- specialize (IH h (or_introl eq_refl)). simpl. lia.
        -- specialize (IH x (or_intror H)). lia.
Qed.

Lemma split_parts_clean sep s x : In x (split sep s) -> count sep x = 0%nat.
Proof.
  revert x. induction s as [|d s IH]; simpl; intros x.
  - intros [<-|[]]. reflexivity.
  - destruct (Ascii.eqb d sep) eqn:D.
    + intros [<-|H]; [reflexivity|auto].
    + destruct (split sep s) as [|h t] eqn:E.
      * intros [<-|[]]. simpl. now rewrite D.
      * intros [<-|H].
        -- simpl. rewrite D. apply IH. now left.
        -- apply IH. now right.
Qed.

Lemma append_cons d (a b : string) : String d a +:+ b = String d (a +:+ b).
Proof. reflexivity. Qed.

Lemma append_nil (b : string) : "" +:+ b = b.
Proof. reflexivity. Qed.

Lemma split_join sep a b :
  count sep a = 0%nat -> split sep (a +:+ String sep b) = a :: split sep b.
Proof.
  induction a as [|d a IH]; rewrite ?append_cons, ?append_nil; simpl.
  - intros _. now rewrite Ascii.eqb_refl.
  - destruct (Ascii.eqb d sep); [discriminate|]. simpl. intros H.
    now rewrite IH.
Qed.

Lemma append_assoc (a b c : string) : (a +:+ b) +:+ c = a +:+ (b +:+ c).
Proof.
  induction a as [|d a IH]; rewrite ?append_cons, ?append_nil;
    [reflexivity|now rewrite IH].
Qed.

Lemma length_append (a b : string) :
  String.length (a +:+ b) = (String.length a + String.length b)%nat.
Proof.
  induction a as [|d a IH]; rewrite ?append_cons, ?append_nil; simpl;
    [reflexivity|now rewrite IH].
Qed.

Lemma append_cancel_r (t a b : string) : a +:+ t = b +:+ t -> a = b.
Proof.
  revert b. induction a as [|d a IH]; intros [|e b] H;
    rewrite ?append_cons, ?append_nil in H.
  - reflexivity.
  - apply (f_equal String.length) in H. simpl in H.
    rewrite length_append in H. lia.
  - apply (f_equal String.length) in H. simpl in H.
    rewrite length_append in H. lia.
  - injection H as -> H. f_equal. now apply IH.
Qed.

Lemma append_cancel_l (t a b : string) : t +:+ a = t +:+ b -> a = b.
Proof.
  induction t as [|d t IH]; rewrite ?append_cons, ?append_nil; [auto|].
  intros [= H]. auto.
Qed.

End SeparatorFacts.

(** ** Session identity, continued *)

Section IdentityMore.
Import JsString Identity.

(** X10.  The id [default] belongs to the empty preference alone: every
    other preference, blank ones included, gets an id of eight
    characters. *)
Theorem default_id_is_reserved (modelPreference : string) :
  (generateSessionId modelPreference = "default" <-> modelPreference = "") /\
  (modelPreference <> "" ->
   String.length (generateSessionId modelPreference) = 8%nat /\
   forallb Md5.isHex (list_ascii_of_string (generateSessionId modelPreference))
   = true).
Proof.
  split; [split|].
  - intros E. destruct modelPreference as [|c s]; [reflexivity|].
    destruct (generateSessionId_digest (String c s)) as (_ & L & _);
      [discriminate|].
    rewrite E in L. discriminate.
  - intros ->. apply generateSessionId_empty.
  - intros N. now destruct (generateSessionId_digest modelPreference N)
      as (_ & L & H).
Qed.

Lemma parsed_names (preference : string) :
  let parsed := parseModelPreference preference in
  (provider parsed <> None -> model parsed <> None) /\
  (forall x, provider parsed = Some x \/ model parsed = Some x ->
     count ","%char x = 0%nat).
Proof.
  cbv zeta. unfold parseModelPreference.
  destruct (negb (truthy preference) || negb (truthy (trim preference))).
  { cbn. split; [tauto|]. intros x [H|H]; discriminate. }
  pose proof (split_parts_clean ","%char preference) as Clean.
  destruct (split ","%char preference) as [|a [|b [|c rest]]]; cbn [map].
  - cbn. split; [tauto|]. intros x [H|H]; discriminate.
  - assert (count ","%char (trim a) = 0%nat) as Ca.
    { pose proof (count_trim ","%char a). rewrite (Clean a) in H; [lia|].
      now left. }
    pose proof (split_parts ","%char "/"%char (trim a)) as Parts.
    destruct (split "/"%char (trim a)) as [|s0 [|s1 [|s2 more]]]; cbn;
      (split; [congruence|]); intros x [[= <-]|[= <-]]; try assumption.
    + specialize (Parts s0 (or_introl eq_refl)). lia.
    + specialize (Parts s1 (or_intror (or_introl eq_refl))). lia.
  - cbn. split; [congruence|].
    intros x [[= <-]|[= <-]].
    + pose proof (count_trim ","%char a). rewrite (Clean a) in H; [lia|].
      now left.
    + pose proof (count_trim ","%char b). rewrite (Clean b) in H; [lia|].
      right. now left.
  - cbn. split; [tauto|]. intros x [H|H]; discriminate.
Qed.

(** X11.  [parseModelPreference] never names a provider without a
    model, and no comma is left in what it names. *)
Theorem parseModelPreference_names (preference : string) :
  let parsed := parseModelPreference preference in
  (provider parsed <> None -> model parsed <> None) /\
  (forall x, provider parsed = Some x \/ model parsed = Some x ->
     count ","%char x = 0%nat).
Proof. apply parsed_names. Qed.

End IdentityMore.

(** ** Ports, continued *)

Section PortMore.
Import PortAllocator.
Local Open Scope Z_scope.

(** X12.  The port [findAvailablePort] finds does not depend on where
    the scan starts, as long as it starts at or below that port and not
    below the first start. *)
Theorem findAvailablePort_stable (net : Z -> ListenEvent) (s s' p : Z) :
  fst (findAvailablePort net s) = Port p ->
  s <= s' <= p ->
  fst (findAvailablePort net s') = Port p.
Proof.
  intros E R.
  pose proof (findAvailablePort_scan net s) as H.
  pose proof (findAvailablePort_scan net s') as H'.
  destruct (findAvailablePort net s) as [[q|a b|b] ops]; cbn [fst] in E;
    try discriminate.
  injection E as ->. destruct H as (Rp & P & F & First & _).
  destruct (findAvailablePort net s') as [[q|a b|b] ops']; cbn [fst].
  - destruct H' as (Rq & Pq & Fq & Firstq & _).
    destruct (Z.lt_trichotomy q p) as [L|[->|G]]; [|reflexivity|].
    + exfalso. now apply (First q ltac:(lia)).
    + exfalso. now apply (Firstq p ltac:(lia)).
  - destruct H' as (_ & _ & All & _).
    exfalso. now apply (All p ltac:(lia)).
  - destruct H' as (Rb & B & Firstb & _). exfalso.
    destruct (Z.lt_trichotomy b p) as [L|[->|G]].
    + apply B, (First b). lia.
    + exact (B P).
    + now apply (Firstb p ltac:(lia)).
Qed.

End PortMore.

Section PortExamples.
Import PortAllocator SessionFiles.
Local Open Scope Z_scope.

Lemma findAvailablePort_stable_witness :
  fst (findAvailablePort (takenBelow 3460) 3456) = Port 3460 /\
  fst (findAvailablePort (takenBelow 3460) 3458) = Port 3460.
Proof.
  split; [reflexivity|].
  apply (findAvailablePort_stable (takenBelow 3460) 3456 3458 3460);
    [reflexivity|lia].
Defined.

End PortExamples.

(** ** Session files *)

Section FilesFacts.
Import JsString JsNumber SessionRegistry SessionFiles.
Local Open Scope Z_scope.
Context {P : Platform}.

Lemma written_pid cfg pid w :
  0 <= pid -> pidFile cfg ∉ faulty w ->
  let w' := withFiles (<[pidFile cfg := toString pid]> (files w)) w in
  saveSessionPid cfg pid w = Some w' /\
  getSessionPid cfg w' = Some pid /\
  isSessionRunning cfg w'
  = match isProcessRunning (Some pid) w' with
    | returned alive => (alive, w')
    | thrown => (false, cleanupSessionPid cfg w')
    end.
Proof.
  intros Pos NF w'.
  assert (files w' !! pidFile cfg = Some (toString pid)) as L
    by (unfold w', withFiles; cbn [files]; apply lookup_insert_eq).
  assert (existsSync (pidFile cfg) w' = true) as E
    by (unfold existsSync; now rewrite L).
  assert (readFileSync (pidFile cfg) w' = Some (toString pid)) as R.
  { unfold readFileSync. destruct (decide _) as [F|_]; [|exact L].
    now exfalso. }
  split; [|split].
  - unfold saveSessionPid, writeFileSync.
    destruct (decide _) as [F|_]; [now exfalso|reflexivity].
  - unfold getSessionPid. rewrite E, R. cbn [negb].
    now apply parseInt_toString.
  - unfold isSessionRunning. rewrite E, R. cbn [negb].
    now rewrite parseInt_toString.
Qed.

Lemma cleaned_pid cfg w :
  pidFile cfg ∉ faulty w ->
  let w' := cleanupSessionPid cfg w in
  existsSync (pidFile cfg) w' = false /\
  getSessionPid cfg w' = None /\
  isSessionRunning cfg w' = (false, w').
Proof.
  intros NF w'. destruct (cleanupSessionPid_files cfg w NF) as [F _].
  assert (existsSync (pidFile cfg) w' = false) as E
    by (eapply gone_after_delete; exact F).
  split; [exact E|].
  unfold getSessionPid, isSessionRunning. now rewrite E.
Qed.

(** X13.  A pid written by [saveSessionPid] is the pid [getSessionPid]
    reads and the one [isSessionRunning] asks the platform about; after
    [cleanupSessionPid] no pid is found and the session counts as not
    running.  Writing fails only for a path that cannot be written. *)
Theorem session_pid_round_trip (cfg : SessionConfig) (pid : Z) (w : World) :
  0 <= pid ->
  match saveSessionPid cfg pid w with
  | Some w' =>
      getSessionPid cfg w' = Some pid /\
      isSessionRunning cfg w'
      = match isProcessRunning (Some pid) w' with
        | returned alive => (alive, w')
        | thrown => (false, cleanupSessionPid cfg w')
        end /\
      getSessionPid cfg (cleanupSessionPid cfg w') = None /\
      isSessionRunning cfg (cleanupSessionPid cfg w')
      = (false, cleanupSessionPid cfg w')
  | None => pidFile cfg ∈ faulty w
  end.
Proof.
  intros Pos. destruct (decide (pidFile cfg ∈ faulty w)) as [F|NF].
  - unfold saveSessionPid, writeFileSync.
    destruct (decide _) as [_|N]; [exact F|now exfalso].
  - destruct (written_pid cfg pid w Pos NF) as (-> & G & R).
    destruct (cleaned_pid cfg
                (withFiles (<[pidFile cfg := toString pid]> (files w)) w) NF)
      as (_ & G' & R').
    repeat split; assumption.
Qed.

(** X14.  Whatever the order of increments and decrements, the
    reference-count file holds the counter that goes up by one and down
    by one but never below zero. *)
Theorem reference_count_follows_counter (cfg : SessionConfig)
    (ops : list RefOp) : forall (w : World) (c : Z),
  referenceCountFile cfg ∉ faulty w ->
  getSessionReferenceCount cfg w = Some c ->
  0 <= c ->
  c + Z.of_nat (length ops) <= MAX_SAFE_INTEGER ->
  exists w',
    applyRefs cfg ops w = Some w' /\
    getSessionReferenceCount cfg w' = Some (fold_left counter ops c) /\
    0 <= fold_left counter ops c.
Proof.
  unfold getSessionReferenceCount.
  induction ops as [|op ops IH]; intros w c NF G Pos Safe.
  - exists w. now repeat split.
  - cbn [applyRefs fold_left length] in *. destruct op; cbn [applyRef counter].
    + destruct (increment_count cfg w c NF G Pos) as (w1 & -> & F1 & G1).
      apply IH; [now rewrite F1|assumption|lia|lia].
    + destruct (decrement_count cfg w c NF G) as (w1 & -> & F1 & G1).
      apply IH; [now rewrite F1|assumption|lia|lia].
Qed.

Lemma sessionDirExists_In dir w :
  sessionDirExists dir w = true <-> In dir (sessionDirs w).
Proof.
  unfold sessionDirExists. rewrite existsb_exists. split.
  - intros (x & Hin & ->%String.eqb_eq). exact Hin.
  - intros Hin. exists dir. split; [exact Hin|apply String.eqb_refl].
Qed.

Lemma listed_exists dir w :
  sessionDirExists dir w = true -> sessionsDirExists w = true.
Proof.
  unfold sessionDirExists, sessionsDirExists.
  destruct (sessionDirs w); cbn; [discriminate|intros _; apply orb_true_r].
Qed.

Lemma getSessionConfig_host pref w :
  let w1 := snd (getSessionConfig pref w) in
  sessionDirExists (Identity.generateSessionId pref) w1 = true /\
  files w1 = files w /\ faulty w1 = faulty w /\
  descriptors w1 = descriptors w /\ procs w1 = procs w /\
  (sessionDirExists (Identity.generateSessionId pref) w = true -> w1 = w).
Proof.
  cbv zeta. unfold getSessionConfig. cbn [snd].
  destruct (ensureSessionsDir_kept w) as (F & Fa & Sd & De & Pr).
  assert (sessionDirExists (Identity.generateSessionId pref)
            (ensureSessionsDir w)
          = sessionDirExists (Identity.generateSessionId pref) w) as Eq
    by (unfold sessionDirExists; now rewrite Sd).
  rewrite Eq.
  destruct (sessionDirExists (Identity.generateSessionId pref) w) eqn:E;
    cbn [negb].
  - repeat split; try assumption.
    intros _. apply ensureSessionsDir_same. now apply (listed_exists _ _ E).
  - repeat split; try discriminate; try assumption.
    apply sessionDirExists_In. cbn. apply in_or_app. right. now left.
Qed.

Lemma getSessionConfig_again pref w w' :
  sessionDirExists (Identity.generateSessionId pref) w' = true ->
  descriptors w' = descriptors (snd (getSessionConfig pref w)) ->
  getSessionConfig pref w' = (fst (getSessionConfig pref w), w').
Proof.
  intros E D. unfold getSessionConfig at 1.
  rewrite (ensureSessionsDir_same _ (listed_exists _ _ E)), E. cbn [negb].
  unfold getSessionConfig at 1. cbn [fst]. rewrite D. reflexivity.
Qed.

(** X15.  [getSessionConfig] settles: it changes the host at most by
    creating directories, that of the sessions and that of the session,
    and a second call returns the same configuration and changes
    nothing. *)
Theorem getSessionConfig_settles (modelPreference : string) (w : World) :
  let cfg := fst (getSessionConfig modelPreference w) in
  let w1 := snd (getSessionConfig modelPreference w) in
  getSessionConfig modelPreference w1 = (cfg, w1) /\
  In (sessionId cfg) (sessionDirs w1) /\
  files w1 = files w /\ descriptors w1 = descriptors w /\
  procs w1 = procs w /\
  (In (sessionId cfg) (sessionDirs w) -> w1 = w).
Proof.
  cbv zeta.
  destruct (getSessionConfig_host modelPreference w)
    as (E & F & _ & D & Pr & Same). cbv zeta in *.
  split; [now apply getSessionConfig_again|].
  split; [now apply sessionDirExists_In|].
  repeat split; try assumption.
  intros H. now apply Same, sessionDirExists_In.
Qed.

(** X16.  The port written by [saveSessionConfig] is the port the next
    [getSessionConfig] for the same preference returns, with everything
    else as before; a saved port 0 reads as [BASE_PORT].  Saving fails
    only for a path that cannot be written. *)
Theorem saved_port_is_reused (modelPreference : string) (p : Z) (w : World) :
  let cfg := fst (getSessionConfig modelPreference w) in
  let w1 := snd (getSessionConfig modelPreference w) in
  match saveSessionConfig (withPort p cfg) w1 with
  | Some w2 =>
      getSessionConfig modelPreference w2
      = (withPort (if p =? 0 then PortAllocator.BASE_PORT else p) cfg, w2)
  | None => sessionConfigFile (sessionId cfg) ∈ faulty w
  end.
Proof.
  cbv zeta.
  destruct (getSessionConfig_host modelPreference w)
    as (E & _ & F & _). cbv zeta in *.
  unfold saveSessionConfig.
  change (sessionId (withPort p (fst (getSessionConfig modelPreference w))))
    with (Identity.generateSessionId modelPreference).
  rewrite E, F.
  change (sessionId (fst (getSessionConfig modelPreference w)))
    with (Identity.generateSessionId modelPreference).
  destruct (decide _) as [Fa|_]; [exact Fa|].
  unfold getSessionConfig at 1.
  assert (sessionDirExists (Identity.generateSessionId modelPreference)
            (withDescriptors
               (<[Identity.generateSessionId modelPreference
                  := descriptor
                       (stored (withPort p
                          (fst (getSessionConfig modelPreference w))))]>
                  (descriptors (snd (getSessionConfig modelPreference w))))
               (snd (getSessionConfig modelPreference w))) = true) as E'
    by exact E.
  rewrite (ensureSessionsDir_same _ (listed_exists _ _ E')), E'. cbn [negb].
  unfold withDescriptors at 1. cbn [descriptors].
  rewrite lookup_insert_eq. cbn [port stored withPort].
  reflexivity.
Qed.

End FilesFacts.

(** ** Sessions from start to stop *)

Section SessionLife.
Import JsString JsNumber SessionRegistry SessionFiles.
Local Open Scope Z_scope.
Context {P : Platform}.

Lemma getSessionConfig_paths pref w :
  sessionId (fst (getSessionConfig pref w)) = Identity.generateSessionId pref /\
  pidFile (fst (getSessionConfig pref w))
  = join (join SESSIONS_DIR (Identity.generateSessionId pref)) "router.pid" /\
  referenceCountFile (fst (getSessionConfig pref w))
  = join (join SESSIONS_DIR (Identity.generateSessionId pref))
      "reference-count.txt" /\
  modelPreference (fst (getSessionConfig pref w)) = pref /\
  provider (fst (getSessionConfig pref w))
  = Identity.provider (Identity.parseModelPreference pref) /\
  model (fst (getSessionConfig pref w))
  = Identity.model (Identity.parseModelPreference pref).
Proof. now repeat split. Qed.

(** X17.  The environment [buildModelOverrideConfig] builds for the
    session of a preference names the session and the preference, and
    its [OVERRIDE_MODEL] splits at commas into exactly what
    [parseModelPreference] found: provider and model, or the model
    alone; it is missing exactly when no model was found. *)
Theorem override_model_splits (modelPreference : string) (w : World) :
  let cfg := fst (getSessionConfig modelPreference w) in
  let overrides := buildModelOverrideConfig cfg in
  CCR_SESSION_ID overrides = Identity.generateSessionId modelPreference /\
  CCR_MODEL_PREFERENCE overrides = modelPreference /\
  match OVERRIDE_MODEL overrides with
  | Some joined =>
      exists m, model cfg = Some m /\ truthy m = true /\
        ((present (provider cfg) = false /\ split ","%char joined = [m]) \/
         exists p, provider cfg = Some p /\ truthy p = true /\
           split ","%char joined = [p; m])
  | None => present (model cfg) = false
  end.
Proof.
  cbv zeta.
  destruct (getSessionConfig_paths modelPreference w)
    as (I & _ & _ & Pf & Pr & Mo).
  split; [exact I|]. split; [exact Pf|].
  unfold buildModelOverrideConfig. cbn [OVERRIDE_MODEL]. rewrite Pr, Mo.
  destruct (parsed_names modelPreference) as [_ Clean]. cbv zeta in Clean.
  destruct (Identity.provider (Identity.parseModelPreference modelPreference))
    as [p|] eqn:Ep;
    destruct (Identity.model (Identity.parseModelPreference modelPreference))
      as [m|] eqn:Em; cbn [present text andb].
  - destruct (truthy p) eqn:Tp; destruct (truthy m) eqn:Tm; cbn [andb].
    + exists m. repeat split; try assumption. right. exists p.
      repeat split; try assumption.
      change (p +:+ "," +:+ m) with (p +:+ String ","%char m).
      rewrite split_join by (apply Clean; now left).
      now rewrite split_none by (apply Clean; now right).
    + reflexivity.
    + exists m. repeat split; try assumption. left. split; [reflexivity|].
      apply split_none, Clean. now right.
    + reflexivity.
  - destruct (truthy p); reflexivity.
  - destruct (truthy m) eqn:Tm; [|reflexivity].
    exists m. repeat split; try assumption. left. split; [reflexivity|].
    apply split_none, Clean. now right.
  - reflexivity.
Qed.

Lemma keptBut_refl path w : keptBut path w w.
Proof. now repeat split. Qed.

Lemma cleanupSessionPid_kept cfg w :
  keptBut (pidFile cfg) w (cleanupSessionPid cfg w).
Proof.
  unfold cleanupSessionPid.
  destruct (existsSync _ _); [|apply keptBut_refl].
  unfold unlinkSync. destruct (decide _); [apply keptBut_refl|].
  destruct (files w !! pidFile cfg); [|apply keptBut_refl].
  repeat split. intros other N. unfold withFiles. cbn [files].
  now apply lookup_delete_ne.
Qed.

Lemma isSessionRunning_kept cfg w :
  keptBut (pidFile cfg) w (snd (isSessionRunning cfg w)).
Proof.
  unfold isSessionRunning.
  destruct (negb _); [apply keptBut_refl|].
  destruct (readFileSync _ _); [|apply cleanupSessionPid_kept].
  destruct (isProcessRunning _ _);
    [apply keptBut_refl|apply cleanupSessionPid_kept].
Qed.

Lemma activeIn_kept dir w :
  keptBut (join (join SESSIONS_DIR dir) "router.pid") w (snd (activeIn dir w)).
Proof.
  unfold activeIn.
  destruct (descriptors w !! dir) as [[|saved]|]; try apply keptBut_refl.
  set (cfg := {| modelPreference := _ |}).
  pose proof (isSessionRunning_kept cfg w) as K.
  destruct (isSessionRunning cfg w) as [alive w']. exact K.
Qed.

Lemma join_inj a b b' : join a b = join a b' -> b = b'.
Proof.
  unfold join. intros H. apply append_cancel_l in H.
  now apply append_cancel_l in H.
Qed.

Lemma pidFile_inj (dir dir' : string) :
  join (join SESSIONS_DIR dir) "router.pid"
  = join (join SESSIONS_DIR dir') "router.pid" -> dir = dir'.
Proof.
  unfold join at 1 3. intros H. apply append_cancel_r in H.
  now apply join_inj in H.
Qed.

(** A host on which the session of [cfg] is announced: descriptor and
    pid file in place, the process alive. *)
Lemma announced_is_found cfg pid dirs : forall w,
  pidFile cfg = join (join SESSIONS_DIR (sessionId cfg)) "router.pid" ->
  referenceCountFile cfg
  = join (join SESSIONS_DIR (sessionId cfg)) "reference-count.txt" ->
  0 <= pid ->
  (forall w', procs w' = procs w ->
     isProcessRunning (Some pid) w' = returned true) ->
  In (sessionId cfg) dirs ->
  descriptors w !! sessionId cfg = Some (descriptor (stored cfg)) ->
  files w !! pidFile cfg = Some (toString pid) ->
  pidFile cfg ∉ faulty w ->
  In cfg (fst (activeAmong dirs w)).
Proof.
  intros w Pp Pr Pos Alive. revert w Alive.
  induction dirs as [|dir dirs IH]; intros w Alive Hin D F NF; [destruct Hin|].
  cbn [activeAmong].
  destruct (String.eqb_spec dir (sessionId cfg)) as [->|N].
  - unfold activeIn. rewrite D.
    set (cfg' := {| modelPreference := _ |}).
    assert (cfg' = cfg) as ->.
    { subst cfg'. cbn [stored modelPreference provider model sessionId port].
      rewrite <- Pp, <- Pr. now destruct cfg. }
    assert (isSessionRunning cfg w = (true, w)) as ->.
    { unfold isSessionRunning, existsSync, readFileSync. rewrite F.
      cbn [negb]. destruct (decide _) as [Fa|_]; [now exfalso|].
      rewrite parseInt_toString by assumption. now rewrite Alive. }
    destruct (activeAmong dirs w) as [more w2]. now left.
  - pose proof (activeIn_kept dir w) as (Fa & _ & _ & De & Pc & Fi).
    destruct (activeIn dir w) as [found w1]. cbn [snd] in *.
    specialize (IH w1).
    destruct (activeAmong dirs w1) as [more w2]. cbn [fst] in *.
    assert (In cfg more) as Hm.
    { apply IH.
      - intros w' E. apply Alive. now rewrite E.
      - destruct Hin as [E|Hin]; [now exfalso|exact Hin].
      - now rewrite De.
      - rewrite Fi; [exact F|]. rewrite Pp. intros E. apply N.
        symmetry. now apply pidFile_inj.
      - now rewrite Fa. }
    destruct found; [now right|exact Hm].
Qed.

(** X18.  A session that has saved its descriptor and its pid file is
    found: while the process is alive, [isSessionRunning] answers yes
    and [getAllActiveSessions] lists the session with the port that was
    saved. *)
Theorem announced_session_is_listed (modelPreference : string) (p pid : Z)
    (w w1 w2 w3 : World) (cfg : SessionConfig) :
  getSessionConfig modelPreference w = (cfg, w1) ->
  saveSessionConfig (withPort p cfg) w1 = Some w2 ->
  saveSessionPid (withPort p cfg) pid w2 = Some w3 ->
  0 <= pid ->
  (forall w', procs w' = procs w3 ->
     isProcessRunning (Some pid) w' = returned true) ->
  isSessionRunning (withPort p cfg) w3 = (true, w3) /\
  In (withPort p cfg) (fst (getAllActiveSessions w3)).
Proof.
  intros G S Sp Pos Alive.
  destruct (getSessionConfig_paths modelPreference w) as (I & Pp & Pr & _).
  destruct (getSessionConfig_host modelPreference w) as (E & _).
  rewrite G in I, Pp, Pr, E. cbn [fst snd] in I, Pp, Pr, E.
  unfold saveSessionConfig in S. cbn [sessionId withPort] in S.
  rewrite I, E in S. destruct (decide _) as [|_]; [discriminate|].
  injection S as <-.
  unfold saveSessionPid, writeFileSync in Sp.
  destruct (decide _) as [|NF]; [discriminate|]. injection Sp as <-.
  cbn [pidFile withPort withDescriptors files faulty] in *.
  set (w3 := withFiles _ _) in *.
  assert (files w3 !! pidFile cfg = Some (toString pid)) as F
    by (unfold w3, withFiles; cbn [files]; apply lookup_insert_eq).
  split.
  - unfold isSessionRunning, existsSync, readFileSync.
    cbn [pidFile withPort]. rewrite F. cbn [negb].
    destruct (decide _) as [Fa|_]; [now exfalso|].
    rewrite parseInt_toString by assumption. now rewrite Alive.
  - assert (sessionsDirExists w3 = true) as X
      by (apply (listed_exists (Identity.generateSessionId modelPreference));
          exact E).
    rewrite getAllActiveSessions_scan, (ensureSessionsDir_same _ X).
    apply (announced_is_found (withPort p cfg) pid); cbn [pidFile
      referenceCountFile sessionId withPort]; try assumption.
    + now rewrite I.
    + now rewrite I.
    + rewrite I. apply sessionDirExists_In. exact E.
    + rewrite I. unfold w3, withFiles, withDescriptors. cbn [descriptors].
      apply lookup_insert_eq.
Qed.

End SessionLife.

Section StopTwice.
Import JsString JsNumber SessionRegistry SessionFiles.
Local Open Scope Z_scope.
Context {P : Platform}.
Hypothesis quiet : keepsFiles P.

Lemma stopMain_settled pref w :
  stopMain pref (snd (getSessionConfig pref w)) = stopMain pref w.
Proof.
  unfold stopMain.
  destruct (getSessionConfig_host pref w) as (E & _ & _ & _).
  rewrite (getSessionConfig_again pref w _ E eq_refl).
  now destruct (getSessionConfig pref w).
Qed.

Lemma stopMain_absent pref w :
  files w !! join (join SESSIONS_DIR (Identity.generateSessionId pref))
               "router.pid" = None ->
  fst (stopMain pref w) = isNotRunning /\
  files (snd (stopMain pref w)) = files w.
Proof.
  intros A. unfold stopMain.
  destruct (getSessionConfig_host pref w) as (_ & F & _).
  destruct (getSessionConfig_paths pref w) as (_ & Pp & _).
  destruct (getSessionConfig pref w) as [cfg w1]. cbn [fst snd] in *.
  assert (existsSync (pidFile cfg) w1 = false) as E
    by (unfold existsSync; now rewrite F, Pp, A).
  unfold isSessionRunning. rewrite E. cbn [negb].
  unfold stopCommand, getSessionPid. rewrite E. cbn. now split.
Qed.

Lemma unlinkReferenceCount_absent cfg path w :
  files w !! path = None -> files (unlinkReferenceCount cfg w) !! path = None.
Proof.
  intros A. unfold unlinkReferenceCount.
  destruct (existsSync _ _); [|exact A].
  unfold unlinkSync. destruct (decide _); [exact A|].
  destruct (files w !! referenceCountFile cfg); [|exact A].
  unfold withFiles. cbn [files]. apply lookup_delete_None. now right.
Qed.

Lemma cleanupSessionPid_absent cfg w :
  pidFile cfg ∉ faulty w -> files (cleanupSessionPid cfg w) !! pidFile cfg = None.
Proof.
  intros NF. destruct (cleanupSessionPid_files cfg w NF) as [-> _].
  apply lookup_delete_eq.
Qed.

Lemma stopCommand_leaves cfg w :
  pidFile cfg ∉ faulty w ->
  files (snd (stopCommand cfg w)) !! pidFile cfg = None \/
  stopCommand cfg w = (isNotRunning, w).
Proof.
  intros NF. unfold stopCommand.
  destruct (livePid (getSessionPid cfg w)) as [pid|]; [left|now right].
  destruct (processKill pid SIGTERM w) as [e|w1] eqn:K; cbn [snd].
  - now apply cleanupSessionPid_absent.
  - destruct (processKill_files quiet pid SIGTERM w w1 K) as [F Fa].
    apply unlinkReferenceCount_absent, cleanupSessionPid_absent.
    now rewrite Fa.
Qed.

(** X19.  Stopping is settled after one [ccr stop]: a second one for
    the same preference reports that the session is not running and
    leaves every file as it is. *)
Theorem stop_twice_is_stop_once (modelPreference : string) (w : World) :
  pidFile (fst (getSessionConfig modelPreference w)) ∉ faulty w ->
  let w' := snd (stopMain modelPreference w) in
  fst (stopMain modelPreference w') = isNotRunning /\
  files (snd (stopMain modelPreference w')) = files w'.
Proof.
  intros NF. cbv zeta.
  destruct (getSessionConfig_host modelPreference w) as (_ & F & Fa & _).
  destruct (getSessionConfig_paths modelPreference w) as (_ & Pp & _).
  assert (files (snd (stopMain modelPreference w))
            !! pidFile (fst (getSessionConfig modelPreference w)) = None \/
          stopMain modelPreference w
          = (isNotRunning, snd (getSessionConfig modelPreference w)))
    as [A|Same].
  { unfold stopMain.
    destruct (getSessionConfig modelPreference w) as [cfg w1].
    cbn [fst snd] in *.
    pose proof (isSessionRunning_kept cfg w1) as (Fa2 & _).
    destruct (isSessionRunning cfg w1) as [alive w2] eqn:R. cbn [snd] in *.
    destruct (stopCommand_leaves cfg w2) as [A|Same];
      [now rewrite Fa2, Fa|now left|].
    unfold isSessionRunning in R.
    destruct (negb (existsSync (pidFile cfg) w1)) eqn:Ex.
    - injection R as _ <-. now right.
    - destruct (readFileSync (pidFile cfg) w1) as [text|].
      + destruct (isProcessRunning (parseInt text) w1).
        * injection R as _ <-. now right.
        * injection R as _ <-. left. rewrite Same. cbn [snd].
          apply cleanupSessionPid_absent. now rewrite Fa.
      + injection R as _ <-. left. rewrite Same. cbn [snd].
        apply cleanupSessionPid_absent. now rewrite Fa. }
  - apply stopMain_absent. now rewrite <- Pp.
  - rewrite Same. cbn [snd]. rewrite stopMain_settled, Same. now split.
Qed.

End StopTwice.

Section SessionExamples.
Import JsString JsNumber SessionRegistry SessionFiles.
Local Open Scope Z_scope.
Local Existing Instance posix.

Lemma session_pid_round_trip_witness :
  exists w',
    saveSessionPid sampleConfig 4242 runningHost = Some w' /\
    getSessionPid sampleConfig w' = Some 4242 /\
    getSessionPid sampleConfig (cleanupSessionPid sampleConfig w') = None.
Proof.
  pose proof (session_pid_round_trip sampleConfig 4242 runningHost) as H.
  destruct (saveSessionPid sampleConfig 4242 runningHost) as [w'|] eqn:E.
  - exists w'. destruct H as (G & _ & G' & _); [lia|]. now repeat split.
  - exfalso. vm_compute in E. discriminate.
Defined.

Lemma reference_count_follows_counter_witness :
  exists w',
    applyRefs sampleConfig [release; release; retain; release; release;
                            release; retain] countedHost = Some w' /\
    getSessionReferenceCount sampleConfig w' = Some 1.
Proof.
  destruct (reference_count_follows_counter sampleConfig
              [release; release; retain; release; release; release; retain]
              countedHost 3) as (w' & A & G & _).
  - vm_compute. set_solver.
  - vm_compute. reflexivity.
  - lia.
  - vm_compute. discriminate.
  - exists w'. split; [exact A|exact G].
Defined.

Lemma announced_session_is_listed_witness :
  let cfg := fst (getSessionConfig "openrouter,gpt-4" runningHost) in
  let w1 := snd (getSessionConfig "openrouter,gpt-4" runningHost) in
  exists w2 w3,
    saveSessionConfig (withPort 3460 cfg) w1 = Some w2 /\
    saveSessionPid (withPort 3460 cfg) 4242 w2 = Some w3 /\
    In (withPort 3460 cfg) (fst (getAllActiveSessions w3)).
Proof.
  intros cfg w1.
  set (w2 := withDescriptors
               (<[sessionId cfg := descriptor (stored (withPort 3460 cfg))]>
                  (descriptors w1)) w1).
  set (w3 := withFiles (<[pidFile cfg := toString 4242]> (files w2)) w2).
  assert (saveSessionConfig (withPort 3460 cfg) w1 = Some w2) as S
    by (vm_compute; reflexivity).
  assert (saveSessionPid (withPort 3460 cfg) 4242 w2 = Some w3) as Sp
    by (vm_compute; reflexivity).
  assert (getSessionConfig "openrouter,gpt-4" runningHost = (cfg, w1)) as G
    by (unfold cfg, w1; apply surjective_pairing).
  assert (forall w', procs w' = procs w3 ->
            isProcessRunning (Some 4242) w' = returned true) as Alive.
  { intros w' E. cbn [isProcessRunning posix pidExists]. rewrite E.
    vm_compute. reflexivity. }
  assert (0 <= 4242) as Pos by lia.
  pose proof (announced_session_is_listed "openrouter,gpt-4" 3460 4242
                runningHost w1 w2 w3 cfg G S Sp Pos Alive) as [_ Listed].
  exists w2, w3. split; [exact S|]. split; [exact Sp|exact Listed].
Defined.

Lemma stop_twice_is_stop_once_witness :
  fst (stopMain "openrouter,gpt-4" announcedHost) = successfullyStopped /\
  fst (stopMain "openrouter,gpt-4"
         (snd (stopMain "openrouter,gpt-4" announcedHost))) = isNotRunning.
Proof.
  split; [vm_compute; reflexivity|].
  apply (stop_twice_is_stop_once posix_keepsFiles "openrouter,gpt-4"
           announcedHost).
  vm_compute. set_solver.
Defined.

End SessionExamples.

(** ** Listing sessions and reading logs *)

Section ListingFacts.
Import JsString JsNumber SessionRegistry SessionFiles.
Local Open Scope Z_scope.
Context {P : Platform}.

Lemma append_last (a b : string) c d :
  a +:+ String c "" = b +:+ String d "" -> c = d.
Proof.
  revert b. induction a as [|x a IH]; intros [|y b];
    rewrite ?append_cons, ?append_nil; intros E.
  - now injection E.
  - injection E as _ E. apply (f_equal String.length) in E.
    rewrite length_append in E. cbn in E. lia.
  - injection E as _ E. apply (f_equal String.length) in E.
    rewrite length_append in E. cbn in E. lia.
  - injection E as _ E. now apply (IH b).
Qed.

Lemma activeAmong_kept dirs : forall w,
  let w' := snd (activeAmong dirs w) in
  faulty w' = faulty w /\ sessionsDir w' = sessionsDir w /\
  sessionDirs w' = sessionDirs w /\
  descriptors w' = descriptors w /\ procs w' = procs w /\
  forall path,
    (forall dir, In dir dirs ->
       path <> join (join SESSIONS_DIR dir) "router.pid") ->
    files w' !! path = files w !! path.
Proof.
  induction dirs as [|dir dirs IH]; intros w; [now repeat split|].
  cbn [activeAmong].
  pose proof (activeIn_kept dir w) as (Fa & Ro & Sd & De & Pc & Fi).
  destruct (activeIn dir w) as [found w1]. cbn [snd] in *.
  specialize (IH w1). cbv zeta in IH.
  destruct (activeAmong dirs w1) as [more w2]. cbn [snd] in *.
  destruct IH as (Fa2 & Ro2 & Sd2 & De2 & Pc2 & Fi2).
  rewrite Fa2, Ro2, Sd2, De2, Pc2. repeat split; try assumption.
  intros path Other. rewrite Fi2.
  - apply Fi. apply Other. now left.
  - intros d Hd. apply Other. now right.
Qed.

(** X26.  Listing the active sessions makes the directory of the
    sessions when it is missing and leaves it alone when it is there.
    Apart from that it changes nothing on the host but pid files of
    session directories: descriptors, the directory listing, the
    processes and the paths that fail are as before, and so is every
    other file, the reference-count files among them. *)
Theorem listing_touches_only_pid_files (w : World) :
  let w' := snd (getAllActiveSessions w) in
  sessionsDirExists w' = true /\
  (sessionsDirExists w = true -> sessionsDir w' = sessionsDir w) /\
  sessionDirs w' = sessionDirs w /\
  descriptors w' = descriptors w /\
  procs w' = procs w /\
  faulty w' = faulty w /\
  (forall path,
     (forall dir, In dir (sessionDirs w) ->
        path <> join (join SESSIONS_DIR dir) "router.pid") ->
     files w' !! path = files w !! path) /\
  (forall dir,
     files w' !! join (join SESSIONS_DIR dir) "reference-count.txt"
     = files w !! join (join SESSIONS_DIR dir) "reference-count.txt").
Proof.
  cbv zeta. rewrite getAllActiveSessions_scan.
  destruct (activeAmong_kept (sessionDirs w) (ensureSessionsDir w))
    as (Fa & Ro & Sd & De & Pc & Fi).
  destruct (ensureSessionsDir_kept w) as (F0 & Fa0 & Sd0 & De0 & Pc0).
  cbv zeta in *.
  assert (forall path,
            (forall dir, In dir (sessionDirs w) ->
               path <> join (join SESSIONS_DIR dir) "router.pid") ->
            files (snd (activeAmong (sessionDirs w) (ensureSessionsDir w)))
              !! path = files w !! path) as Fi'.
  { intros path Other. rewrite (Fi path Other). now rewrite F0. }
  split.
  { pose proof (ensureSessionsDir_exists w) as X.
    unfold sessionsDirExists in *. now rewrite Ro, Sd. }
  split.
  { intros X. now rewrite Ro, (ensureSessionsDir_same _ X). }
  split; [congruence|]. split; [congruence|]. split; [congruence|].
  split; [congruence|]. split; [exact Fi'|].
  intros dir. apply Fi'. intros d _ E. unfold join at 1 3 in E.
  change (join SESSIONS_DIR dir +:+ "/" +:+ "reference-count.txt")
    with (join SESSIONS_DIR dir +:+ "/reference-count.tx" +:+ "t") in E.
  change (join SESSIONS_DIR d +:+ "/" +:+ "router.pid")
    with (join SESSIONS_DIR d +:+ "/router.pi" +:+ "d") in E.
  rewrite <- !append_assoc in E. apply append_last in E. discriminate.
Qed.

End ListingFacts.

Section LogsFacts.
Import JsString SessionRegistry ServerLogs.
Local Open Scope Z_scope.
Variable defaultLogFile : string.

(** X27.  [DELETE /api/logs] empties the log file and touches no other
    file; a file that does not exist is not created.  [GET /api/logs]
    returns no blank line and no line with a line break in it, and
    after a successful [DELETE] it returns no line at all.  Either
    endpoint fails with 500 only on a file that cannot be read or
    written. *)
Theorem cleared_logs_read_empty (file : option string) (w : World) :
  let path := logFilePath defaultLogFile file in
  match deleteLogs defaultLogFile file w with
  | (clearedSuccessfully, w') =>
      getLogs defaultLogFile file w' = logLines [] /\
      existsSync path w' = existsSync path w /\
      (existsSync path w = true ->
       readFileSync path w' = Some EmptyString) /\
      (forall other, other <> path -> files w' !! other = files w !! other)
  | (failed statusCode, w') =>
      statusCode = 500 /\ w' = w /\ path ∈ faulty w
  | (logLines _, _) => False
  end /\
  match getLogs defaultLogFile file w with
  | logLines lines =>
      Forall (fun line => allWhite line = false /\
                          count "010"%char line = 0%nat) lines
  | failed statusCode => statusCode = 500 /\ path ∈ faulty w
  | clearedSuccessfully => False
  end.
Proof.
  cbv zeta. split.
  - unfold deleteLogs. set (path := logFilePath defaultLogFile file).
    destruct (existsSync path w) eqn:E.
    + unfold writeFileSync. destruct (decide (path ∈ faulty w)) as [F|NF].
      * now repeat split.
      * assert (files (withFiles (<[path := ""]> (files w)) w) !! path
                = Some "") as L
          by (unfold withFiles; cbn [files]; apply lookup_insert_eq).
        split; [|split; [|split]].
        -- unfold getLogs. fold path. unfold existsSync, readFileSync.
           rewrite L. cbn [negb faulty withFiles].
           destruct (decide _) as [F|_]; [now exfalso|reflexivity].
        -- unfold existsSync at 1. now rewrite L.
        -- intros _. unfold readFileSync. rewrite L.
           cbn [faulty withFiles].
           destruct (decide _) as [F|_]; [now exfalso|reflexivity].
        -- intros other N. unfold withFiles. cbn [files].
           now apply lookup_insert_ne.
    + split; [|split; [exact E|split; [discriminate|reflexivity]]].
      unfold getLogs. fold path. now rewrite E.
  - unfold getLogs. set (path := logFilePath defaultLogFile file).
    unfold existsSync, readFileSync.
    destruct (files w !! path) as [logContent|]; cbn [negb]; [|constructor].
    destruct (decide (path ∈ faulty w)) as [F|NF]; [now split|].
    apply Forall_forall. intros line [Hin T]%list_elem_of_In%filter_In.
    split.
    + rewrite trim_blank in T. now apply negb_true_iff in T.
    + now apply (split_parts_clean "010"%char logContent).
Qed.

End LogsFacts.

(** ** Request ids *)

Section RequestIds.
Import JsString JsNumber Monitoring.
Local Open Scope Z_scope.

Lemma digits_then (c : ascii) (s : string) : forall s' r r',
  allDigits s = true -> allDigits s' = true -> isDigit c = false ->
  s +:+ String c r = s' +:+ String c r' -> s = s' /\ r = r'.
Proof.
  induction s as [|d s IH]; intros [|d' s'] r r' D D' N;
    rewrite ?append_cons, ?append_nil; intros E.
  - injection E as ->. now split.
  - injection E as -> _. cbn in D'. rewrite N in D'. discriminate.
  - injection E as <- _. cbn in D. rewrite N in D. discriminate.
  - injection E as -> E. cbn in D, D'.
    apply andb_true_iff in D as [_ D]. apply andb_true_iff in D' as [_ D'].
    destruct (IH s' r r' D D' N E) as [-> ->]. now split.
Qed.

Lemma allDigits_toString n : 0 <= n -> allDigits (toString n) = true.
Proof.
  intros Pos. unfold toString.
  destruct (Z.ltb_spec n 0) as [|_]; [lia|].
  now rewrite allDigits_digitsOf.
Qed.

(** X28.  Request ids tell clock reading and random suffix apart: two
    calls of [generateRequestId] give the same id only when both the
    clock reading and the random suffix are the same. *)
Theorem request_ids_are_distinct (now now' : Z) (random random' : string) :
  0 <= now -> 0 <= now' ->
  generateRequestId now random = generateRequestId now' random' <->
  now = now' /\ random = random'.
Proof.
  intros Pos Pos'. split; [|now intros [-> ->]].
  unfold generateRequestId. intros E. apply append_cancel_l in E.
  change (toString now +:+ "_" +:+ random)
    with (toString now +:+ String "_"%char random) in E.
  change (toString now' +:+ "_" +:+ random')
    with (toString now' +:+ String "_"%char random') in E.
  apply digits_then in E as [E ->];
    [|now apply allDigits_toString|now apply allDigits_toString|reflexivity].
  split; [|reflexivity].
  apply (f_equal parseInt) in E.
  rewrite !parseInt_toString in E by assumption. now injection E.
Qed.

Lemma request_ids_are_distinct_witness :
  generateRequestId 1000 "k3x9" <> generateRequestId 1000 "k3x8" /\
  generateRequestId 1000 "k3x9" <> generateRequestId 1001 "k3x9".
Proof.
  split; intros E;
    apply request_ids_are_distinct in E; try lia;
    destruct E as [E1 E2]; discriminate.
Defined.

End RequestIds.

(** ** Authentication *)

Section AuthFacts.
Import JsString JsNumber Auth.
Local Open Scope Z_scope.

Lemma startsWith_append p s : startsWith p (p +:+ s) = true.
Proof.
  unfold startsWith. induction p as [|c p IH]; [now destruct s|].
  rewrite append_cons. simpl. rewrite IH.
  now destruct (ascii_dec c c).
Qed.

Lemma second_word_differs sep s t :
  nth_error (split sep s) 1 = Some t -> t <> s.
Proof.
  intros N ->. assert (In s (split sep s)) as Hin
    by (eapply nth_error_In; exact N).
  apply split_parts_clean in Hin. rewrite (split_none _ _ Hin) in N.
  discriminate.
Qed.

Lemma apiKeyAuth_keyed config req c k :
  APIKEY config = Some (String c k) -> publicUrl (url req) = false ->
  apiKeyAuth config req
  = match authKeyOf (headers req) with
    | Some (String _ _ as authKey) =>
        match tokenOf authKey with
        | Some token =>
            if String.eqb token (String c k) then done []
            else refused 401 "Invalid API key"
        | None => refused 401 "Invalid API key"
        end
    | _ => refused 401 "APIKEY is missing"
    end.
Proof. intros K U. unfold apiKeyAuth. now rewrite U, K. Qed.

(** X20.  With an API key configured, a request outside the public
    paths is let through only when its authorization header, or else
    its x-api-key header, carries the key: as the whole header, or as
    the second word of a header that starts with [Bearer].  The header
    [Bearer <key>] is accepted for every key without a space; the key
    alone is accepted unless the key itself starts with [Bearer], and
    is refused with 401 when it does. *)
Theorem apiKeyAuth_asks_for_the_key (config : Config) (req : AuthRequest)
    (key : string) :
  APIKEY config = Some key ->
  truthy key = true ->
  publicUrl (url req) = false ->
  (apiKeyAuth config req = done [] ->
   exists authKey,
     authKeyOf (headers req) = Some authKey /\
     (authKey = key \/
      startsWith "Bearer" authKey = true /\
      nth_error (split " "%char authKey) 1 = Some key)) /\
  (forall verdict, apiKeyAuth config req = verdict ->
     verdict = done [] \/ exists body, verdict = refused 401 body) /\
  (authKeyOf (headers req) = Some ("Bearer " +:+ key) ->
   count " "%char key = 0%nat ->
   apiKeyAuth config req = done []) /\
  (authKeyOf (headers req) = Some key ->
   apiKeyAuth config req
   = if startsWith "Bearer" key then refused 401 "Invalid API key"
     else done []).
Proof.
  intros K T U. destruct key as [|c k]; [discriminate|].
  rewrite (apiKeyAuth_keyed config req c k K U).
  split; [|split; [|split]].
  - destruct (authKeyOf (headers req)) as [[|a authKey]|]; try discriminate.
    unfold tokenOf.
    destruct (startsWith "Bearer" (String a authKey)) eqn:B.
    + destruct (nth_error _ 1) as [token|] eqn:N; [|discriminate].
      destruct (String.eqb_spec token (String c k)) as [->|]; [|discriminate].
      intros _. exists (String a authKey). split; [reflexivity|].
      right. now split.
    + destruct (String.eqb_spec (String a authKey) (String c k)) as [->|];
        [|discriminate].
      intros _. exists (String c k). split; [reflexivity|now left].
  - intros verdict <-.
    destruct (authKeyOf (headers req)) as [[|a authKey]|];
      try (right; eexists; reflexivity).
    destruct (tokenOf (String a authKey)) as [token|];
      [|right; eexists; reflexivity].
    destruct (String.eqb token (String c k));
      [now left|right; eexists; reflexivity].
  - intros -> Clean.
    change ("Bearer " +:+ String c k) with ("Bearer" +:+ String " " (String c k)).
    assert (tokenOf ("Bearer" +:+ String " " (String c k))
            = Some (String c k)) as ->.
    { unfold tokenOf. rewrite startsWith_append.
      rewrite split_join by reflexivity.
      now rewrite split_none by assumption. }
    now rewrite String.eqb_refl.
  - intros ->. unfold tokenOf.
    destruct (startsWith "Bearer" (String c k)) eqn:B.
    + destruct (nth_error _ 1) as [token|] eqn:N; [|reflexivity].
      apply second_word_differs in N.
      apply String.eqb_neq in N. now rewrite N.
    + now rewrite String.eqb_refl.
Qed.

(** X21.  Without an API key, a request outside the public paths is
    refused only for its origin: an origin on this machine, whatever
    its port, is let through with the CORS headers set, any other
    origin is refused with 403, and a request without an origin is let
    through.  The configured port plays no part. *)
Theorem apiKeyAuth_without_key (config : Config) (req : AuthRequest) :
  match APIKEY config with Some key => truthy key | None => false end = false ->
  publicUrl (url req) = false ->
  apiKeyAuth config req
  = match origin (headers req) with
    | Some (String _ _ as origin) =>
        if isLocalOrigin origin then done (corsHeaders origin)
        else refused 403 "CORS not allowed for this origin"
    | _ => done []
    end.
Proof.
  intros K U. unfold apiKeyAuth. rewrite U.
  assert (forall o, isLocalOrigin o = false ->
            existsb (String.eqb o) (allowedOrigins config) = false) as Dead.
  { intros o L. unfold allowedOrigins. cbn [existsb].
    apply orb_false_iff in L as [L1 L2].
    destruct (String.eqb_spec o
                ("http://127.0.0.1:" +:+ toString (portOf config))) as [->|].
    - now rewrite startsWith_append in L1.
    - destruct (String.eqb_spec o
                  ("http://localhost:" +:+ toString (portOf config)))
        as [->|]; [|reflexivity].
      now rewrite startsWith_append in L2. }
  destruct (APIKEY config) as [[|c k]|]; try discriminate;
    destruct (origin (headers req)) as [[|a o]|]; try reflexivity;
    destruct (isLocalOrigin (String a o)) eqn:L; try reflexivity;
    now rewrite (Dead _ L).
Qed.

End AuthFacts.

Section AuthExamples.
Import JsString JsNumber Auth.
Local Open Scope Z_scope.

Lemma apiKeyAuth_asks_for_the_key_witness :
  let config := {| APIKEY := Some "sk-router"; PORT := None |} in
  let req h :=
    {| url := "/v1/messages";
       headers := {| origin := None; authorization := h;
                     x_api_key := None |} |} in
  apiKeyAuth config (req (Some (single "Bearer sk-router"))) = done [] /\
  apiKeyAuth config (req (Some (single "sk-router"))) = done [] /\
  apiKeyAuth config (req (Some (single "sk-other")))
  = refused 401 "Invalid API key".
Proof.
  cbv zeta.
  split; [|split; [|reflexivity]].
  - destruct (apiKeyAuth_asks_for_the_key
                {| APIKEY := Some "sk-router"; PORT := None |}
                {| url := "/v1/messages";
                   headers :=
                     {| origin := None;
                        authorization := Some (single "Bearer sk-router");
                        x_api_key := None |} |}
                "sk-router") as (_ & _ & Bearer & _);
      [reflexivity|reflexivity|reflexivity|].
    apply Bearer; reflexivity.
  - reflexivity.
Defined.

Lemma apiKeyAuth_without_key_witness :
  apiKeyAuth {| APIKEY := None; PORT := Some 3456 |}
    {| url := "/api/sessions";
       headers := {| origin := Some "http://example.com:3456";
                     authorization := None; x_api_key := None |} |}
  = refused 403 "CORS not allowed for this origin".
Proof.
  apply (apiKeyAuth_without_key {| APIKEY := None; PORT := Some 3456 |}
           {| url := "/api/sessions";
              headers := {| origin := Some "http://example.com:3456";
                            authorization := None; x_api_key := None |} |});
    reflexivity.
Defined.

End AuthExamples.
